(** * discord-stats-bot: host telemetry and backup inventory reports

    A shallow embedding of [scripts/discord-stats-bot.py] and the properties of
    its report builders.  Python values are modelled as follows.

    - [str] is a sequence of Unicode code points, so [len] is [length];
    - [int] is [Z] (or [nat] where the value is a length or a counter);
    - an exception that the program catches is an [option] or an explicit
      error constructor at the place where the program catches it;
    - the operating system (files, directories, external commands) is an
      explicit environment that answers the calls the program makes. *)

From Stdlib Require String Ascii.
Import String.StringSyntax.
From Stdlib Require Import List ZArith NArith Lia Bool.
From Stdlib Require Import Sorting.Sorted Sorting.Permutation.
From Stdlib Require Import QArith Qround Qabs Lqa.
From Stdlib Require DecimalN.
Import ListNotations.

Delimit Scope string_scope with string.

Open Scope nat_scope.

(* ================================================================== *)
(** * Part I: the program *)
(* ================================================================== *)

(** ** Python strings *)

Definition char := N.
Definition str := list char.

(** Source text of the program is UTF-8: a literal is decoded into its code
    points (sequences of one, two and three bytes are enough for the
    program's literals). *)
Fixpoint utf8 (bs : list N) : str :=
  match bs with
  | [] => []
  | b0 :: r0 =>
      if (b0 <? 192)%N then b0 :: utf8 r0
      else
        match r0 with
        | [] => [b0]
        | b1 :: r1 =>
            if (b0 <? 224)%N then ((b0 - 192) * 64 + (b1 - 128))%N :: utf8 r1
            else
              match r1 with
              | [] => [b0; b1]
              | b2 :: r2 =>
                  ((b0 - 224) * 4096 + (b1 - 128) * 64 + (b2 - 128))%N :: utf8 r2
              end
        end
  end.

Definition py (s : String.string) : str :=
  utf8 (map Ascii.N_of_ascii (String.list_ascii_of_string s)).

Arguments py s%_string.

Definition nl : char := 10%N.
Definition slash : char := 47%N.
Definition dot : char := 46%N.
Definition colon : char := 58%N.
Definition space : char := 32%N.
Definition dash : char := 45%N.
Definition underscore : char := 95%N.

Definition str_eqb (a b : str) : bool :=
  if list_eq_dec N.eq_dec a b then true else false.

(** [sep.join(xs)] *)
Fixpoint join (sep : str) (xs : list str) : str :=
  match xs with
  | [] => []
  | [x] => x
  | x :: rest => x ++ sep ++ join sep rest
  end.

(** [s.startswith(p)] *)
Fixpoint startswith (s p : str) : bool :=
  match p, s with
  | [], _ => true
  | _ :: _, [] => false
  | a :: p', b :: s' => (a =? b)%N && startswith s' p'
  end.

(** Lexicographic comparison of code points: Python's [<=] on [str]. *)
Fixpoint str_leb (a b : str) : bool :=
  match a, b with
  | [], _ => true
  | _ :: _, [] => false
  | x :: a', y :: b' => (x <? y)%N || ((x =? y)%N && str_leb a' b')
  end.

(** [str.isspace] of one character (Unicode 14 tables of CPython 3.11). *)
Definition isspace (c : char) : bool :=
  existsb (N.eqb c)
    [9; 10; 11; 12; 13; 28; 29; 30; 31; 32; 133; 160; 5760; 8192; 8193; 8194;
     8195; 8196; 8197; 8198; 8199; 8200; 8201; 8202; 8232; 8233; 8239; 8287;
     12288]%N.

(** The characters at which [str.splitlines] breaks a line. *)
Definition islinebreak (c : char) : bool :=
  existsb (N.eqb c) [10; 11; 12; 13; 28; 29; 30; 133; 8232; 8233]%N.

(** [s.lstrip()], [s.rstrip()] and [s.strip()] with no argument. *)
Fixpoint lstrip_ws (s : str) : str :=
  match s with
  | c :: s' => if isspace c then lstrip_ws s' else s
  | [] => []
  end.

Definition rstrip_ws (s : str) : str := rev (lstrip_ws (rev s)).
Definition strip (s : str) : str := rstrip_ws (lstrip_ws s).

(** [s.lstrip(chars)] for a one-character [chars]. *)
Fixpoint lstrip_char (c : char) (s : str) : str :=
  match s with
  | x :: s' => if (x =? c)%N then lstrip_char c s' else s
  | [] => []
  end.

(** The first code points of the decimal digits of each Unicode script:
    the class [\d] of [re] on [str] patterns, also what [int()] accepts. *)
Definition digit_bases : list N :=
  [48; 1632; 1776; 1984; 2406; 2534; 2662; 2790; 2918; 3046; 3174; 3302; 3430;
   3558; 3664; 3792; 3872; 4160; 4240; 6112; 6160; 6470; 6608; 6784; 6800;
   6992; 7088; 7232; 7248; 42528; 43216; 43264; 43472; 43504; 43600; 44016;
   65296; 66720; 68912; 69734; 69872; 69942; 70096; 70384; 70736; 70864;
   71248; 71360; 71472; 71904; 72016; 72784; 73040; 73120; 92768; 92864;
   93008; 120782; 120792; 120802; 120812; 120822; 123200; 123632; 125264;
   130032]%N.

Definition digit_base (c : char) : option N :=
  find (fun b => (b <=? c)%N && (c <? b + 10)%N) digit_bases.

Definition isdigit (c : char) : bool :=
  match digit_base c with Some _ => true | None => false end.

Definition digit_value (c : char) : Z :=
  match digit_base c with Some b => Z.of_N (c - b) | None => 0 end.

Definition is_ascii_digit (c : char) : bool := (48 <=? c)%N && (c <=? 57)%N.

(** The ASCII digit of a value below ten. *)
Definition digit_char (v : Z) : char := (48 + Z.to_N v)%N.

(** [str(n)] for a non-negative [n], by the digits of [Decimal.uint]. *)
Fixpoint uint_chars (u : Decimal.uint) : str :=
  match u with
  | Decimal.Nil => []
  | Decimal.D0 u' => 48%N :: uint_chars u'
  | Decimal.D1 u' => 49%N :: uint_chars u'
  | Decimal.D2 u' => 50%N :: uint_chars u'
  | Decimal.D3 u' => 51%N :: uint_chars u'
  | Decimal.D4 u' => 52%N :: uint_chars u'
  | Decimal.D5 u' => 53%N :: uint_chars u'
  | Decimal.D6 u' => 54%N :: uint_chars u'
  | Decimal.D7 u' => 55%N :: uint_chars u'
  | Decimal.D8 u' => 56%N :: uint_chars u'
  | Decimal.D9 u' => 57%N :: uint_chars u'
  end.

Definition str_of_N (n : N) : str := uint_chars (N.to_uint n).
Definition str_of_nat (n : nat) : str := str_of_N (N.of_nat n).

(** [str(z)] *)
Definition str_of_Z (z : Z) : str :=
  match z with
  | Zneg p => dash :: str_of_N (Npos p)
  | _ => str_of_N (Z.to_N z)
  end.

(** [f"{s:>w}"] *)
Definition rjust (w : nat) (s : str) : str :=
  repeat space (w - length s) ++ s.

(** [%m], [%d], [%H] and [%M] of [strftime]: two digits, zero-padded. *)
Definition two_digits (v : Z) : str :=
  [digit_char (v / 10); digit_char (v mod 10)].

(** ** [datetime] values and the format of backup directory names *)

(** A naive [datetime] at minute precision (seconds and microseconds are
    always zero for the formats of this program). *)
Record datetime := mkdt
  { year : Z; month : Z; day : Z; hour : Z; minute : Z }.

Definition is_leap (y : Z) : bool :=
  ((y mod 4 =? 0) && (negb (y mod 100 =? 0) || (y mod 400 =? 0)))%Z.

Definition days_in_month (y m : Z) : Z :=
  (if m =? 2 then (if is_leap y then 29 else 28)
   else if (m =? 4) || (m =? 6) || (m =? 9) || (m =? 11) then 30 else 31)%Z.

(** What the constructor of [datetime.date] accepts ([ValueError] otherwise). *)
Definition date_valid (y m d : Z) : bool :=
  ((1 <=? y) && (y <=? 9999) && (1 <=? m) && (m <=? 12)
   && (1 <=? d) && (d <=? days_in_month y m))%Z.

(** Comparison of two [datetime]s: field by field, as tuples. *)
Definition dt_key (t : datetime) : list Z :=
  [year t; month t; day t; hour t; minute t].

Fixpoint lex_leb (a b : list Z) : bool :=
  match a, b with
  | [], _ => true
  | _ :: _, [] => false
  | x :: a', y :: b' => ((x <? y) || ((x =? y) && lex_leb a' b'))%Z
  end.

Definition dt_leb (a b : datetime) : bool := lex_leb (dt_key a) (dt_key b).

(** The regular expressions that [_strptime] substitutes for the directives
    of a format.  A directive is a list of alternatives, tried in order; an
    alternative is a sequence of character classes. *)
Definition cls := char -> bool.

Inductive item :=
| RLit (c : char)
| RAlt (alts : list (list cls)).

Definition one (c : N) : cls := fun x => (x =? c)%N.
Definition rng (a b : N) : cls := fun x => ((a <=? x) && (x <=? b))%N.

(** [%Y]: [\d\d\d\d] *)
Definition re_Y : item := RAlt [[isdigit; isdigit; isdigit; isdigit]].
(** [%m]: [1[0-2]|0[1-9]|[1-9]] *)
Definition re_m : item :=
  RAlt [[one 49; rng 48 50]; [one 48; rng 49 57]; [rng 49 57]].
(** [%d]: [3[0-1]|[1-2]\d|0[1-9]|[1-9]| [1-9]] *)
Definition re_d : item :=
  RAlt [[one 51; rng 48 49]; [rng 49 50; isdigit]; [one 48; rng 49 57];
       [rng 49 57]; [one 32; rng 49 57]].
(** [%H]: [2[0-3]|[0-1]\d|\d] *)
Definition re_H : item :=
  RAlt [[one 50; rng 48 51]; [rng 48 49; isdigit]; [isdigit]].
(** [%M]: [[0-5]\d|\d] *)
Definition re_M : item := RAlt [[rng 48 53; isdigit]; [isdigit]].

(** The pattern of ["%Y-%m-%d_%H-%M"]. *)
Definition backup_regex : list item :=
  [re_Y; RLit dash; re_m; RLit dash; re_d; RLit underscore; re_H; RLit dash; re_M].

Fixpoint match_alt (alt : list cls) (s : str) : option (str * str) :=
  match alt with
  | [] => Some ([], s)
  | p :: alt' =>
      match s with
      | c :: s' =>
          if p c then
            match match_alt alt' s' with
            | Some (g, r) => Some (c :: g, r)
            | None => None
            end
          else None
      | [] => None
      end
  end.

(** [re.match]: the first match in the order of the alternatives, with
    backtracking into the alternatives of earlier directives.  The result
    is the text of each group and the text that is left. *)
Fixpoint match_seq (items : list item) (s : str) : option (list str * str) :=
  match items with
  | [] => Some ([], s)
  | RLit c :: items' =>
      match s with
      | c' :: s' => if (c' =? c)%N then match_seq items' s' else None
      | [] => None
      end
  | RAlt alts :: items' =>
      (fix try (alts : list (list cls)) : option (list str * str) :=
         match alts with
         | [] => None
         | alt :: alts' =>
             match match_alt alt s with
             | Some (g, r) =>
                 match match_seq items' r with
                 | Some (gs, r') => Some (g :: gs, r')
                 | None => try alts'
                 end
             | None => try alts'
             end
         end) alts
  end.

(** [int(s)] of a group of the pattern: blanks around the digits are
    ignored, every Unicode decimal digit counts. *)
Definition int_of_str (s : str) : Z :=
  fold_left (fun acc c => (acc * 10 + digit_value c)%Z) (strip s) 0%Z.

(** [parse_backup_ts], lines 133-137: [datetime.strptime(name, "%Y-%m-%d_%H-%M")],
    [None] for the [ValueError] of a name that does not match, of text left
    after the match, or of a date that does not exist. *)
Definition parse_backup_ts (name : str) : option datetime :=
  match match_seq backup_regex name with
  | Some ([gY; gm; gd; gH; gM], []) =>
      let y := int_of_str gY in
      let m := int_of_str gm in
      let d := int_of_str gd in
      if date_valid y m d
      then Some (mkdt y m d (int_of_str gH) (int_of_str gM))
      else None
  | _ => None
  end.

(** [strftime]: [%Y] is the year as the C library prints it (no padding
    on glibc), the other fields have two digits. *)
Inductive directive := FY | Fm | Fd | FH | FM | FLit (c : char).

Definition render (ts : datetime) (f : directive) : str :=
  match f with
  | FY => str_of_Z (year ts)
  | Fm => two_digits (month ts)
  | Fd => two_digits (day ts)
  | FH => two_digits (hour ts)
  | FM => two_digits (minute ts)
  | FLit c => [c]
  end.

Definition strftime (fmt : list directive) (ts : datetime) : str :=
  flat_map (render ts) fmt.

(** ["%Y-%m-%d_%H-%M"], the format of directory names *)
Definition name_format : list directive :=
  [FY; FLit dash; Fm; FLit dash; Fd; FLit underscore; FH; FLit dash; FM].

(** ["%Y-%m-%d %H:%M"], the format of report lines *)
Definition display_format : list directive :=
  [FY; FLit dash; Fm; FLit dash; Fd; FLit space; FH; FLit colon; FM].

(** ** The operating system *)

Set Warnings "-register-all".

(** An entry that [os.scandir] yields: its name and the answer of
    [entry.is_dir()], [None] when that call raises [OSError]. *)
Record dirent := mkent { d_name : str; d_is_dir : option bool }.

(** A file tree as [os.walk], [os.path.islink] and [os.path.getsize] see it.
    [File st]: anything that is neither a directory nor a symbolic link,
    [st] its size, [None] when [stat] fails.
    [LinkFile st]: a symbolic link that does not lead to a directory;
    [st] is the size of its target, [None] for a dangling link or a failing
    [stat].
    [LinkDir]: a symbolic link to a directory ([os.walk] lists it among the
    directories and does not descend).
    [Dir (Some es)]: a directory and its entries; [Dir None]: a directory
    that cannot be listed. *)
Inductive node :=
| File (st : option Z)
| LinkFile (st : option Z)
| LinkDir
| Dir (entries : option (list (str * node))).

Record os_env := mkenv
  { abspath : str -> str;          (* os.path.abspath *)
    isdir : str -> bool;           (* os.path.isdir *)
    scandir : str -> list dirent;  (* the entries os.scandir yields before it
                                      ends or raises *)
    tree : str -> node             (* what lies at a path *)
  }.

Record config := mkcfg { BACKUP_BASE_DIR : str; BACKUP_FALLBACK_DIR : str }.

(** ** [list_backups], lines 140-168 *)

Definition backup := (datetime * str * str)%type.

(** The loop over the entries of one root, lines 157-163.  An exception
    leaves the loop and keeps what was appended (line 164). *)
Fixpoint scan_entries (base_dir : str) (entries : list dirent)
    (backups : list backup) : list backup :=
  match entries with
  | [] => backups
  | entry :: rest =>
      match d_is_dir entry with
      | None => backups
      | Some false => scan_entries base_dir rest backups
      | Some true =>
          match parse_backup_ts (d_name entry) with
          | None => scan_entries base_dir rest backups
          | Some ts =>
              scan_entries base_dir rest
                (backups ++ [(ts, d_name entry, base_dir)])
          end
      end
  end.

Definition mem (x : str) (s : list str) : bool := existsb (str_eqb x) s.

(** The state of the loop over the roots: [backups], [seen_dirs], and the
    directories handed to [os.scandir] so far. *)
Record scan_state := mkscan
  { backups_of : list backup; seen_dirs : list str; scanned : list str }.

(** One round of the loop over the roots, lines 144-165. *)
Definition scan_root (env : os_env) (st : scan_state) (base_dir : str)
    : scan_state :=
  match base_dir with
  | [] => st
  | _ =>
      let base_dir := abspath env base_dir in
      if mem base_dir (seen_dirs st) then st
      else
        let seen := base_dir :: seen_dirs st in
        if negb (isdir env base_dir) then mkscan (backups_of st) seen (scanned st)
        else
          mkscan (scan_entries base_dir (scandir env base_dir) (backups_of st))
                 seen (scanned st ++ [base_dir])
  end.

Definition scan_roots (cfg : config) (env : os_env) : scan_state :=
  fold_left (scan_root env) [BACKUP_BASE_DIR cfg; BACKUP_FALLBACK_DIR cfg]
            (mkscan [] [] []).

(** [list.sort(key=..., reverse=True)]: a stable sort, largest key first;
    elements with equal keys keep their order. *)
Section Sort.
Context {A K : Type} (key : A -> K) (leb : K -> K -> bool).

Fixpoint insert_desc (x : A) (l : list A) : list A :=
  match l with
  | [] => [x]
  | y :: l' =>
      if leb (key y) (key x) then x :: l else y :: insert_desc x l'
  end.

Fixpoint sort_desc (l : list A) : list A :=
  match l with
  | [] => []
  | x :: l' => insert_desc x (sort_desc l')
  end.

(** [list.sort(key=...)]: stable, smallest key first. *)
Fixpoint insert_asc (x : A) (l : list A) : list A :=
  match l with
  | [] => [x]
  | y :: l' =>
      if leb (key x) (key y) then x :: l else y :: insert_asc x l'
  end.

Fixpoint sort_asc (l : list A) : list A :=
  match l with
  | [] => []
  | x :: l' => insert_asc x (sort_asc l')
  end.
End Sort.

Definition backup_ts (b : backup) : datetime := fst (fst b).
Definition backup_name (b : backup) : str := snd (fst b).
Definition backup_root (b : backup) : str := snd b.

Definition list_backups (cfg : config) (env : os_env) : list backup :=
  sort_desc backup_ts dt_leb (backups_of (scan_roots cfg env)).

(** ** Floating point

    A finite [float] is the rational number it stands for.  Every
    operation computes the exact result and rounds it to binary64: 53
    significant bits, the least exponent of a subnormal number is -1074,
    ties go to the even significand.  A result of magnitude [2^1024] or
    more does not exist as a finite [float]. *)

(** [x * 2^(-e)] and [m * 2^e] *)
Definition scale_down (x : Q) (e : Z) : Q :=
  if (e <=? 0)%Z then x * inject_Z (2 ^ (- e)) else x / inject_Z (2 ^ e).

Definition scale_up (m : Z) (e : Z) : Q :=
  if (e <=? 0)%Z then Qmake m (Z.to_pos (2 ^ (- e))) else inject_Z (m * 2 ^ e).

(** The integer nearest to [x], the even one of two at the same distance. *)
Definition round_half_even (x : Q) : Z :=
  let f := Qfloor x in
  match Qcompare (x - inject_Z f) (1 # 2) with
  | Lt => f
  | Gt => (f + 1)%Z
  | Eq => if Z.even f then f else (f + 1)%Z
  end.

(** [floor (log2 x)] for a positive [x] *)
Definition ilog2 (x : Q) : Z :=
  let e := (Z.log2 (Qnum x) - Z.log2 (Zpos (Qden x)))%Z in
  if Qle_bool (scale_up 1 e) x then e else (e - 1)%Z.

Definition round_pos (x : Q) : Q :=
  let e := Z.max (ilog2 x - 52) (-1074) in
  scale_up (round_half_even (scale_down x e)) e.

Definition round_binary64 (x : Q) : Q :=
  match Qcompare x 0 with
  | Eq => 0
  | Gt => round_pos x
  | Lt => - round_pos (- x)
  end.

Definition is_finite (x : Q) : bool :=
  negb (Qle_bool (inject_Z (2 ^ 1024)) (Qabs x)).

(** [float(n)] and [a / b] on [int]: [OverflowError] when the rounded
    result is not finite. *)
Definition float_of_int (n : Z) : option Q :=
  let r := round_binary64 (inject_Z n) in
  if is_finite r then Some r else None.

Definition int_truediv (a b : Z) : option Q :=
  let r := round_binary64 (Qmake a 1 / Qmake b 1) in
  if is_finite r then Some r else None.

(** Arithmetic on [float]: [None] stands for an infinite result. *)
Definition fsub (a b : Q) : option Q :=
  let r := round_binary64 (a - b) in if is_finite r then Some r else None.

Definition fmul (a b : Q) : option Q :=
  let r := round_binary64 (a * b) in if is_finite r then Some r else None.

Definition fdiv (a b : Q) : Q := round_binary64 (a / b).

(** [f"{x:.0f}"]: the digits of the nearest integer; a negative [x] keeps
    its sign when it rounds to zero. *)
Definition format_0f (x : Q) : str :=
  let k := round_half_even x in
  if (k =? 0)%Z && Qle_bool x 0 && negb (Qeq_bool x 0) then py "-0"
  else str_of_Z k.

(** [f"{x:.2f}"] for [x >= 0] *)
Definition format_2f (x : Q) : str :=
  let k := round_half_even (x * 100) in
  str_of_Z (k / 100) ++ [dot] ++ two_digits (k mod 100).

(** [int(x)]: towards zero *)
Definition int_of_float (x : Q) : Z :=
  if Qle_bool 0 x then Qfloor x else Qceiling x.

(** ** [human_size], lines 171-180 *)

Fixpoint human_size_loop (num_bytes : Z) (size : Q) (units : list str) : str :=
  match units with
  | [] => str_of_Z num_bytes ++ py " B"
  | unit :: rest =>
      if negb (Qle_bool 1024 size) || match rest with [] => true | _ => false end
      then
        if str_eqb unit (py "B")
        then str_of_Z (int_of_float size) ++ [space] ++ unit
        else format_2f size ++ [space] ++ unit
      else human_size_loop num_bytes (fdiv size 1024) rest
  end.

(** [None] is the [OverflowError] of [float(num_bytes)]. *)
Definition human_size (num_bytes : Z) : option str :=
  match float_of_int num_bytes with
  | Some size =>
      Some (human_size_loop num_bytes size
              (map py ["B"; "KiB"; "MiB"; "GiB"; "TiB"]%string))
  | None => None
  end.

(** ** Walking a backup *)

(** A path below the top of a walk: the names from the top down.
    [os.path.join(root, name)] adds a name at the end, and
    [os.path.relpath(full_path, backup_path)] is the names joined by ["/"]. *)
Definition path := list str.

Definition relpath (p : path) : str := join [slash] p.

Fixpoint lookup (t : node) (p : path) : option node :=
  match p with
  | [] => Some t
  | name :: p' =>
      match t with
      | Dir (Some es) =>
          match find (fun e => str_eqb (fst e) name) es with
          | Some (_, child) => lookup child p'
          | None => None
          end
      | _ => None
      end
  end.

(** [os.path.islink]: never raises. *)
Definition islink (t : node) (p : path) : bool :=
  match lookup t p with
  | Some (LinkFile _) | Some LinkDir => true
  | _ => false
  end.

(** [os.path.getsize]: follows links; [None] is [OSError].  (The program
    asks for the size of the names that [os.walk] reports as files; the size
    of a directory itself plays no part and is left out.) *)
Definition getsize (t : node) (p : path) : option Z :=
  match lookup t p with
  | Some (File st) | Some (LinkFile st) => st
  | _ => None
  end.

(** [entry.is_dir()] as [os.walk] uses it: links are followed. *)
Definition is_dir_entry (n : node) : bool :=
  match n with
  | Dir _ | LinkDir => true
  | _ => false
  end.

(** [os.walk(top)]: top-down, links to directories are listed and not
    followed, a directory that cannot be listed yields nothing. *)
Fixpoint walk (root : path) (t : node) : list (path * list str * list str) :=
  match t with
  | Dir (Some es) =>
      (root,
       map fst (filter (fun e => is_dir_entry (snd e)) es),
       map fst (filter (fun e => negb (is_dir_entry (snd e))) es))
      :: flat_map
           (fun e =>
              match snd e with
              | Dir _ => walk (root ++ [fst e]) (snd e)
              | _ => []
              end)
           es
  | _ => []
  end.

(** [dir_size_bytes], lines 183-194, on the tree at [path]. *)
Definition dir_size_bytes (t : node) : Z :=
  fold_left
    (fun total '(root, _dirs, files) =>
       fold_left
         (fun total name =>
            let file_path := root ++ [name] in
            if islink t file_path then total
            else
              match getsize t file_path with
              | Some n => (total + n)%Z
              | None => total
              end)
         files total)
    (walk [] t) 0%Z.

(** The list [files] of [backup_files_text], lines 239-250. *)
Definition collect_files (t : node) : list (str * Z) :=
  flat_map
    (fun '(root, _dirs, names) =>
       map (fun name =>
              let full_path := root ++ [name] in
              (relpath full_path,
               match getsize t full_path with
               | Some n => n
               | None => 0%Z
               end))
           names)
    (walk [] t).

Definition backup_files (t : node) : list (str * Z) :=
  sort_asc fst str_leb (collect_files t).

(** ** The bounded report, lines 207-224, 254-271 and 289-305

    The three reports run the same loop over their candidate lines. *)

Record budget := mkbudget
  { lines : list str; hidden : nat; current_len : nat }.

Definition start (header : list str) : budget :=
  mkbudget header 0 (list_sum (map (fun line => length line + 1) header)).

Definition add_line (max_len : nat) (b : budget) (line : str) : budget :=
  let line_len := length line + 1 in
  if max_len <? current_len b + line_len
  then mkbudget (lines b) (S (hidden b)) (current_len b)
  else mkbudget (lines b ++ [line]) (hidden b) (current_len b + line_len).

Definition finish (trailer : nat -> str) (b : budget) : list str :=
  match hidden b with
  | 0 => lines b
  | S _ => lines b ++ [trailer (hidden b)]
  end.

Definition bounded_lines (max_len : nat) (header candidates : list str)
    (trailer : nat -> str) : list str :=
  finish trailer (fold_left (add_line max_len) candidates (start header)).

(** The text between the fences. *)
Definition body (ls : list str) : str := join [nl] ls.

Definition fenced (ls : list str) : str :=
  py "```" ++ [nl] ++ body ls ++ [nl] ++ py "```".

Definition max_len : nat := 1800.

(** [enumerate(xs, start=i)] *)
Fixpoint enumerate {A} (i : nat) (xs : list A) : list (nat * A) :=
  match xs with
  | [] => []
  | x :: xs' => (i, x) :: enumerate (S i) xs'
  end.

(** ** [backups_index_text], lines 197-224 *)

Definition index_line (e : nat * backup) : str :=
  rjust 3 (str_of_nat (fst e)) ++ py ". "
    ++ strftime display_format (backup_ts (snd e)).

Definition index_trailer (n : nat) : str :=
  py "... ir dar " ++ str_of_nat n ++ py " backup įrašų".

Definition backups_index_text (cfg : config) (env : os_env) : str :=
  match list_backups cfg env with
  | [] =>
      py "```" ++ [nl] ++ py "Backup sąrašas tuščias." ++ [nl]
        ++ py "Tikrinti katalogai: " ++ BACKUP_BASE_DIR cfg ++ py ", "
        ++ BACKUP_FALLBACK_DIR cfg ++ [nl] ++ py "```"
  | backups =>
      fenced
        (bounded_lines max_len [py "Backup sąrašas (naujausi viršuje):"]
           (map index_line (enumerate 1 backups)) index_trailer)
  end.

(** ** [backup_files_text], lines 227-271 *)

(** [os.path.join] of two parts *)
Definition path_join (a b : str) : str :=
  if startswith b [slash] then b
  else
    match rev a with
    | [] => b
    | c :: _ => if (c =? slash)%N then a ++ b else a ++ [slash] ++ b
    end.

Definition files_trailer (n : nat) : str :=
  py "... ir dar " ++ str_of_nat n ++ py " failų".

(** The candidate lines; [None] when [human_size] raises. *)
Fixpoint file_lines (files : list (str * Z)) : option (list str) :=
  match files with
  | [] => Some []
  | (rel_path, size_bytes) :: rest =>
      match human_size size_bytes with
      | None => None
      | Some h =>
          match file_lines rest with
          | None => None
          | Some ls => Some ((rel_path ++ py " (" ++ h ++ py ")") :: ls)
          end
      end
  end.

Definition files_header (index : Z) (ts : datetime) : str :=
  py "Backup #" ++ str_of_Z index ++ py " failai ("
    ++ strftime display_format ts ++ py "):".

Definition msg_empty : str :=
  py "```" ++ [nl] ++ py "Backup sąrašas tuščias." ++ [nl] ++ py "```".

Definition msg_bad_index (index : Z) (n : nat) : str :=
  py "```" ++ [nl] ++ py "Neteisingas numeris: " ++ str_of_Z index
    ++ py ". Galimi: 1.." ++ str_of_nat n ++ [nl] ++ py "```".

Definition msg_not_on_disk (index : Z) : str :=
  py "```" ++ [nl] ++ py "Backup #" ++ str_of_Z index ++ py " nerastas diske."
    ++ [nl] ++ py "```".

Definition msg_no_files (index : Z) (ts : datetime) : str :=
  py "```" ++ [nl] ++ py "Backup #" ++ str_of_Z index ++ py " ("
    ++ strftime display_format ts ++ py ") neturi failų." ++ [nl] ++ py "```".

(** [None] is an exception that leaves the function. *)
Definition backup_files_text (cfg : config) (env : os_env) (index : Z)
    : option str :=
  let backups := list_backups cfg env in
  match backups with
  | [] => Some msg_empty
  | _ =>
      if ((index <? 1) || (Z.of_nat (length backups) <? index))%Z
      then Some (msg_bad_index index (length backups))
      else
        match nth_error backups (Z.to_nat (index - 1)) with
        | None => None
        | Some (ts, folder, base_dir) =>
            let backup_path := path_join base_dir folder in
            if negb (isdir env backup_path) then Some (msg_not_on_disk index)
            else
              match backup_files (tree env backup_path) with
              | [] => Some (msg_no_files index ts)
              | files =>
                  match file_lines files with
                  | None => None
                  | Some candidates =>
                      Some (fenced (bounded_lines max_len
                                      [files_header index ts] candidates
                                      files_trailer))
                  end
              end
        end
  end.

(** ** External commands and [/proc] *)

(** What [subprocess.check_output] does: it returns the output, or raises
    (exit status, timeout, missing program) with a message. *)
Inductive cmd_result :=
| Output (raw : str)
| Raised (e : str).

(** [sh], lines 23-28 *)
Definition sh (r : cmd_result) : str :=
  match r with
  | Output raw => strip raw
  | Raised e => py "ERR: " ++ e
  end.

Record proc_env := mkproc
  { read_cgroup : str -> option str;      (* /proc/<pid>/cgroup, None: cannot be read *)
    docker_inspect : str -> cmd_result;   (* docker inspect --format {{.Name}} <id> *)
    ps : str -> cmd_result                (* ps ... --sort=<order> | head -n 6 *)
  }.

(** [s.splitlines()] *)
Fixpoint splitlines_from (cur : str) (s : str) : list str :=
  match s with
  | [] => match cur with [] => [] | _ => [rev cur] end
  | c :: s' =>
      if islinebreak c then
        rev cur ::
          match s' with
          | c' :: s'' =>
              if (c =? 13)%N && (c' =? 10)%N
              then splitlines_from [] s''
              else splitlines_from [] s'
          | [] => []
          end
      else splitlines_from (c :: cur) s'
  end.

Definition splitlines (s : str) : list str := splitlines_from [] s.

(** The text before the first [c], and the text after it if there is one. *)
Fixpoint break_at (c : char) (s : str) : str * option str :=
  match s with
  | [] => ([], None)
  | x :: s' =>
      if (x =? c)%N then ([], Some s')
      else let (p, r) := break_at c s' in (x :: p, r)
  end.

(** [s.split(c, maxsplit)] for a separator of one character *)
Fixpoint split_char (c : char) (maxsplit : nat) (s : str) : list str :=
  match maxsplit with
  | 0 => [s]
  | S k =>
      match break_at c s with
      | (p, None) => [p]
      | (p, Some r) => p :: split_char c k r
      end
  end.

(** [s.find(sub)], counting from [i] *)
Fixpoint find_from (i : Z) (s sub : str) : Z :=
  if startswith s sub then i
  else
    match s with
    | [] => (-1)%Z
    | _ :: s' => find_from (i + 1)%Z s' sub
    end.

Definition str_find (s sub : str) : Z := find_from 0%Z s sub.

(** The word at the start of [s] and what follows it. *)
Fixpoint take_word (s : str) : str * str :=
  match s with
  | [] => ([], [])
  | c :: s' =>
      if isspace c then ([], s)
      else let (w, r) := take_word s' in (c :: w, r)
  end.

(** [s.split(None, maxsplit)] *)
Fixpoint split_ws (maxsplit : nat) (s : str) : list str :=
  match lstrip_ws s with
  | [] => []
  | r =>
      match maxsplit with
      | 0 => [r]
      | S k => let (w, r') := take_word r in w :: split_ws k r'
      end
  end.

(** ** [docker_name_by_pid], lines 308-340 *)

Definition markers : list str := [py "docker/"; py "docker-"].

(** The loop over the markers, lines 321-329: the identifier that ends it. *)
Fixpoint scan_markers (path : str) (ms : list str) : option str :=
  match ms with
  | [] => None
  | marker :: rest =>
      let idx := str_find path marker in
      if (idx =? -1)%Z then scan_markers path rest
      else
        let tail := skipn (Z.to_nat (idx + Z.of_nat (length marker))) path in
        let cid := hd [] (split_char dot 1 (hd [] (split_char slash 1 tail))) in
        if 12 <=? length cid then Some cid else scan_markers path rest
  end.

(** The loop over the lines, lines 316-331. *)
Fixpoint scan_cgroups (cgroups : list str) : option str :=
  match cgroups with
  | [] => None
  | line :: rest =>
      match split_char colon 2 line with
      | [_; _; path] =>
          match scan_markers path markers with
          | Some cid => Some cid
          | None => scan_cgroups rest
          end
      | _ => scan_cgroups rest
      end
  end.

Definition docker_name_by_pid (os : proc_env) (pid : str) : option str :=
  match read_cgroup os pid with
  | None => None
  | Some text =>
      match scan_cgroups (splitlines text) with
      | None => None
      | Some container_id =>
          let name := sh (docker_inspect os container_id) in
          if startswith name (py "ERR") || match name with [] => true | _ => false end
          then None
          else Some (lstrip_char slash name)
      end
  end.

(** ** [top5_processes], lines 343-371 *)

Definition format_row (os : proc_env) (parts : list str) : option str :=
  match parts with
  | [pid; pcpu; pmem; comm] =>
      let suffix :=
        if str_eqb comm (py "apache2") then
          match docker_name_by_pid os pid with
          | None | Some [] => []
          | Some docker_name => py " (docker: " ++ docker_name ++ py ")"
          end
        else [] in
      Some (rjust 5 pid ++ py "  " ++ rjust 5 pcpu ++ py "%  "
              ++ rjust 5 pmem ++ py "%  " ++ comm ++ suffix)
  | _ => None
  end.

(** The loop over the rows, lines 359-369. *)
Fixpoint collect_rows (os : proc_env) (lns : list str) (rows : list str)
    : list str :=
  match lns with
  | [] => rows
  | ln :: rest =>
      let parts := split_ws 3 ln in
      if length parts <? 4 then collect_rows os rest rows
      else
        match format_row os parts with
        | Some row => collect_rows os rest (rows ++ [row])
        | None => collect_rows os rest rows
        end
  end.

Definition top5_processes (os : proc_env) (sort : str) : str :=
  let order := if str_eqb sort (py "cpu") then py "-pcpu" else py "-pmem" in
  let out := sh (ps os order) in
  let lns := splitlines out in
  if length lns <? 2 then py "n/a"
  else
    match collect_rows os (tl lns) [] with
    | [] => py "n/a"
    | rows => join [nl] rows
    end.

(** ** [cpu_usage_str], lines 95-115 *)

(** [read_stat] on the counters of the first line of [/proc/stat]:
    [None] is the [IndexError] of fewer than four counters. *)
Definition read_stat (vals : list Z) : option (Z * Z) :=
  match nth_error vals 3 with
  | None => None
  | Some v3 =>
      let total := fold_left Z.add vals 0%Z in
      let idle := (v3 + if (4 <? length vals)%nat then nth 4 vals 0 else 0)%Z in
      Some (total, idle)
  end.

(** The two samples are the arguments; [None] is a sample that raised. *)
Definition cpu_usage_of (s1 s2 : option (Z * Z)) : str :=
  match s1, s2 with
  | Some (t1, i1), Some (t2, i2) =>
      let dt := (t2 - t1)%Z in
      let di := (i2 - i1)%Z in
      if (dt <=? 0)%Z then py "n/a"
      else
        match int_truediv di dt with
        | None => py "n/a"
        | Some q =>
            match fsub 1 q with
            | None => py "inf%"
            | Some d =>
                match fmul d 100 with
                | None => if Qle_bool 0 d then py "inf%" else py "-inf%"
                | Some usage => format_0f usage ++ py "%"
                end
            end
        end
  | _, _ => py "n/a"
  end.

(** The contents of [/proc/stat] at the two reads: the counters after the
    label of the first line, [None] when the file cannot be read or a
    counter is not a number. *)
Definition cpu_usage_str (stat1 stat2 : option (list Z)) : str :=
  match stat1 with
  | None => py "n/a"
  | Some v1 =>
      match read_stat v1 with
      | None => py "n/a"
      | Some s1 =>
          match stat2 with
          | None => py "n/a"
          | Some v2 => cpu_usage_of (Some s1) (read_stat v2)
          end
      end
  end.


(** ** The other readers of the report *)

(** [s.split()]: no limit on the number of fields (a string has fewer
    fields than characters). *)
Definition split_fields (s : str) : list str := split_ws (length s) s.

(** The digits of [int(s)]: decimal digits of any script, single
    underscores between digits. *)
Fixpoint int_digits (acc : Z) (after_digit : bool) (s : str) : option Z :=
  match s with
  | [] => if after_digit then Some acc else None
  | c :: s' =>
      if isdigit c then int_digits (acc * 10 + digit_value c)%Z true s'
      else if (c =? underscore)%N && after_digit then int_digits acc false s'
      else None
  end.

(** [sys.int_info.default_max_str_digits]: the most digits that [int(s)]
    reads and that [str(n)] writes. *)
Definition max_str_digits : nat := 4300.

(** [int(s)] of a [str]: blanks around the number, an optional sign;
    [None] is [ValueError]. *)
Definition py_int (s : str) : option Z :=
  match strip s with
  | [] => None
  | c :: r =>
      if max_str_digits <? length (filter isdigit (c :: r)) then None
      else if (c =? dash)%N then option_map Z.opp (int_digits 0 false r)
      else if (c =? 43)%N then int_digits 0 false r
      else int_digits 0 false (c :: r)
  end.

(** [str(n)] of an [int]: [None] is the [ValueError] for a number of more
    than [max_str_digits] digits. *)
Definition str_of_int (n : Z) : option str :=
  if (Z.abs n <? 10 ^ Z.of_nat max_str_digits)%Z then Some (str_of_Z n)
  else None.

(** What a file opened in text mode gives: every ["\r\n"] and every other
    ["\r"] has become ["\n"]. *)
Fixpoint universal_newlines (s : str) : str :=
  match s with
  | [] => []
  | c :: s' =>
      if (c =? 13)%N then
        nl :: match s' with
              | c' :: s'' =>
                  if (c' =? nl)%N then universal_newlines s''
                  else universal_newlines s'
              | [] => []
              end
      else c :: universal_newlines s'
  end.

(** The lines that iterating over a text file yields: each ends with its
    newline, the last one may not. *)
Fixpoint file_iter (cur : str) (s : str) : list str :=
  match s with
  | [] => match cur with [] => [] | _ => [rev cur] end
  | c :: s' =>
      if (c =? nl)%N then rev (c :: cur) :: file_iter [] s'
      else file_iter (c :: cur) s'
  end.

Definition na : str := py "n/a".

(** [loadavg_str], lines 55-61, on the contents of [/proc/loadavg]
    ([None]: the file cannot be read as UTF-8 text). *)
Definition loadavg_str (loadavg : option str) : str :=
  match loadavg with
  | None => na
  | Some text =>
      match split_fields (universal_newlines text) with
      | a0 :: a1 :: a2 :: _ => a0 ++ [space] ++ a1 ++ [space] ++ a2
      | _ => na
      end
  end.

(** [int(line.split()[1])]: [None] is [IndexError] or [ValueError]. *)
Definition second_int (line : str) : option Z :=
  match nth_error (split_fields line) 1 with
  | Some tok => py_int tok
  | None => None
  end.

(** The loop over the lines of [/proc/meminfo], lines 69-73: [None] when
    a line raises. *)
Fixpoint mem_scan (lns : list str) (mem_total mem_available : option Z)
    : option (option Z * option Z) :=
  match lns with
  | [] => Some (mem_total, mem_available)
  | line :: rest =>
      if startswith line (py "MemTotal:") then
        match second_int line with
        | Some v => mem_scan rest (Some v) mem_available
        | None => None
        end
      else if startswith line (py "MemAvailable:") then
        match second_int line with
        | Some v => mem_scan rest mem_total (Some v)
        | None => None
        end
      else mem_scan rest mem_total mem_available
  end.

Definition na3 : str * str * str := (na, na, na).

(** [used_pct] and its rendering [f"{used_pct:.0f}"]: [None] is the
    [OverflowError] of the division.  A quotient that is zero has the sign
    of the exact quotient, negative also for [0 / b] with a negative [b],
    and keeps it in the product. *)
Definition used_pct_str (used_kb mem_total : Z) : option str :=
  if (mem_total =? 0)%Z then Some (py "0")
  else
    match int_truediv used_kb mem_total with
    | None => None
    | Some q =>
        if Qeq_bool q 0 then
          Some (if xorb (used_kb <? 0)%Z (mem_total <? 0)%Z
                then py "-0" else py "0")
        else
          match fmul q 100 with
          | Some pct => Some (format_0f pct)
          | None => Some (if Qle_bool 0 q then py "inf" else py "-inf")
          end
    end.

(** [mem_str], lines 64-80, on the contents of [/proc/meminfo]. *)
Definition mem_str (meminfo : option str) : str * str * str :=
  match meminfo with
  | None => na3
  | Some text =>
      match mem_scan (file_iter [] (universal_newlines text)) None None with
      | Some (Some mem_total, Some mem_available) =>
          let used_kb := (mem_total - mem_available)%Z in
          match used_pct_str used_kb mem_total,
                int_truediv used_kb 1024, int_truediv mem_total 1024 with
          | Some pct, Some used, Some total =>
              (format_0f used ++ py " MiB", format_0f total ++ py " MiB",
               pct ++ py "%")
          | _, _, _ => na3
          end
      | _ => na3
      end
  end.

(** [disk_root_str], lines 83-92, on the result of [df -h /]. *)
Definition disk_root_str (df : cmd_result) : str * str :=
  let out := sh df in
  let lns := splitlines out in
  if length lns <? 2 then (na, na)
  else
    let parts := split_fields (nth 1 lns []) in
    if length parts <? 5 then (na, na)
    else
      let size := nth 1 parts [] in
      let used := nth 2 parts [] in
      let avail := nth 3 parts [] in
      let usep := nth 4 parts [] in
      (used ++ py "/" ++ size ++ py " (" ++ usep ++ py ")", avail).

(** [net_str], lines 118-125, on the results of the two commands. *)
Definition net_str (ip_cmd gw_cmd : cmd_result) : str :=
  let ip := sh ip_cmd in
  let gw := sh gw_cmd in
  let ip := if startswith ip (py "ERR") then na else ip in
  let gw := if startswith gw (py "ERR") then na else gw in
  py "IP " ++ ip ++ py ", GW " ++ gw.

(** [ups_line], lines 128-130 *)
Definition ups_line (x1200 : cmd_result) : str :=
  match sh x1200 with
  | [] => na
  | out => out
  end.

(** ** Reading [/proc/stat], lines 96-102 *)

(** [f.readline()] on a file just opened *)
Definition readline (contents : str) : str :=
  hd [] (file_iter [] (universal_newlines contents)).

(** [list(map(int, toks))]: [None] is the [ValueError] of a token. *)
Fixpoint map_int (toks : list str) : option (list Z) :=
  match toks with
  | [] => Some []
  | tok :: rest =>
      match py_int tok with
      | None => None
      | Some v => option_map (cons v) (map_int rest)
      end
  end.

(** [vals] of [read_stat]: the fields of the first line after its label. *)
Definition stat_counters (contents : str) : option (list Z) :=
  map_int (tl (split_fields (readline contents))).

(** [cpu_usage_str] on the contents of [/proc/stat] at the two reads
    ([None]: the file cannot be read as UTF-8 text). *)
Definition cpu_usage_text (stat1 stat2 : option str) : str :=
  cpu_usage_str
    match stat1 with Some c => stat_counters c | None => None end
    match stat2 with Some c => stat_counters c | None => None end.

(** ** [backups_summary_text], lines 274-305 *)

(** The loop of lines 277-281. *)
Definition total_backup_bytes (env : os_env) (backups : list backup) : Z :=
  fold_left
    (fun total b =>
       let path := path_join (backup_root b) (backup_name b) in
       if isdir env path then (total + dir_size_bytes (tree env path))%Z
       else total)
    backups 0%Z.

Definition summary_header (count : nat) (size : str) : list str :=
  [py "Backup kopijų skaičius: " ++ str_of_nat count;
   py "Bendras backup dydis: " ++ size;
   [];
   py "Naujausi backup:"].

(** [None] is the [OverflowError] of [human_size]. *)
Definition backups_summary_text (cfg : config) (env : os_env) : option str :=
  let backups := list_backups cfg env in
  let count := length backups in
  let total_bytes := total_backup_bytes env backups in
  match human_size total_bytes with
  | None => None
  | Some size =>
      let header := summary_header count size in
      Some (fenced
              match backups with
              | [] => header ++ [py "nėra"]
              | _ =>
                  bounded_lines max_len header
                    (map index_line (enumerate 1 backups)) index_trailer
              end)
  end.

(** ** Who may ask: [allowed_where], lines 406-414, and [on_message],
    lines 459-474 *)

Record bot_config := mkbot
  { ALLOW_DMS : bool;            (* DISCORD_STATS_ALLOW_DMS, stripped, is "1" *)
    ALLOWED_CHANNEL_ID : str     (* DISCORD_STATS_CHANNEL_ID, stripped *)
  }.

(** What the handlers read of an interaction: whether it has a guild, and
    its channel id, which may be [None]. *)
Record interaction := mkint { in_guild : bool; channel_id : option Z }.

(** [str(x)] for an [int] or [None] *)
Definition str_of_id (x : option Z) : option str :=
  match x with
  | Some z => str_of_int z
  | None => Some (py "None")
  end.

Definition allowed_where (bot : bot_config) (it : interaction) : bool :=
  if negb (in_guild it) then ALLOW_DMS bot
  else
    match ALLOWED_CHANNEL_ID bot with
    | [] => true
    | allowed =>
        match str_of_id (channel_id it) with
        | Some s => str_eqb s allowed
        | None => false
        end
    end.

Record message := mkmsg
  { author_bot : bool; content : str; msg_in_guild : bool; msg_channel : Z }.

(** The report that [on_message] sends to the channel. *)
Inductive report := StatsReport | SummaryReport.

(** [lower] stands for [str.lower]; [None]: nothing is sent, the handler
    returns or raises before. *)
Definition on_message (lower : str -> str) (bot : bot_config) (m : message)
    : option report :=
  if author_bot m then None
  else
    let text := lower (strip (content m)) in
    if str_eqb text (py "stats") || str_eqb text (py "list") then
      let refused :=
        if negb (msg_in_guild m) then negb (ALLOW_DMS bot)
        else
          match ALLOWED_CHANNEL_ID bot with
          | [] => false
          | allowed =>
              match str_of_int (msg_channel m) with
              | Some s => negb (str_eqb s allowed)
              | None => true
              end
          end in
      if refused then None
      else if str_eqb text (py "stats") then Some StatsReport
      else Some SummaryReport
    else None.
(* ================================================================== *)
(** * Part II: the notions of the specification *)
(* ================================================================== *)

(** The length that the budget counts for a list of lines. *)
Definition accounted (ls : list str) : nat :=
  list_sum (map (fun line => length line + 1) ls).

(** Best-effort packing in the given order: from a current length [cur],
    the candidates [cands] leave the lines [kept] and [h] dropped ones.  A
    candidate is kept exactly when it fits at its turn; the scan goes on
    after a candidate that does not fit. *)
Inductive packs (limit : nat) : nat -> list str -> list str -> nat -> Prop :=
| packs_done cur : packs limit cur [] [] 0
| packs_keep cur c cands kept h :
    cur + length c + 1 <= limit ->
    packs limit (cur + length c + 1) cands kept h ->
    packs limit cur (c :: cands) (c :: kept) h
| packs_drop cur c cands kept h :
    limit < cur + length c + 1 ->
    packs limit cur cands kept h ->
    packs limit cur (c :: cands) kept (S h).

(** The trailer line, present only when something was dropped. *)
Definition trailer_lines (trailer : nat -> str) (h : nat) : list str :=
  match h with
  | 0 => []
  | S _ => [trailer h]
  end.

(** Newest first: the timestamp of [b] is not later than that of [a]. *)
Definition not_older (a b : backup) : Prop :=
  dt_leb (backup_ts b) (backup_ts a) = true.

(** The format [YYYY-MM-DD_HH-MM] taken to the letter: sixteen characters,
    ASCII digits around the separators. *)
Definition exact_format (name : str) : bool :=
  match name with
  | [y1; y2; y3; y4; s1; m1; m2; s2; d1; d2; s3; h1; h2; s4; n1; n2] =>
      forallb is_ascii_digit [y1; y2; y3; y4; m1; m2; d1; d2; h1; h2; n1; n2]
      && (s1 =? dash)%N && (s2 =? dash)%N && (s3 =? underscore)%N
      && (s4 =? dash)%N
  | _ => false
  end.

(** A [datetime] that exists, with four digits in its year. *)
Definition dt_valid (ts : datetime) : bool :=
  (date_valid (year ts) (month ts) (day ts)
   && (0 <=? hour ts) && (hour ts <=? 23)
   && (0 <=? minute ts) && (minute ts <=? 59))%Z.

(** The text that a pattern consumed, group by group. *)
Inductive matched : list item -> list str -> str -> Prop :=
| matched_nil : matched [] [] []
| matched_lit c items gs t :
    matched items gs t -> matched (RLit c :: items) gs (c :: t)
| matched_alt alts alt items g gs t :
    In alt alts -> Forall2 (fun (p : cls) c => p c = true) alt g ->
    matched items gs t -> matched (RAlt alts :: items) (g :: gs) (g ++ t).

(** A decision procedure for [NoDup] on strings. *)
Fixpoint nodupb (l : list str) : bool :=
  match l with
  | [] => true
  | x :: l' => negb (mem x l') && nodupb l'
  end.

(** A root whose only directory has a name without zero padding. *)
Definition env_unpadded : os_env :=
  mkenv (fun p => p) (fun _ => true)
        (fun _ => [mkent (py "2024-1-2_9-5") (Some true)])
        (fun _ => Dir (Some [])).

Definition backup_scenario : backup :=
  (mkdt 2024 1 2 9 30, py "2024-01-02_09-30", py "/backups").

(** The names of every directory of the tree are different, as they are
    in a file system. *)
Fixpoint unique_names (t : node) : bool :=
  match t with
  | Dir (Some es) =>
      nodupb (map fst es) && forallb (fun e => unique_names (snd e)) es
  | _ => true
  end.

(** The sum of [f] over what is in a tree that is neither a directory nor
    a link to one; directories that cannot be listed count for nothing. *)
Fixpoint tree_sum (f : node -> Z) (t : node) : Z :=
  match t with
  | Dir (Some es) => fold_right Z.add 0%Z (map (fun e => tree_sum f (snd e)) es)
  | Dir None | LinkDir => 0%Z
  | _ => f t
  end.

Definition dir_sum (f : node -> Z) (t : node) : Z :=
  match t with
  | Dir _ => tree_sum f t
  | _ => 0%Z
  end.

(** The size of a regular file, 0 when it cannot be read; 0 for links. *)
Definition regular_size (n : node) : Z :=
  match n with
  | File (Some s) => s
  | _ => 0%Z
  end.

(** The size of the target of a link to a file, 0 when it cannot be read. *)
Definition link_target_size (n : node) : Z :=
  match n with
  | LinkFile (Some s) => s
  | _ => 0%Z
  end.

Definition zsum (l : list Z) : Z := fold_right Z.add 0%Z l.

(** The identifier that one line of a cgroup file gives, if any. *)
Definition line_id (line : str) : option str :=
  match split_char colon 2 line with
  | [_; _; path] => scan_markers path markers
  | _ => None
  end.

(** [cid] is what follows a marker in the third field of [line], up to
    the next ['/'] or ['.'] or to the end of the line. *)
Definition id_in_line (line cid : str) : Prop :=
  exists a b before marker rest,
    line = a ++ colon :: b ++ colon :: before ++ marker ++ cid ++ rest /\
    ~ In colon a /\ ~ In colon b /\
    In marker markers /\
    ~ In slash cid /\ ~ In dot cid /\
    (rest = [] \/ exists c r, rest = c :: r /\ (c = slash \/ c = dot)).

(** A name without one leading ['/'], as the specification words it. *)
Definition strip_one_slash (name : str) : str :=
  match name with
  | c :: rest => if (c =? slash)%N then rest else name
  | [] => []
  end.

(** The number of whitespace-separated fields of a line. *)
Fixpoint count_fields (in_word : bool) (s : str) : nat :=
  match s with
  | [] => 0
  | c :: s' =>
      if isspace c then count_fields false s'
      else (if in_word then 0 else 1) + count_fields true s'
  end.

Definition num_fields (s : str) : nat := count_fields false s.

(** The rows that survive: those with at least four fields. *)
Definition surviving (lns : list str) : list str :=
  filter (fun ln => 4 <=? num_fields ln) lns.

(** The row of the four fields of a line: the numbers right-aligned in five
    columns, the command, and behind the command [apache2] the name of its
    container when [container] knows one that is not empty. *)
Definition row_of (container : str -> option str) (pid pcpu pmem comm : str)
    : str :=
  rjust 5 pid ++ py "  " ++ rjust 5 pcpu ++ py "%  " ++ rjust 5 pmem
    ++ py "%  " ++ comm
    ++ (if str_eqb comm (py "apache2") then
          match container pid with
          | Some name =>
              if 0 <? length name then py " (docker: " ++ name ++ py ")"
              else []
          | None => []
          end
        else []).

(** ** Auxiliary notions of the proofs *)

(** The parts of an accepted name. *)
Record parts := mkparts { gY : str; gm : str; gd : str; gH : str; gM : str }.

Definition assemble (p : parts) : str :=
  gY p ++ dash :: gm p ++ dash :: gd p ++ underscore :: gH p ++ dash :: gM p.

Definition group_of (it : item) (g : str) : Prop :=
  match it with
  | RAlt alts =>
      exists alt, In alt alts /\ Forall2 (fun (p : cls) c => p c = true) alt g
  | RLit _ => False
  end.

Definition ascii_digit_list : list char := [48; 49; 50; 51; 52; 53; 54; 55; 56; 57]%N.

Definition digits_value (s : str) : Z :=
  fold_left (fun acc c => (acc * 10 + digit_value c)%Z) s 0%Z.

(** All strings of two and of four ASCII digits. *)
Definition ascii2 : list str :=
  flat_map (fun a => map (fun b => [a; b]) ascii_digit_list) ascii_digit_list.

Definition ascii4 : list str :=
  flat_map (fun ab => map (fun cd => ab ++ cd) ascii2) ascii2.

(** The integers from 0 to [n - 1]. *)
Definition below (n : Z) : list Z := map Z.of_nat (seq 0 (Z.to_nat n)).

(** The invariant of the loop over the roots. *)
Record scan_inv (env : os_env) (st : scan_state) : Prop :=
  { inv_scanned_nodup : NoDup (scanned st);
    inv_scanned_seen : forall d, In d (scanned st) -> In d (seen_dirs st);
    inv_roots : forall b, In b (backups_of st) -> In (backup_root b) (scanned st);
    inv_parse : forall b, In b (backups_of st) ->
                parse_backup_ts (backup_name b) = Some (backup_ts b) /\
                exists e, In e (scandir env (backup_root b)) /\
                          d_name e = backup_name b /\ d_is_dir e = Some true }.

(** No separator of the name format occurs in [g]. *)
Definition no_sep (g : str) : Prop := ~ In dash g /\ ~ In underscore g.

Definition parts_no_sep (p : parts) : Prop :=
  no_sep (gY p) /\ no_sep (gm p) /\ no_sep (gd p) /\ no_sep (gH p).

Definition ascii_digits (g : str) : bool := forallb is_ascii_digit g.

(** The first alternative that matches at the start of [g] matches all of
    [g], and the alternatives before it fail within [g]. *)
Fixpoint first_exact (alts : list (list cls)) (g : str) : bool :=
  match alts with
  | [] => false
  | a :: alts' =>
      match match_alt a g with
      | Some (_, []) => true
      | Some (_, _ :: _) => false
      | None => (length a <=? length g) && first_exact alts' g
      end
  end.

Definition alts_of (it : item) : list (list cls) :=
  match it with
  | RAlt alts => alts
  | RLit _ => []
  end.

(** The text of a field is matched as a whole and read back as its value. *)
Definition field_ok (it : item) (text : Z -> str) (lo v : Z) : bool :=
  (v <? lo)%Z
  || (first_exact (alts_of it) (text v) && (int_of_str (text v) =? v)%Z).

(** What [os.walk] reports as files, with their paths from the top. *)
Fixpoint all_files (p : path) (c : node) : list (path * node) :=
  match c with
  | Dir (Some es) =>
      map (fun e => (p ++ [fst e], snd e))
          (filter (fun e => negb (is_dir_entry (snd e))) es)
      ++ flat_map
           (fun e =>
              match snd e with
              | Dir _ => all_files (p ++ [fst e]) (snd e)
              | _ => []
              end)
           es
  | _ => []
  end.

Definition walk_files (w : list (path * list str * list str)) : list path :=
  flat_map (fun '(root, _dirs, files) => map (fun name => root ++ [name]) files) w.

(** What the loop of [dir_size_bytes] adds for one file. *)
Definition counted (t : node) (file_path : path) : Z :=
  if islink t file_path then 0%Z
  else match getsize t file_path with Some n => n | None => 0%Z end.

(** What [backup_files_text] lists for one file. *)
Definition listed (t : node) (full_path : path) : Z :=
  match getsize t full_path with Some n => n | None => 0%Z end.

Definition listed_size (n : node) : Z :=
  match n with
  | File (Some s) | LinkFile (Some s) => s
  | _ => 0%Z
  end.

(** Induction on a tree, with the property for every entry of a directory. *)
Section NodeInduction.
Variable P : node -> Prop.
Hypothesis HFile : forall st, P (File st).
Hypothesis HLinkFile : forall st, P (LinkFile st).
Hypothesis HLinkDir : P LinkDir.
Hypothesis HDirNone : P (Dir None).
Hypothesis HDir :
  forall es, Forall (fun e => P (snd e)) es -> P (Dir (Some es)).

Fixpoint node_induction (t : node) : P t :=
  match t with
  | File st => HFile st
  | LinkFile st => HLinkFile st
  | LinkDir => HLinkDir
  | Dir None => HDirNone
  | Dir (Some es) =>
      HDir es
        ((fix all (es : list (str * node)) : Forall (fun e => P (snd e)) es :=
            match es with
            | [] => Forall_nil _
            | e :: es' => Forall_cons e (node_induction (snd e)) (all es')
            end) es)
  end.
End NodeInduction.

(** ** Notions of the further properties *)

(** The same moment: neither timestamp is before the other. *)
Definition dt_eqb (a b : datetime) : bool := dt_leb a b && dt_leb b a.

(** The entries that a scan reads: up to the first one whose [is_dir]
    raises, that one included. *)
Fixpoint until_failure (entries : list dirent) : list dirent :=
  match entries with
  | [] => []
  | e :: rest =>
      match d_is_dir e with
      | None => [e]
      | Some _ => e :: until_failure rest
      end
  end.

(** The backups among the entries that a scan of [base_dir] reads: the
    directories with an accepted name, in the order of the listing. *)
Definition found_in (base_dir : str) (entries : list dirent) : list backup :=
  flat_map
    (fun e =>
       match d_is_dir e, parse_backup_ts (d_name e) with
       | Some true, Some ts => [(ts, d_name e, base_dir)]
       | _, _ => []
       end)
    (until_failure entries).

(** What [human_size] prints when no float operation rounds: the exact
    quotient by the power of 1024 of the unit. *)
Definition human_size_exact (n : Z) : str :=
  if (n <? 1024)%Z then str_of_Z n ++ py " B"
  else if (n <? 1024 ^ 2)%Z
  then format_2f (inject_Z n / inject_Z 1024) ++ py " KiB"
  else if (n <? 1024 ^ 3)%Z
  then format_2f (inject_Z n / inject_Z (1024 ^ 2)) ++ py " MiB"
  else if (n <? 1024 ^ 4)%Z
  then format_2f (inject_Z n / inject_Z (1024 ^ 3)) ++ py " GiB"
  else format_2f (inject_Z n / inject_Z (1024 ^ 4)) ++ py " TiB".

(** A word: not empty, no white space in it. *)
Definition word (w : str) : Prop :=
  w <> [] /\ Forall (fun c => isspace c = false) w.

(** ** Concrete inputs *)

(** A root with [n] backups, one per minute from 2024-01-01 00:00. *)
Definition minute_name (k : nat) : str :=
  strftime name_format
    (mkdt 2024 1 1 (Z.of_nat k / 60) (Z.of_nat k mod 60)).

Definition env_minutes (n : nat) : os_env :=
  mkenv (fun p => p) (fun _ => true)
        (fun _ => map (fun k => mkent (minute_name k) (Some true)) (seq 0 n))
        (fun _ => Dir (Some [])).

Definition cfg_backups : config := mkcfg (py "/backups") (py "/backups").

(** The scenario of the specification: a root with two backups and a
    directory [notes], reached through two spellings of its path. *)
Definition env_scenario : os_env :=
  mkenv (fun _ => py "/backups") (fun _ => true)
        (fun _ => [mkent (py "2024-01-01_10-00") (Some true);
                   mkent (py "2024-01-02_09-30") (Some true);
                   mkent (py "notes") (Some true)])
        (fun _ => Dir (Some [(py "b.txt", File (Some 5%Z));
                             (py "a", Dir (Some [(py "x.txt", File (Some 10%Z))]))])).

Definition cfg_twice : config := mkcfg (py "/backups") (py "/backups/").

(** A backup with a file, a directory, and a symbolic link to a large file. *)
Definition tree_with_link : node :=
  Dir (Some [(py "b.txt", File (Some 5%Z));
             (py "a", Dir (Some [(py "x.txt", File (Some 10%Z));
                                 (py "big", LinkFile (Some 1000000%Z))]));
             (py "gone", File None)]).

(** A process in a container whose name is reported with two slashes. *)
Definition os_two_slashes : proc_env :=
  mkproc (fun _ => Some (py "12:memory:/docker/0123456789abcdef0123.scope"))
         (fun _ => Output (py "//web"))
         (fun _ => Output []).

(** A listing with a header, a full row, a short row and a row whose
    command has a blank. *)
Definition os_listing : proc_env :=
  mkproc (fun _ => None)
         (fun _ => Raised (py "no docker"))
         (fun _ => Output (py "  PID %CPU %MEM COMMAND" ++ [nl]
                           ++ py "    1  0.5  1.0 systemd" ++ [nl]
                           ++ py "bad row" ++ [nl]
                           ++ py "   22  3.0  4.5 my prog" ++ [nl])).

(** A listing with an [apache2] process in the container [web]. *)
Definition os_apache : proc_env :=
  mkproc (fun _ => Some (py "12:memory:/docker/0123456789abcdef0123.scope"))
         (fun _ => Output (py "/web"))
         (fun _ => Output (py "  PID %CPU %MEM COMMAND" ++ [nl]
                           ++ py "  310  1.5  2.0 apache2" ++ [nl]
                           ++ py "  311  0.1  0.2 nginx" ++ [nl])).

(** Roots without any backup. *)
Definition env_no_backups : os_env :=
  mkenv (fun p => p) (fun _ => true) (fun _ => []) (fun _ => Dir (Some [])).

(** ** Further concrete inputs *)

(** A root in which the second entry cannot be examined, and the same root
    without the entry behind it. *)
Definition env_failing_entry : os_env :=
  mkenv (fun p => p) (fun _ => true)
        (fun _ => [mkent (py "2024-01-01_10-00") (Some true);
                   mkent (py "broken") None;
                   mkent (py "2024-01-02_09-30") (Some true)])
        (fun _ => Dir (Some [])).

Definition env_failing_entry_last : os_env :=
  mkenv (fun p => p) (fun _ => true)
        (fun _ => [mkent (py "2024-01-01_10-00") (Some true);
                   mkent (py "broken") None])
        (fun _ => Dir (Some [])).

(** The contents of [/proc/meminfo], and those of a kernel that does not
    report [MemAvailable]. *)
Definition meminfo_sample : str :=
  py "MemTotal:        8000000 kB" ++ [nl]
  ++ py "MemFree:          100000 kB" ++ [nl]
  ++ py "MemAvailable:    6000000 kB" ++ [nl].

Definition meminfo_old_kernel : str :=
  py "MemTotal:        8000000 kB" ++ [nl]
  ++ py "MemFree:          100000 kB" ++ [nl].

(** The contents of [/proc/stat] at two reads, and contents whose first
    line has three counters. *)
Definition stat_sample : str :=
  py "cpu  10 0 5 80 5" ++ [nl] ++ py "cpu0 10 0 5 80 5" ++ [nl].

Definition stat_later : str :=
  py "cpu  60 0 5 120 15" ++ [nl] ++ py "cpu0 60 0 5 120 15" ++ [nl].

Definition stat_short : str := py "cpu  10 0 5" ++ [nl].

(* ================================================================== *)
(** * Part III: properties *)
(* ================================================================== *)

(** ** The bounded report *)

Lemma accounted_app a b : accounted (a ++ b) = accounted a + accounted b.
Proof.
  unfold accounted. now rewrite map_app, list_sum_app.
Qed.

Lemma length_join_nl ls : length (body ls) = accounted ls - 1.
Proof.
  unfold body, accounted.
  induction ls as [|x [|y rest] IH]; simpl in *.
  - reflexivity.
  - lia.
  - rewrite length_app. simpl. rewrite IH. lia.
Qed.

Lemma packs_length limit cur cands kept h :
  packs limit cur cands kept h -> length kept + h = length cands.
Proof.
  induction 1; simpl; lia.
Qed.

Lemma packs_accounted limit cur cands kept h :
  packs limit cur cands kept h -> cur <= limit -> cur + accounted kept <= limit.
Proof.
  induction 1; intros Hcur; unfold accounted in *; simpl in *; lia.
Qed.

Lemma packs_functional limit cur cands kept h kept' h' :
  packs limit cur cands kept h -> packs limit cur cands kept' h' ->
  kept = kept' /\ h = h'.
Proof.
  intros H; revert kept' h'.
  induction H as [cur|cur c cands kept h Hfit _ IH|cur c cands kept h Hfit _ IH];
    intros kept' h' H'; inversion H' as [|? ? ? ? ? ? Hp|? ? ? ? ? ? Hp];
    subst; try lia.
  - auto.
  - destruct (IH _ _ Hp) as [-> ->]. auto.
  - destruct (IH _ _ Hp) as [-> ->]. auto.
Qed.

(** The loop of the program computes the packing. *)
Lemma fold_add_line_packs limit cands : forall b,
  exists kept h,
    packs limit (current_len b) cands kept h /\
    fold_left (add_line limit) cands b
    = mkbudget (lines b ++ kept) (hidden b + h)
               (current_len b + accounted kept).
Proof.
  induction cands as [|c cands IH]; intros b.
  - exists [], 0. split; [constructor|].
    destruct b; simpl. rewrite app_nil_r. f_equal; unfold accounted; simpl; lia.
  - simpl. unfold add_line at 2.
    destruct (limit <? current_len b + (length c + 1)) eqn:E.
    + apply Nat.ltb_lt in E.
      destruct (IH (mkbudget (lines b) (S (hidden b)) (current_len b)))
        as (kept & h & Hp & Hf).
      exists kept, (S h). split.
      * apply packs_drop; [lia|exact Hp].
      * rewrite Hf. simpl. f_equal. lia.
    + apply Nat.ltb_ge in E.
      destruct (IH (mkbudget (lines b ++ [c]) (hidden b)
                             (current_len b + (length c + 1))))
        as (kept & h & Hp & Hf).
      exists (c :: kept), h. split.
      * apply packs_keep; [lia|].
        simpl in Hp. now replace (current_len b + length c + 1)
          with (current_len b + (length c + 1)) by lia.
      * rewrite Hf. simpl. rewrite <- app_assoc. simpl. f_equal.
        unfold accounted. simpl. fold (accounted kept). lia.
Qed.

Lemma bounded_lines_shape limit header cands trailer :
  exists kept h,
    packs limit (accounted header) cands kept h /\
    bounded_lines limit header cands trailer
    = header ++ kept ++ trailer_lines trailer h.
Proof.
  unfold bounded_lines.
  destruct (fold_add_line_packs limit cands (start header))
    as (kept & h & Hp & Hf).
  exists kept, h. split; [exact Hp|].
  rewrite Hf. unfold finish. simpl.
  destruct h; simpl.
  - now rewrite app_nil_r.
  - now rewrite app_assoc.
Qed.

Lemma current_len_start header : current_len (start header) = accounted header.
Proof. reflexivity. Qed.

(** C2: the candidates are taken in their order; the candidate [c] that
    comes after the candidates [pre] is appended exactly when the length
    reached after [pre] plus [len c + 1] is within the limit, whatever
    was dropped before it, and the scan goes on with [post] in both cases;
    the result is the packing of the specification behind the header lines,
    which are kept whatever their length. *)
Theorem bounded_lines_best_effort limit header pre c post trailer :
  let at_turn := fold_left (add_line limit) pre (start header) in
  (exists kept h,
      packs limit (accounted header) (pre ++ c :: post) kept h /\
      bounded_lines limit header (pre ++ c :: post) trailer
      = header ++ kept ++ trailer_lines trailer h)
  /\
  (exists kept_pre kept_post h,
      lines at_turn = header ++ kept_pre /\
      hidden (fold_left (add_line limit) (pre ++ [c]) (start header))
      = hidden at_turn
        + (if current_len at_turn + length c + 1 <=? limit then 0 else 1) /\
      bounded_lines limit header (pre ++ c :: post) trailer
      = header ++ kept_pre
          ++ (if current_len at_turn + length c + 1 <=? limit then [c] else [])
          ++ kept_post ++ trailer_lines trailer h).
Proof.
  intros at_turn. split; [apply bounded_lines_shape|].
  destruct (fold_add_line_packs limit pre (start header))
    as (kp & h1 & _ & Hpre).
  fold at_turn in Hpre. simpl in Hpre.
  destruct (fold_add_line_packs limit post (add_line limit at_turn c))
    as (kq & h2 & _ & Hpost).
  exists kp, kq, (hidden (add_line limit at_turn c) + h2).
  split; [now rewrite Hpre|].
  split.
  - rewrite fold_left_app. fold at_turn. simpl. unfold add_line.
    destruct (limit <? current_len at_turn + (length c + 1)) eqn:E.
    + apply Nat.ltb_lt in E.
      replace (current_len at_turn + length c + 1 <=? limit) with false
        by (symmetry; apply Nat.leb_gt; lia).
      simpl. lia.
    + apply Nat.ltb_ge in E.
      replace (current_len at_turn + length c + 1 <=? limit) with true
        by (symmetry; apply Nat.leb_le; lia).
      simpl. lia.
  - unfold bounded_lines. rewrite fold_left_app. fold at_turn. simpl.
    rewrite Hpost. unfold finish. simpl.
    assert (Hl : lines (add_line limit at_turn c)
                 = header ++ kp ++
                   (if current_len at_turn + length c + 1 <=? limit
                    then [c] else [])).
    { unfold add_line.
      destruct (limit <? current_len at_turn + (length c + 1)) eqn:E.
      - apply Nat.ltb_lt in E.
        replace (current_len at_turn + length c + 1 <=? limit) with false
          by (symmetry; apply Nat.leb_gt; lia).
        simpl. rewrite Hpre. simpl. now rewrite app_nil_r.
      - apply Nat.ltb_ge in E.
        replace (current_len at_turn + length c + 1 <=? limit) with true
          by (symmetry; apply Nat.leb_le; lia).
        simpl. rewrite Hpre. simpl. now rewrite <- app_assoc. }
    rewrite Hl.
    destruct (hidden (add_line limit at_turn c) + h2); simpl;
      repeat rewrite <- app_assoc; simpl; try rewrite app_nil_r; reflexivity.
Qed.

(** A later, shorter candidate is kept after a longer one was dropped. *)
Example shorter_candidate_still_fits :
  bounded_lines 10 [py "ab"] [py "cd"; py "efghijklm"; py "x"] files_trailer
  = [py "ab"; py "cd"; py "x"; files_trailer 1].
Proof. reflexivity. Qed.

(** C1, as the program has it: when the header lines are within the limit,
    the lines kept from the candidates are their packing, the body without
    the trailer line has at most [limit - 1] characters, and the whole body
    exceeds that by no more than the trailer line and its separator: the
    trailer line is appended outside the budget.  There is one trailer
    line when a candidate was dropped and none otherwise, and its number is
    the number of dropped candidates. *)
Theorem bounded_lines_body_length limit header cands trailer :
  accounted header <= limit ->
  exists kept h,
    packs limit (accounted header) cands kept h /\
    length kept + h = length cands /\
    bounded_lines limit header cands trailer
    = header ++ kept ++ trailer_lines trailer h /\
    length (body (header ++ kept)) <= limit - 1 /\
    length (body (bounded_lines limit header cands trailer))
    <= limit - 1 + accounted (trailer_lines trailer h).
Proof.
  intros Hh.
  destruct (bounded_lines_shape limit header cands trailer)
    as (kept & h & Hp & Heq).
  exists kept, h.
  pose proof (packs_length _ _ _ _ _ Hp) as Hlen.
  pose proof (packs_accounted _ _ _ _ _ Hp Hh) as Hacc.
  repeat split; auto.
  - rewrite length_join_nl, accounted_app. lia.
  - rewrite Heq, length_join_nl, !accounted_app. lia.
Qed.

Lemma bounded_lines_body_length_witness :
  accounted [py "ab"] <= 10 /\
  exists kept h,
    packs 10 (accounted [py "ab"]) [py "cd"; py "efghijklm"; py "x"] kept h /\
    length kept + h = 3 /\
    bounded_lines 10 [py "ab"] [py "cd"; py "efghijklm"; py "x"] files_trailer
    = [py "ab"] ++ kept ++ trailer_lines files_trailer h /\
    length (body ([py "ab"] ++ kept)) <= 10 - 1 /\
    length (body (bounded_lines 10 [py "ab"]
                    [py "cd"; py "efghijklm"; py "x"] files_trailer))
    <= 10 - 1 + accounted (trailer_lines files_trailer h).
Proof.
  split.
  - vm_compute. lia.
  - apply (bounded_lines_body_length 10 [py "ab"]
             [py "cd"; py "efghijklm"; py "x"] files_trailer).
    vm_compute. lia.
Defined.

(** With 81 backups the index report keeps 80 of them and its body has
    1820 characters: the limit of 1800 is exceeded by the trailer line,
    not by one newline. *)
Lemma index_report_exceeds_limit :
  exists ls,
    backups_index_text cfg_backups (env_minutes 81) = fenced ls /\
    last ls [] = index_trailer 1 /\
    length (body ls) = 1820 /\
    ~ length (body ls) <= max_len + 1.
Proof.
  exists (bounded_lines max_len [py "Backup sąrašas (naujausi viršuje):"]
            (map index_line
               (enumerate 1 (list_backups cfg_backups (env_minutes 81))))
            index_trailer).
  split; [vm_compute; reflexivity|].
  split; [vm_compute; reflexivity|].
  assert (E : length (body (bounded_lines max_len
                 [py "Backup sąrašas (naujausi viršuje):"]
                 (map index_line
                    (enumerate 1 (list_backups cfg_backups (env_minutes 81))))
                 index_trailer)) = 1820) by (vm_compute; reflexivity).
  split; [exact E|]. rewrite E. unfold max_len. lia.
Qed.

(** ** Sorting *)

Section SortFacts.
Context {A K : Type} (key : A -> K) (leb : K -> K -> bool).
Hypothesis leb_total : forall a b, leb a b = false -> leb b a = true.
Hypothesis leb_trans :
  forall a b c, leb a b = true -> leb b c = true -> leb a c = true.

Let ge (x y : A) : Prop := leb (key y) (key x) = true.
Let le (x y : A) : Prop := leb (key x) (key y) = true.

Lemma insert_desc_perm x l : Permutation (x :: l) (insert_desc key leb x l).
Proof.
  induction l as [|y l IH]; simpl; auto.
  destruct (leb (key y) (key x)); auto.
  rewrite perm_swap. now constructor.
Qed.

Lemma sort_desc_perm l : Permutation l (sort_desc key leb l).
Proof.
  induction l as [|x l IH]; simpl; auto.
  rewrite <- insert_desc_perm. now constructor.
Qed.

Lemma insert_desc_sorted x l :
  Sorted ge l -> Sorted ge (insert_desc key leb x l).
Proof.
  induction 1 as [|y l Hs IH Hhd]; simpl.
  - repeat constructor.
  - destruct (leb (key y) (key x)) eqn:E.
    + constructor; [now constructor|]. constructor. exact E.
    + constructor; [exact IH|].
      destruct l as [|z l]; simpl.
      * constructor. unfold ge. now apply leb_total.
      * destruct (leb (key z) (key x)).
        -- constructor. unfold ge. now apply leb_total.
        -- constructor. now inversion Hhd.
Qed.

Lemma sort_desc_sorted l : StronglySorted ge (sort_desc key leb l).
Proof.
  apply Sorted_StronglySorted.
  - intros x y z Hxy Hyz. unfold ge in *. eapply leb_trans; eauto.
  - induction l; simpl; [constructor|now apply insert_desc_sorted].
Qed.

Lemma insert_asc_perm x l : Permutation (x :: l) (insert_asc key leb x l).
Proof.
  induction l as [|y l IH]; simpl; auto.
  destruct (leb (key x) (key y)); auto.
  rewrite perm_swap. now constructor.
Qed.

Lemma sort_asc_perm l : Permutation l (sort_asc key leb l).
Proof.
  induction l as [|x l IH]; simpl; auto.
  rewrite <- insert_asc_perm. now constructor.
Qed.

Lemma insert_asc_sorted x l :
  Sorted le l -> Sorted le (insert_asc key leb x l).
Proof.
  induction 1 as [|y l Hs IH Hhd]; simpl.
  - repeat constructor.
  - destruct (leb (key x) (key y)) eqn:E.
    + constructor; [now constructor|]. constructor. exact E.
    + constructor; [exact IH|].
      destruct l as [|z l]; simpl.
      * constructor. unfold le. now apply leb_total.
      * destruct (leb (key x) (key z)).
        -- constructor. unfold le. now apply leb_total.
        -- constructor. now inversion Hhd.
Qed.

Lemma sort_asc_sorted l : StronglySorted le (sort_asc key leb l).
Proof.
  apply Sorted_StronglySorted.
  - intros x y z Hxy Hyz. unfold le in *. eapply leb_trans; eauto.
  - induction l; simpl; [constructor|now apply insert_asc_sorted].
Qed.
End SortFacts.

Lemma lex_leb_total a : forall b, lex_leb a b = false -> lex_leb b a = true.
Proof.
  induction a as [|x a IH]; intros [|y b]; simpl; try congruence.
  intros H. apply orb_false_iff in H as [H1 H2].
  apply Z.ltb_ge in H1.
  destruct (Z.eqb_spec x y) as [->|Hne].
  - simpl in H2. rewrite (IH _ H2), Z.eqb_refl. now rewrite orb_true_r.
  - replace (y <? x)%Z with true; [reflexivity|].
    symmetry. apply Z.ltb_lt. lia.
Qed.

Lemma lex_leb_trans a : forall b c,
  lex_leb a b = true -> lex_leb b c = true -> lex_leb a c = true.
Proof.
  induction a as [|x a IH]; intros [|y b] [|z c]; simpl; try congruence.
  intros H1 H2.
  apply orb_true_iff in H1. apply orb_true_iff in H2. apply orb_true_iff.
  destruct H1 as [H1|H1]; destruct H2 as [H2|H2];
    rewrite ?andb_true_iff, ?Z.ltb_lt, ?Z.eqb_eq in *.
  - left. lia.
  - left. lia.
  - left. lia.
  - right. destruct H1 as [-> H1], H2 as [-> H2]. split; [reflexivity|].
    eapply IH; eauto.
Qed.

Lemma dt_leb_total a b : dt_leb a b = false -> dt_leb b a = true.
Proof. apply lex_leb_total. Qed.

Lemma dt_leb_trans a b c :
  dt_leb a b = true -> dt_leb b c = true -> dt_leb a c = true.
Proof. apply lex_leb_trans. Qed.

Lemma str_leb_total a : forall b, str_leb a b = false -> str_leb b a = true.
Proof.
  induction a as [|x a IH]; intros [|y b]; simpl; try congruence.
  intros H. apply orb_false_iff in H as [H1 H2].
  apply N.ltb_ge in H1.
  destruct (N.eqb_spec x y) as [->|Hne].
  - simpl in H2. rewrite (IH _ H2), N.eqb_refl. now rewrite orb_true_r.
  - replace (y <? x)%N with true; [reflexivity|].
    symmetry. apply N.ltb_lt. lia.
Qed.

Lemma str_leb_trans a : forall b c,
  str_leb a b = true -> str_leb b c = true -> str_leb a c = true.
Proof.
  induction a as [|x a IH]; intros [|y b] [|z c]; simpl; try congruence.
  intros H1 H2.
  apply orb_true_iff in H1. apply orb_true_iff in H2. apply orb_true_iff.
  destruct H1 as [H1|H1]; destruct H2 as [H2|H2];
    rewrite ?andb_true_iff, ?N.ltb_lt, ?N.eqb_eq in *.
  - left. lia.
  - left. lia.
  - left. lia.
  - right. destruct H1 as [-> H1], H2 as [-> H2]. split; [reflexivity|].
    eapply IH; eauto.
Qed.

(** ** The inventory *)

Lemma str_eqb_eq a b : str_eqb a b = true <-> a = b.
Proof.
  unfold str_eqb. destruct (list_eq_dec N.eq_dec a b); split; congruence.
Qed.

Lemma str_eqb_refl a : str_eqb a a = true.
Proof. now apply str_eqb_eq. Qed.

Lemma mem_In x s : mem x s = true <-> In x s.
Proof.
  unfold mem. rewrite existsb_exists. split.
  - intros (y & Hy & E). apply str_eqb_eq in E. now subst.
  - intros H. exists x. split; [exact H|apply str_eqb_refl].
Qed.

Lemma scan_entries_acc base_dir entries : forall acc,
  scan_entries base_dir entries acc
  = acc ++ scan_entries base_dir entries [].
Proof.
  induction entries as [|e es IH]; intros acc; simpl.
  - now rewrite app_nil_r.
  - destruct (d_is_dir e) as [[|]|]; auto using app_nil_r.
    destruct (parse_backup_ts (d_name e)); auto.
    rewrite IH, (IH [_]). now rewrite <- app_assoc.
Qed.

(** What one root contributes: directories whose name parses, in the
    order of the scan. *)
Lemma scan_entries_In base_dir entries b :
  In b (scan_entries base_dir entries []) ->
  backup_root b = base_dir /\
  parse_backup_ts (backup_name b) = Some (backup_ts b) /\
  exists e, In e entries /\ d_name e = backup_name b /\ d_is_dir e = Some true.
Proof.
  induction entries as [|e es IH]; simpl; [tauto|].
  destruct (d_is_dir e) as [[|]|] eqn:Ed; simpl; try tauto.
  - destruct (parse_backup_ts (d_name e)) as [ts|] eqn:Ep.
    + rewrite scan_entries_acc. simpl. intros [<-|H].
      * simpl. repeat split; auto. exists e. auto.
      * destruct (IH H) as (H1 & H2 & e' & H3 & H4). repeat split; auto.
        exists e'. tauto.
    + intros H. destruct (IH H) as (H1 & H2 & e' & H3 & H4).
      repeat split; auto. exists e'. tauto.
  - intros H. destruct (IH H) as (H1 & H2 & e' & H3 & H4).
    repeat split; auto. exists e'. tauto.
Qed.

Lemma scan_entries_NoDup base_dir entries :
  NoDup (map d_name entries) -> NoDup (scan_entries base_dir entries []).
Proof.
  induction entries as [|e es IH]; simpl; intros Hnd; [constructor|].
  inversion Hnd as [|? ? Hnotin Hnd']; subst.
  destruct (d_is_dir e) as [[|]|]; auto; [|constructor].
  destruct (parse_backup_ts (d_name e)) as [ts|]; auto.
  rewrite scan_entries_acc. simpl. constructor; auto.
  intros Hin. apply scan_entries_In in Hin as (_ & _ & e' & He' & Hn & _).
  unfold backup_name in Hn. simpl in Hn. apply Hnotin. rewrite <- Hn.
  now apply in_map.
Qed.

Lemma scan_root_inv env st base_dir :
  scan_inv env st -> scan_inv env (scan_root env st base_dir).
Proof.
  intros [H1 H2 H3 H4]. unfold scan_root.
  destruct base_dir as [|c base_dir]; [now constructor|].
  set (d := abspath env (c :: base_dir)).
  destruct (mem d (seen_dirs st)) eqn:Em; [now constructor|].
  assert (Hnotin : ~ In d (seen_dirs st)).
  { intros H. apply mem_In in H. congruence. }
  destruct (isdir env d); simpl.
  - rewrite scan_entries_acc. constructor; simpl.
    + apply NoDup_app; [auto|repeat constructor; auto|].
      intros x Hx [<-|[]]. auto.
    + intros x Hx. apply in_app_or in Hx as [Hx|[<-|[]]]; auto.
    + intros b Hb. apply in_or_app.
      apply in_app_or in Hb as [Hb|Hb]; [left; auto|right].
      apply scan_entries_In in Hb as (-> & _). now left.
    + intros b Hb. apply in_app_or in Hb as [Hb|Hb]; [auto|].
      apply scan_entries_In in Hb as (-> & Hp & He). auto.
  - constructor; simpl; auto.
Qed.

Lemma scan_root_NoDup env st base_dir :
  (forall d, NoDup (map d_name (scandir env d))) ->
  scan_inv env st -> NoDup (backups_of st) ->
  NoDup (backups_of (scan_root env st base_dir)).
Proof.
  intros Hnames [H1 H2 H3 H4] Hnd. unfold scan_root.
  destruct base_dir as [|c base_dir]; [assumption|].
  set (d := abspath env (c :: base_dir)).
  destruct (mem d (seen_dirs st)) eqn:Em; [assumption|].
  assert (Hnotin : ~ In d (seen_dirs st)).
  { intros H. apply mem_In in H. congruence. }
  destruct (isdir env d); simpl; [|assumption].
  rewrite scan_entries_acc.
  apply NoDup_app; [auto|now apply scan_entries_NoDup|].
  intros b Hb Hb'. apply scan_entries_In in Hb' as (Hr & _).
  apply Hnotin, H2. rewrite <- Hr. auto.
Qed.

Lemma scan_roots_inv env roots : forall st,
  scan_inv env st -> scan_inv env (fold_left (scan_root env) roots st).
Proof.
  induction roots as [|r roots IH]; intros st H; simpl; auto.
  apply IH. now apply scan_root_inv.
Qed.

Lemma scan_roots_NoDup env roots : forall st,
  (forall d, NoDup (map d_name (scandir env d))) ->
  scan_inv env st -> NoDup (backups_of st) ->
  NoDup (backups_of (fold_left (scan_root env) roots st)).
Proof.
  induction roots as [|r roots IH]; intros st Hn H Hnd; simpl; auto.
  apply IH; auto using scan_root_inv, scan_root_NoDup.
Qed.

Lemma scan_inv_init env : scan_inv env (mkscan [] [] []).
Proof. constructor; simpl; try tauto. constructor. Qed.

Lemma list_backups_perm cfg env :
  Permutation (backups_of (scan_roots cfg env)) (list_backups cfg env).
Proof. apply sort_desc_perm. Qed.

Lemma list_backups_sorted cfg env :
  StronglySorted not_older (list_backups cfg env).
Proof.
  unfold list_backups.
  apply (sort_desc_sorted backup_ts dt_leb dt_leb_total dt_leb_trans).
Qed.

Lemma list_backups_In cfg env b :
  In b (list_backups cfg env) ->
  parse_backup_ts (backup_name b) = Some (backup_ts b) /\
  exists e, In e (scandir env (backup_root b)) /\
            d_name e = backup_name b /\ d_is_dir e = Some true.
Proof.
  intros H. apply (Permutation_in _ (Permutation_sym (list_backups_perm cfg env))) in H.
  unfold scan_roots in H.
  exact (inv_parse env _ (scan_roots_inv env _ _ (scan_inv_init env)) b H).
Qed.

Lemma nodupb_sound l : nodupb l = true -> NoDup l.
Proof.
  induction l as [|x l IH]; simpl; intros H; constructor;
    apply andb_true_iff in H as [H1 H2]; auto.
  intros Hin. apply mem_In in Hin. rewrite Hin in H1. discriminate.
Qed.

Lemma scan_root_first env r :
  r <> [] ->
  let d := abspath env r in
  scan_root env (mkscan [] [] []) r
  = if isdir env d
    then mkscan (scan_entries d (scandir env d) []) [d] [d]
    else mkscan [] [d] [].
Proof.
  intros Hr d. unfold scan_root. destruct r as [|c r]; [congruence|].
  fold d. simpl. now destruct (isdir env d).
Qed.

Lemma scan_root_seen env st r :
  r <> [] -> mem (abspath env r) (seen_dirs st) = true ->
  scan_root env st r = st.
Proof.
  intros Hr Hm. unfold scan_root. destruct r; [congruence|]. now rewrite Hm.
Qed.

Lemma scan_root_empty env st : scan_root env st [] = st.
Proof. reflexivity. Qed.

Lemma scan_roots_same_root cfg env :
  abspath env (BACKUP_BASE_DIR cfg) = abspath env (BACKUP_FALLBACK_DIR cfg) ->
  let d := abspath env (BACKUP_BASE_DIR cfg) in
  (scanned (scan_roots cfg env) = [] /\ backups_of (scan_roots cfg env) = [])
  \/ (scanned (scan_roots cfg env) = [d] /\
      backups_of (scan_roots cfg env) = scan_entries d (scandir env d) []).
Proof.
  intros Hsame d. unfold scan_roots. simpl.
  set (s1 := scan_root env (mkscan [] [] []) (BACKUP_BASE_DIR cfg)).
  assert (H1 : s1 = mkscan [] [] [] /\ BACKUP_BASE_DIR cfg = [] \/
               (s1 = (if isdir env d
                      then mkscan (scan_entries d (scandir env d) []) [d] [d]
                      else mkscan [] [d] []))
               /\ BACKUP_BASE_DIR cfg <> []).
  { unfold s1.
    destruct (list_eq_dec N.eq_dec (BACKUP_BASE_DIR cfg) []) as [Eb|Eb].
    - left. now rewrite Eb.
    - right. split; [|exact Eb]. now apply scan_root_first. }
  clearbody s1.
  destruct (list_eq_dec N.eq_dec (BACKUP_FALLBACK_DIR cfg) []) as [Ef|Ef].
  - rewrite Ef, scan_root_empty.
    destruct H1 as [[-> _]|[-> _]]; [now left|].
    destruct (isdir env d); simpl; auto.
  - destruct H1 as [[-> _]|[-> _]].
    + rewrite (scan_root_first env _ Ef). rewrite <- Hsame. fold d.
      destruct (isdir env d); simpl; auto.
    + rewrite (scan_root_seen env _ _ Ef).
      * destruct (isdir env d); simpl; auto.
      * rewrite <- Hsame. fold d.
        destruct (isdir env d); unfold mem; simpl; now rewrite str_eqb_refl.
Qed.

(** C5: the result is sorted, newest first, in every state of the file
    system; no directory is handed to [os.scandir] twice; when both roots
    resolve to the same absolute path, that directory is scanned at most
    once (an empty setting is skipped, so is a path that is no directory),
    and its entries, which have different names, give no duplicates. *)
Theorem list_backups_sorted_no_duplicates cfg env :
  StronglySorted not_older (list_backups cfg env) /\
  NoDup (scanned (scan_roots cfg env)) /\
  (abspath env (BACKUP_BASE_DIR cfg) = abspath env (BACKUP_FALLBACK_DIR cfg) ->
   length (scanned (scan_roots cfg env)) <= 1 /\
   (forall d, In d (scanned (scan_roots cfg env)) ->
              d = abspath env (BACKUP_BASE_DIR cfg)) /\
   (NoDup (map d_name (scandir env (abspath env (BACKUP_BASE_DIR cfg)))) ->
    NoDup (list_backups cfg env))).
Proof.
  split; [apply list_backups_sorted|].
  split.
  { apply (inv_scanned_nodup env), scan_roots_inv, scan_inv_init. }
  intros Hsame.
  destruct (scan_roots_same_root cfg env Hsame) as [[Hs Hb]|[Hs Hb]];
    rewrite Hs; simpl.
  - repeat split; [lia|tauto|]. intros _.
    apply (Permutation_NoDup (list_backups_perm cfg env)).
    rewrite Hb. constructor.
  - repeat split; [lia|intros d [<-|[]]; reflexivity|]. intros Hn.
    apply (Permutation_NoDup (list_backups_perm cfg env)).
    rewrite Hb. now apply scan_entries_NoDup.
Qed.

Lemma list_backups_sorted_no_duplicates_witness :
  abspath env_scenario (BACKUP_BASE_DIR cfg_twice)
  = abspath env_scenario (BACKUP_FALLBACK_DIR cfg_twice) /\
  NoDup (map d_name (scandir env_scenario
                       (abspath env_scenario (BACKUP_BASE_DIR cfg_twice)))) /\
  length (scanned (scan_roots cfg_twice env_scenario)) <= 1 /\
  NoDup (list_backups cfg_twice env_scenario) /\
  map backup_name (list_backups cfg_twice env_scenario)
  = [py "2024-01-02_09-30"; py "2024-01-01_10-00"].
Proof.
  assert (Hsame : abspath env_scenario (BACKUP_BASE_DIR cfg_twice)
                  = abspath env_scenario (BACKUP_FALLBACK_DIR cfg_twice))
    by reflexivity.
  assert (Hn : NoDup (map d_name (scandir env_scenario
                        (abspath env_scenario (BACKUP_BASE_DIR cfg_twice)))))
    by (apply nodupb_sound; vm_compute; reflexivity).
  destruct (list_backups_sorted_no_duplicates cfg_twice env_scenario)
    as (_ & _ & H).
  destruct (H Hsame) as (Hlen & _ & Hnd).
  repeat split; auto.
Defined.

(** ** The names that [strptime] accepts *)

Lemma match_alt_sound alt : forall s g r,
  match_alt alt s = Some (g, r) ->
  s = g ++ r /\ Forall2 (fun (p : cls) c => p c = true) alt g.
Proof.
  induction alt as [|p alt IH]; intros s g r; simpl.
  - intros [= <- <-]. split; [reflexivity|constructor].
  - destruct s as [|c s]; [discriminate|].
    destruct (p c) eqn:Ep; [|discriminate].
    destruct (match_alt alt s) as [[g' r']|] eqn:E; [|discriminate].
    intros [= <- <-]. destruct (IH _ _ _ E) as [-> HF].
    split; [reflexivity|now constructor].
Qed.

Lemma match_seq_sound items : forall s gs r,
  match_seq items s = Some (gs, r) ->
  exists t, s = t ++ r /\ matched items gs t.
Proof.
  induction items as [|[c|alts] items IH]; intros s gs r; simpl.
  - intros [= <- <-]. exists []. split; [reflexivity|constructor].
  - destruct s as [|c' s]; [discriminate|].
    destruct (N.eqb_spec c' c) as [->|]; [|discriminate].
    intros H. destruct (IH _ _ _ H) as (t & -> & Hm).
    exists (c :: t). split; [reflexivity|now constructor].
  - assert (Hgen : forall some,
      (forall a, In a some -> In a alts) ->
      (fix try (alts0 : list (list cls)) : option (list str * str) :=
         match alts0 with
         | [] => None
         | alt :: alts' =>
             match match_alt alt s with
             | Some (g, r0) =>
                 match match_seq items r0 with
                 | Some (gs0, r') => Some (g :: gs0, r')
                 | None => try alts'
                 end
             | None => try alts'
             end
         end) some = Some (gs, r) ->
      exists t, s = t ++ r /\ matched (RAlt alts :: items) gs t).
    { induction some as [|alt some IHs]; intros Hin; [discriminate|].
      destruct (match_alt alt s) as [[g r0]|] eqn:Ea.
      - destruct (match_seq items r0) as [[gs0 r']|] eqn:Es.
        + intros [= <- <-].
          destruct (match_alt_sound _ _ _ _ Ea) as [-> HF].
          destruct (IH _ _ _ Es) as (t & -> & Hm).
          exists (g ++ t). split; [now rewrite app_assoc|].
          econstructor; eauto. apply Hin. now left.
        + apply IHs. intros a Ha. apply Hin. now right.
      - apply IHs. intros a Ha. apply Hin. now right. }
    apply Hgen. auto.
Qed.

Lemma parse_backup_ts_parts name ts :
  parse_backup_ts name = Some ts ->
  exists p,
    name = assemble p /\
    group_of re_Y (gY p) /\ group_of re_m (gm p) /\ group_of re_d (gd p) /\
    group_of re_H (gH p) /\ group_of re_M (gM p) /\
    date_valid (int_of_str (gY p)) (int_of_str (gm p)) (int_of_str (gd p)) = true /\
    ts = mkdt (int_of_str (gY p)) (int_of_str (gm p)) (int_of_str (gd p))
              (int_of_str (gH p)) (int_of_str (gM p)).
Proof.
  unfold parse_backup_ts.
  destruct (match_seq backup_regex name) as [[gs r]|] eqn:E; [|discriminate].
  apply match_seq_sound in E as (t & -> & Hm).
  unfold backup_regex in Hm.
  inversion Hm as [| |? a1 ? g1 gs1 t1 Hi1 Hf1 Hm1]; subst; clear Hm.
  inversion Hm1 as [|? ? ? t2 Hm2|]; subst; clear Hm1.
  inversion Hm2 as [| |? a3 ? g3 gs3 t3 Hi3 Hf3 Hm3]; subst; clear Hm2.
  inversion Hm3 as [|? ? ? t4 Hm4|]; subst; clear Hm3.
  inversion Hm4 as [| |? a5 ? g5 gs5 t5 Hi5 Hf5 Hm5]; subst; clear Hm4.
  inversion Hm5 as [|? ? ? t6 Hm6|]; subst; clear Hm5.
  inversion Hm6 as [| |? a7 ? g7 gs7 t7 Hi7 Hf7 Hm7]; subst; clear Hm6.
  inversion Hm7 as [|? ? ? t8 Hm8|]; subst; clear Hm7.
  inversion Hm8 as [| |? a9 ? g9 gs9 t9 Hi9 Hf9 Hm9]; subst; clear Hm8.
  inversion Hm9; subst; clear Hm9.
  destruct r as [|]; [|discriminate].
  destruct (date_valid (int_of_str g1) (int_of_str g3) (int_of_str g5)) eqn:Ed;
    [|discriminate].
  intros [= <-].
  exists (mkparts g1 g3 g5 g7 g9). unfold assemble. cbn [gY gm gd gH gM].
  split; [now rewrite !app_nil_r|].
  unfold group_of, re_Y, re_m, re_d, re_H, re_M.
  repeat (split; [now (eexists; split; eassumption)|]).
  split; [exact Ed|reflexivity].
Qed.

(** *** Digits *)

Lemma digit_base_spec c b :
  digit_base c = Some b -> In b digit_bases /\ (b <= c < b + 10)%N.
Proof.
  unfold digit_base. intros H. apply find_some in H as [Hin Hb].
  apply andb_true_iff in Hb as [H1 H2].
  apply N.leb_le in H1. apply N.ltb_lt in H2. auto.
Qed.

Lemma digit_bases_low b : In b digit_bases -> (b = 48 \/ 1632 <= b)%N.
Proof.
  assert (H : forallb (fun b => (b =? 48)%N || (1632 <=? b)%N) digit_bases = true)
    by (vm_compute; reflexivity).
  rewrite forallb_forall in H. intros Hin. specialize (H _ Hin).
  apply orb_true_iff in H as [H|H]; [left; now apply N.eqb_eq|right; now apply N.leb_le].
Qed.

Lemma isdigit_cases c :
  isdigit c = true -> is_ascii_digit c = true \/ (1632 <= c)%N.
Proof.
  unfold isdigit. destruct (digit_base c) as [b|] eqn:E; [|discriminate].
  intros _. apply digit_base_spec in E as [Hin Hb].
  destruct (digit_bases_low _ Hin) as [->|Hl].
  - left. unfold is_ascii_digit. apply andb_true_iff.
    split; [apply N.leb_le|apply N.leb_le]; lia.
  - right. lia.
Qed.

Lemma is_ascii_digit_spec c : is_ascii_digit c = true <-> (48 <= c <= 57)%N.
Proof.
  unfold is_ascii_digit. rewrite andb_true_iff, !N.leb_le. tauto.
Qed.

Lemma ascii_digit_In c : is_ascii_digit c = true -> In c ascii_digit_list.
Proof.
  rewrite is_ascii_digit_spec. intros H.
  assert (c = 48 \/ c = 49 \/ c = 50 \/ c = 51 \/ c = 52 \/ c = 53 \/ c = 54
          \/ c = 55 \/ c = 56 \/ c = 57)%N as Hc by lia.
  unfold ascii_digit_list. simpl. intuition.
Qed.

Lemma ascii_digit_isdigit c : is_ascii_digit c = true -> isdigit c = true.
Proof.
  intros H. apply ascii_digit_In in H.
  assert (Hall : forallb isdigit ascii_digit_list = true) by (vm_compute; reflexivity).
  rewrite forallb_forall in Hall. auto.
Qed.

Lemma digit_value_range c : (0 <= digit_value c <= 9)%Z.
Proof.
  unfold digit_value. destruct (digit_base c) as [b|] eqn:E; [|lia].
  apply digit_base_spec in E as [_ Hb]. lia.
Qed.

Lemma isspace_not_digit c : isspace c = true -> isdigit c = false.
Proof.
  unfold isspace. rewrite existsb_exists. intros (s & Hin & E).
  apply N.eqb_eq in E. subst s.
  revert c Hin. apply Forall_forall.
  repeat (constructor; [vm_compute; reflexivity|]). constructor.
Qed.

Lemma isdigit_not_space c : isdigit c = true -> isspace c = false.
Proof.
  intros H. destruct (isspace c) eqn:E; [|reflexivity].
  apply isspace_not_digit in E. congruence.
Qed.

Lemma length_lstrip_ws s : length (lstrip_ws s) <= length s.
Proof.
  induction s as [|c s IH]; simpl; [lia|].
  destruct (isspace c); simpl; lia.
Qed.

Lemma length_strip s : length (strip s) <= length s.
Proof.
  unfold strip, rstrip_ws. rewrite length_rev.
  etransitivity; [apply length_lstrip_ws|]. rewrite length_rev.
  apply length_lstrip_ws.
Qed.

Lemma strip_digits s :
  Forall (fun c => isdigit c = true) s -> strip s = s.
Proof.
  intros H. unfold strip, rstrip_ws.
  assert (Hl : forall t, Forall (fun c => isdigit c = true) t -> lstrip_ws t = t).
  { intros [|c t] Ht; [reflexivity|]. simpl.
    inversion Ht; subst. now rewrite isdigit_not_space. }
  rewrite (Hl s H), Hl; [apply rev_involutive|].
  apply Forall_rev. exact H.
Qed.

Lemma digits_value_bound s : forall acc,
  (0 <= acc)%Z ->
  (0 <= fold_left (fun acc c => (acc * 10 + digit_value c)%Z) s acc
   < (acc + 1) * 10 ^ Z.of_nat (length s))%Z.
Proof.
  induction s as [|c s IH]; intros acc Hacc.
  - simpl. lia.
  - cbn [fold_left length]. pose proof (digit_value_range c) as Hc.
    specialize (IH (acc * 10 + digit_value c)%Z ltac:(lia)).
    rewrite Nat2Z.inj_succ, Z.pow_succ_r by lia.
    assert (0 < 10 ^ Z.of_nat (length s))%Z by (apply Z.pow_pos_nonneg; lia).
    nia.
Qed.

Lemma int_of_str_bound s n :
  length s <= n -> (0 <= int_of_str s < 10 ^ Z.of_nat n)%Z.
Proof.
  intros Hn. unfold int_of_str.
  pose proof (digits_value_bound (strip s) 0%Z ltac:(lia)) as H.
  pose proof (length_strip s) as Hs.
  assert (10 ^ Z.of_nat (length (strip s)) <= 10 ^ Z.of_nat n)%Z
    by (apply Z.pow_le_mono_r; lia).
  lia.
Qed.

Lemma int_of_str_digits s :
  Forall (fun c => isdigit c = true) s -> int_of_str s = digits_value s.
Proof.
  intros H. unfold int_of_str. now rewrite strip_digits.
Qed.

(** *** Enumerations *)

Lemma below_forallb (P : Z -> bool) n :
  forallb P (below n) = true ->
  forall v, (0 <= v < n)%Z -> P v = true.
Proof.
  intros H v Hv. rewrite forallb_forall in H. apply H.
  unfold below. apply in_map_iff. exists (Z.to_nat v). split; [lia|].
  apply in_seq. lia.
Qed.

Lemma In_ascii2 a b :
  is_ascii_digit a = true -> is_ascii_digit b = true -> In [a; b] ascii2.
Proof.
  intros Ha Hb. unfold ascii2. apply in_flat_map.
  exists a. split; [now apply ascii_digit_In|].
  apply in_map_iff. exists b. split; [reflexivity|now apply ascii_digit_In].
Qed.

Lemma In_ascii4 a b c d :
  is_ascii_digit a = true -> is_ascii_digit b = true ->
  is_ascii_digit c = true -> is_ascii_digit d = true ->
  In [a; b; c; d] ascii4.
Proof.
  intros Ha Hb Hc Hd. unfold ascii4. apply in_flat_map.
  exists [a; b]. split; [now apply In_ascii2|].
  apply in_map_iff. exists [c; d]. split; [reflexivity|now apply In_ascii2].
Qed.

Lemma two_digits_int_ascii2 g :
  In g ascii2 -> two_digits (int_of_str g) = g.
Proof.
  assert (H : forallb (fun g => str_eqb (two_digits (int_of_str g)) g) ascii2
              = true) by (vm_compute; reflexivity).
  rewrite forallb_forall in H. intros Hg. now apply str_eqb_eq, H.
Qed.

Lemma two_digits_ascii v :
  (0 <= v < 100)%Z -> ascii_digits (two_digits v) = true.
Proof.
  apply (below_forallb (fun v => ascii_digits (two_digits v)) 100%Z).
  vm_compute. reflexivity.
Qed.

Lemma str_of_Z_int_ascii4 g :
  In g ascii4 -> (1000 <= int_of_str g)%Z -> str_of_Z (int_of_str g) = g.
Proof.
  assert (H : forallb (fun g => negb (1000 <=? int_of_str g)%Z
                                || str_eqb (str_of_Z (int_of_str g)) g) ascii4
              = true) by (vm_compute; reflexivity).
  rewrite forallb_forall in H. intros Hg Hy. specialize (H _ Hg).
  apply orb_true_iff in H as [H|H]; [|now apply str_eqb_eq].
  apply negb_true_iff, Z.leb_gt in H. lia.
Qed.

Lemma str_of_Z_year y :
  (0 <= y < 10000)%Z ->
  ascii_digits (str_of_Z y) = true /\
  (length (str_of_Z y) = 4 -> (1000 <= y)%Z).
Proof.
  intros Hy.
  pose proof (below_forallb
                (fun y => ascii_digits (str_of_Z y)
                          && (negb (length (str_of_Z y) =? 4)
                              || (1000 <=? y)%Z))
                10000%Z ltac:(vm_compute; reflexivity) y Hy) as H.
  cbv beta in H. apply andb_true_iff in H as [H1 H2]. split; [exact H1|].
  intros Hl. rewrite Hl in H2. simpl in H2. now apply Z.leb_le.
Qed.

(** *** The groups of an accepted name *)

Lemma ascii_digits_no_sep g : ascii_digits g = true -> no_sep g.
Proof.
  unfold ascii_digits. rewrite forallb_forall. intros H.
  split; intros Hin; apply H in Hin; vm_compute in Hin; discriminate.
Qed.

Ltac invert_group H :=
  let alt := fresh "alt" in
  let Hin := fresh "Hin" in
  let Hf := fresh "Hf" in
  destruct H as (alt & Hin & Hf); simpl in Hin;
  repeat (destruct Hin as [<-|Hin]); try contradiction;
  repeat match goal with
         | F : Forall2 _ (_ :: _) _ |- _ => inversion F; clear F; subst
         | F : Forall2 _ [] _ |- _ => inversion F; clear F; subst
         end.

Ltac class_absurd :=
  match goal with
  | H : _ dash = true |- _ => vm_compute in H; discriminate H
  | H : _ underscore = true |- _ => vm_compute in H; discriminate H
  end.

Ltac no_sep_tac :=
  split; simpl; intros Hx;
  repeat (destruct Hx as [Hx|Hx]; [subst; class_absurd|]); contradiction.

Lemma group_Y g : group_of re_Y g -> length g = 4 /\ no_sep g /\
  Forall (fun c => isdigit c = true) g.
Proof.
  intros H. invert_group H.
  split; [reflexivity|]. split; [no_sep_tac|]. repeat constructor; assumption.
Qed.

Lemma group_m g : group_of re_m g -> 1 <= length g <= 2 /\ no_sep g.
Proof.
  intros H. invert_group H; (split; [simpl; lia|no_sep_tac]).
Qed.

Lemma group_d g : group_of re_d g -> 1 <= length g <= 2 /\ no_sep g.
Proof.
  intros H. invert_group H; (split; [simpl; lia|no_sep_tac]).
Qed.

Lemma group_H g : group_of re_H g -> 1 <= length g <= 2 /\ no_sep g.
Proof.
  intros H. invert_group H; (split; [simpl; lia|no_sep_tac]).
Qed.

Lemma group_M g : group_of re_M g -> 1 <= length g <= 2 /\ no_sep g.
Proof.
  intros H. invert_group H; (split; [simpl; lia|no_sep_tac]).
Qed.

Lemma canonical_two g :
  length g <= 2 ->
  (two_digits (int_of_str g) = g <-> length g = 2 /\ ascii_digits g = true).
Proof.
  intros Hl. split.
  - intros E. pose proof (int_of_str_bound g 2 Hl) as Hb.
    rewrite <- E. split; [reflexivity|].
    apply two_digits_ascii. change (10 ^ Z.of_nat 2)%Z with 100%Z in Hb. lia.
  - intros [H2 Ha].
    destruct g as [|a [|b [|? ?]]]; try discriminate.
    unfold ascii_digits in Ha. simpl in Ha.
    apply andb_true_iff in Ha as [Ha Hb]. apply andb_true_iff in Hb as [Hb _].
    apply two_digits_int_ascii2. now apply In_ascii2.
Qed.

Lemma canonical_year g :
  length g = 4 ->
  (str_of_Z (int_of_str g) = g
   <-> ascii_digits g = true /\ (1000 <= int_of_str g)%Z).
Proof.
  intros Hl. split.
  - intros E. pose proof (int_of_str_bound g 4 ltac:(lia)) as Hb.
    change (10 ^ Z.of_nat 4)%Z with 10000%Z in Hb.
    destruct (str_of_Z_year _ Hb) as [Ha Hy].
    rewrite E in Ha, Hy. auto.
  - intros [Ha Hy].
    destruct g as [|a [|b [|c [|d [|? ?]]]]]; try discriminate.
    unfold ascii_digits in Ha. simpl in Ha.
    repeat (apply andb_true_iff in Ha as [? Ha]).
    apply str_of_Z_int_ascii4; [now apply In_ascii4|exact Hy].
Qed.

Lemma split_unique (c : char) a : forall a' r r',
  a ++ c :: r = a' ++ c :: r' -> ~ In c a -> ~ In c a' -> a = a' /\ r = r'.
Proof.
  induction a as [|x a IH]; intros [|y a'] r r'; simpl; intros E Ha Ha'.
  - now inversion E.
  - inversion E; subst. tauto.
  - inversion E; subst. tauto.
  - inversion E; subst. destruct (IH a' r r') as [-> ->]; auto.
Qed.

Lemma assemble_inj p q :
  parts_no_sep p -> parts_no_sep q -> assemble p = assemble q -> p = q.
Proof.
  destruct p as [a1 a2 a3 a4 a5], q as [b1 b2 b3 b4 b5].
  unfold parts_no_sep, no_sep, assemble. simpl.
  intros (Ha1 & Ha2 & Ha3 & Ha4) (Hb1 & Hb2 & Hb3 & Hb4) E.
  apply split_unique in E as [-> E]; try tauto.
  apply split_unique in E as [-> E]; try tauto.
  apply split_unique in E as [-> E]; try tauto.
  apply split_unique in E as [-> E]; try tauto.
  now subst.
Qed.

Lemma digit_value_ascii c :
  is_ascii_digit c = true -> digit_value c = (Z.of_N c - 48)%Z.
Proof.
  intros H. apply ascii_digit_In in H.
  assert (Hall : forallb (fun c => (digit_value c =? Z.of_N c - 48)%Z)
                   ascii_digit_list = true) by (vm_compute; reflexivity).
  rewrite forallb_forall in Hall. now apply Z.eqb_eq, Hall.
Qed.

Lemma rng_spec a b c : rng a b c = true <-> (a <= c <= b)%N.
Proof. unfold rng. rewrite andb_true_iff, !N.leb_le. tauto. Qed.

Lemma one_spec a c : one a c = true <-> c = a.
Proof. unfold one. apply N.eqb_eq. Qed.

Lemma rng_digit a b c :
  (48 <= a)%N -> (b <= 57)%N -> rng a b c = true ->
  isdigit c = true /\ (Z.of_N a - 48 <= digit_value c <= Z.of_N b - 48)%Z.
Proof.
  intros Ha Hb H. apply rng_spec in H.
  assert (Hd : is_ascii_digit c = true) by (apply is_ascii_digit_spec; lia).
  split; [now apply ascii_digit_isdigit|].
  rewrite (digit_value_ascii _ Hd). lia.
Qed.

Lemma int_two c1 c2 :
  isdigit c1 = true -> isdigit c2 = true ->
  int_of_str [c1; c2] = (digit_value c1 * 10 + digit_value c2)%Z.
Proof.
  intros H1 H2. rewrite int_of_str_digits by (repeat constructor; assumption).
  unfold digits_value. simpl. lia.
Qed.

Lemma int_one c : isdigit c = true -> int_of_str [c] = digit_value c.
Proof.
  intros H. rewrite int_of_str_digits by (repeat constructor; assumption).
  unfold digits_value. simpl. lia.
Qed.

Lemma group_H_range g : group_of re_H g -> (0 <= int_of_str g <= 23)%Z.
Proof.
  intros H. invert_group H.
  - match goal with
    | A : one 50 ?x = true, B : rng 48 51 ?y = true |- _ =>
        apply one_spec in A; subst x;
        apply (rng_digit 48 51) in B as [B1 B2]; try lia;
        rewrite (int_two 50%N y) by (auto; vm_compute; reflexivity);
        change (digit_value 50%N) with 2%Z
    end. lia.
  - match goal with
    | A : rng 48 49 ?x = true, B : isdigit ?y = true |- _ =>
        apply (rng_digit 48 49) in A as [A1 A2]; try lia;
        rewrite (int_two x y) by auto;
        pose proof (digit_value_range y)
    end. lia.
  - match goal with
    | B : isdigit ?y = true |- _ =>
        rewrite (int_one y) by auto; pose proof (digit_value_range y)
    end. lia.
Qed.

Lemma group_M_range g : group_of re_M g -> (0 <= int_of_str g <= 59)%Z.
Proof.
  intros H. invert_group H.
  - match goal with
    | A : rng 48 53 ?x = true, B : isdigit ?y = true |- _ =>
        apply (rng_digit 48 53) in A as [A1 A2]; try lia;
        rewrite (int_two x y) by auto;
        pose proof (digit_value_range y)
    end. lia.
  - match goal with
    | B : isdigit ?y = true |- _ =>
        rewrite (int_one y) by auto; pose proof (digit_value_range y)
    end. lia.
Qed.

Lemma strftime_name_assemble ts :
  strftime name_format ts
  = assemble (mkparts (str_of_Z (year ts)) (two_digits (month ts))
                      (two_digits (day ts)) (two_digits (hour ts))
                      (two_digits (minute ts))).
Proof.
  unfold strftime, name_format, assemble. cbn [flat_map render gY gm gd gH gM].
  repeat (rewrite <- ?app_assoc; cbn [app]). reflexivity.
Qed.

(** A name in the exact format, cut at its separators. *)
Lemma exact_format_parts name :
  exact_format name = true ->
  exists q, name = assemble q /\ length (gY q) = 4 /\
    length (gm q) = 2 /\ length (gd q) = 2 /\ length (gH q) = 2 /\
    length (gM q) = 2 /\
    ascii_digits (gY q) = true /\ ascii_digits (gm q) = true /\
    ascii_digits (gd q) = true /\ ascii_digits (gH q) = true /\
    ascii_digits (gM q) = true.
Proof.
  intros H.
  do 16 (destruct name as [|? name]; [discriminate H|]).
  destruct name; [|discriminate H].
  unfold exact_format in H.
  apply andb_true_iff in H as [H S4]. apply andb_true_iff in H as [H S3].
  apply andb_true_iff in H as [H S2]. apply andb_true_iff in H as [H S1].
  apply N.eqb_eq in S1, S2, S3, S4. subst.
  rewrite forallb_forall in H.
  eexists (mkparts [_; _; _; _] [_; _] [_; _] [_; _] [_; _]).
  unfold assemble, ascii_digits. cbn [gY gm gd gH gM app length].
  repeat split; try reflexivity;
    apply forallb_forall; intros x Hx; apply H; simpl in *; tauto.
Qed.

Lemma assemble_exact_format p :
  length (gY p) = 4 -> length (gm p) = 2 -> length (gd p) = 2 ->
  length (gH p) = 2 -> length (gM p) = 2 ->
  ascii_digits (gY p) = true -> ascii_digits (gm p) = true ->
  ascii_digits (gd p) = true -> ascii_digits (gH p) = true ->
  ascii_digits (gM p) = true ->
  exact_format (assemble p) = true.
Proof.
  destruct p as [a b c d e]. cbn [gY gm gd gH gM].
  intros.
  destruct a as [|? [|? [|? [|? [|? ?]]]]]; try discriminate.
  destruct b as [|? [|? [|? ?]]]; try discriminate.
  destruct c as [|? [|? [|? ?]]]; try discriminate.
  destruct d as [|? [|? [|? ?]]]; try discriminate.
  destruct e as [|? [|? [|? ?]]]; try discriminate.
  unfold ascii_digits in *. cbn [forallb] in *.
  repeat match goal with
         | E : _ && _ = true |- _ => apply andb_true_iff in E as [? ?]
         end.
  unfold assemble, exact_format. cbn [gY gm gd gH gM app forallb].
  rewrite !N.eqb_refl.
  repeat match goal with E : is_ascii_digit _ = true |- _ => rewrite E; clear E end.
  reflexivity.
Qed.

(** The name that was parsed is rendered back exactly when it is in the
    exact format and its year has four significant digits. *)
Lemma parse_backup_ts_roundtrip name ts :
  parse_backup_ts name = Some ts ->
  (strftime name_format ts = name
   <-> exact_format name = true /\ (1000 <= year ts)%Z).
Proof.
  intros Hp.
  destruct (parse_backup_ts_parts _ _ Hp)
    as (p & Hname & HY & Hm & Hd & HH & HM & Hdv & Hts).
  destruct (group_Y _ HY) as (LY & NY & DY).
  destruct (group_m _ Hm) as (Lm & Nm).
  destruct (group_d _ Hd) as (Ld & Nd).
  destruct (group_H _ HH) as (LH & NH).
  destruct (group_M _ HM) as (LM & NM).
  assert (Np : parts_no_sep p) by (unfold parts_no_sep; tauto).
  pose proof (int_of_str_bound (gY p) 4 ltac:(lia)) as BY.
  pose proof (int_of_str_bound (gm p) 2 ltac:(lia)) as Bm.
  pose proof (int_of_str_bound (gd p) 2 ltac:(lia)) as Bd.
  pose proof (int_of_str_bound (gH p) 2 ltac:(lia)) as BH.
  pose proof (int_of_str_bound (gM p) 2 ltac:(lia)) as BM.
  change (10 ^ Z.of_nat 4)%Z with 10000%Z in BY.
  change (10 ^ Z.of_nat 2)%Z with 100%Z in Bm, Bd, BH, BM.
  rewrite strftime_name_assemble, Hts. cbn [year month day hour minute].
  set (q := mkparts _ _ _ _ _).
  assert (Nq : parts_no_sep q).
  { unfold parts_no_sep, q. cbn [gY gm gd gH gM].
    repeat split; apply ascii_digits_no_sep;
      try (apply two_digits_ascii; lia); apply str_of_Z_year; lia. }
  rewrite Hname. split.
  - intros E. apply assemble_inj in E; auto.
    unfold q in E. destruct p as [a b c d e]. cbn [gY gm gd gH gM] in *.
    injection E as E1 E2 E3 E4 E5.
    apply canonical_year in E1 as [A1 Y1]; [|exact LY].
    apply canonical_two in E2 as [L2 A2]; [|lia].
    apply canonical_two in E3 as [L3 A3]; [|lia].
    apply canonical_two in E4 as [L4 A4]; [|lia].
    apply canonical_two in E5 as [L5 A5]; [|lia].
    split; [|exact Y1].
    now apply (assemble_exact_format (mkparts a b c d e)).
  - intros [Hx Hy].
    destruct (exact_format_parts _ Hx)
      as (r & Er & R1 & R2 & R3 & R4 & R5 & A1 & A2 & A3 & A4 & A5).
    assert (Nr : parts_no_sep r)
      by (unfold parts_no_sep; auto using ascii_digits_no_sep).
    apply assemble_inj in Er; auto. subst r.
    f_equal. unfold q. destruct p as [a b c d e]. cbn [gY gm gd gH gM] in *.
    f_equal.
    + apply canonical_year; auto.
    + apply canonical_two; auto; lia.
    + apply canonical_two; auto; lia.
    + apply canonical_two; auto; lia.
    + apply canonical_two; auto; lia.
Qed.

Lemma parse_backup_ts_valid name ts :
  parse_backup_ts name = Some ts -> dt_valid ts = true.
Proof.
  intros Hp.
  destruct (parse_backup_ts_parts _ _ Hp)
    as (p & Hname & HY & Hm & Hd & HH & HM & Hdv & Hts).
  pose proof (group_H_range _ HH). pose proof (group_M_range _ HM).
  subst ts. unfold dt_valid. cbn [year month day hour minute].
  rewrite Hdv. simpl.
  repeat (apply andb_true_iff; split); apply Z.leb_le; lia.
Qed.

(** *** Names in the exact format are accepted *)

Lemma match_alt_app alt : forall g g' rest,
  match_alt alt g = Some (g', []) ->
  match_alt alt (g ++ rest) = Some (g, rest).
Proof.
  induction alt as [|p alt IH]; intros g g' rest; simpl.
  - intros [= <- ->]. reflexivity.
  - destruct g as [|c g]; [discriminate|]. simpl.
    destruct (p c); [|discriminate].
    destruct (match_alt alt g) as [[g1 r1]|] eqn:E; [|discriminate].
    intros [= <- ->]. now rewrite (IH _ _ rest E).
Qed.

Lemma match_alt_none_app alt : forall g rest,
  match_alt alt g = None -> length alt <= length g ->
  match_alt alt (g ++ rest) = None.
Proof.
  induction alt as [|p alt IH]; intros g rest; simpl; [discriminate|].
  destruct g as [|c g]; simpl; [lia|].
  destruct (p c); [|reflexivity].
  destruct (match_alt alt g) as [[g1 r1]|] eqn:E; [discriminate|].
  intros _ Hl. rewrite IH; auto. lia.
Qed.

Lemma match_seq_first_exact alts items g rest gs r :
  first_exact alts g = true ->
  match_seq items rest = Some (gs, r) ->
  match_seq (RAlt alts :: items) (g ++ rest) = Some (g :: gs, r).
Proof.
  intros Hf Hs. cbn [match_seq].
  induction alts as [|a alts IH]; [discriminate|].
  cbn [first_exact] in Hf.
  destruct (match_alt a g) as [[g' [|? ?]]|] eqn:E; try discriminate.
  - rewrite (match_alt_app _ _ _ rest E), Hs. reflexivity.
  - apply andb_true_iff in Hf as [Hl Hf]. apply Nat.leb_le in Hl.
    rewrite (match_alt_none_app _ _ rest E Hl). now apply IH.
Qed.

Lemma match_seq_lit c items rest :
  match_seq (RLit c :: items) (c :: rest) = match_seq items rest.
Proof. cbn [match_seq]. now rewrite N.eqb_refl. Qed.

Lemma field_ok_spec it text lo hi v :
  forallb (field_ok it text lo) (below (hi + 1)) = true ->
  (lo <= v <= hi)%Z -> (0 <= lo)%Z ->
  first_exact (alts_of it) (text v) = true /\ int_of_str (text v) = v.
Proof.
  intros H Hv Hlo.
  pose proof (below_forallb _ _ H v ltac:(lia)) as Hf.
  unfold field_ok in Hf. apply orb_true_iff in Hf as [Hf|Hf].
  - apply Z.ltb_lt in Hf. lia.
  - apply andb_true_iff in Hf as [H1 H2]. apply Z.eqb_eq in H2. auto.
Qed.

Lemma days_in_month_le y m : (days_in_month y m <= 31)%Z.
Proof.
  unfold days_in_month.
  destruct (m =? 2)%Z; [destruct (is_leap y); lia|].
  destruct ((m =? 4)%Z || (m =? 6)%Z || (m =? 9)%Z || (m =? 11)%Z); lia.
Qed.

Lemma parse_backup_ts_strftime ts :
  dt_valid ts = true -> (1000 <= year ts)%Z ->
  parse_backup_ts (strftime name_format ts) = Some ts.
Proof.
  destruct ts as [y m d h n]. unfold dt_valid. cbn [year month day hour minute].
  intros Hv Hy.
  do 4 (apply andb_true_iff in Hv as [Hv ?]).
  assert (Hdv : date_valid y m d = true) by exact Hv.
  unfold date_valid in Hv.
  repeat (apply andb_true_iff in Hv as [Hv ?]).
  repeat match goal with
         | E : (_ <=? _)%Z = true |- _ => apply Z.leb_le in E
         end.
  pose proof (days_in_month_le y m).
  destruct (field_ok_spec re_Y str_of_Z 1000 9999 y
              ltac:(vm_compute; reflexivity) ltac:(lia) ltac:(lia)) as [FY IY].
  destruct (field_ok_spec re_m two_digits 1 12 m
              ltac:(vm_compute; reflexivity) ltac:(lia) ltac:(lia)) as [Fm Im].
  destruct (field_ok_spec re_d two_digits 1 31 d
              ltac:(vm_compute; reflexivity) ltac:(lia) ltac:(lia)) as [Fd Id].
  destruct (field_ok_spec re_H two_digits 0 23 h
              ltac:(vm_compute; reflexivity) ltac:(lia) ltac:(lia)) as [FH IH].
  destruct (field_ok_spec re_M two_digits 0 59 n
              ltac:(vm_compute; reflexivity) ltac:(lia) ltac:(lia)) as [FM IM].
  rewrite strftime_name_assemble. unfold assemble.
  cbn [gY gm gd gH gM year month day hour minute].
  unfold parse_backup_ts, backup_regex.
  assert (E9 : match_seq [re_M] (two_digits n) = Some ([two_digits n], [])).
  { rewrite <- (app_nil_r (two_digits n)) at 1.
    apply match_seq_first_exact; [exact FM|reflexivity]. }
  assert (E7 : match_seq [re_H; RLit dash; re_M]
                 (two_digits h ++ dash :: two_digits n)
               = Some ([two_digits h; two_digits n], [])).
  { apply match_seq_first_exact; [exact FH|]. now rewrite match_seq_lit. }
  assert (E5 : match_seq [re_d; RLit underscore; re_H; RLit dash; re_M]
                 (two_digits d ++ underscore :: two_digits h ++ dash :: two_digits n)
               = Some ([two_digits d; two_digits h; two_digits n], [])).
  { apply match_seq_first_exact; [exact Fd|]. now rewrite match_seq_lit. }
  assert (E3 : match_seq [re_m; RLit dash; re_d; RLit underscore; re_H;
                          RLit dash; re_M]
                 (two_digits m ++ dash :: two_digits d ++ underscore
                    :: two_digits h ++ dash :: two_digits n)
               = Some ([two_digits m; two_digits d; two_digits h; two_digits n], [])).
  { apply match_seq_first_exact; [exact Fm|]. now rewrite match_seq_lit. }
  assert (E1 : match_seq [re_Y; RLit dash; re_m; RLit dash; re_d;
                          RLit underscore; re_H; RLit dash; re_M]
                 (str_of_Z y ++ dash :: two_digits m ++ dash :: two_digits d
                    ++ underscore :: two_digits h ++ dash :: two_digits n)
               = Some ([str_of_Z y; two_digits m; two_digits d; two_digits h;
                        two_digits n], [])).
  { apply match_seq_first_exact; [exact FY|]. now rewrite match_seq_lit. }
  rewrite E1, IY, Im, Id, IH, IM, Hdv. reflexivity.
Qed.

(** C4, as the program has it: an entry is included only for a directory
    whose name [strptime] accepts, with the timestamp that it returns, a
    date that exists; the accepted names are more than the exact format
    (one digit is enough for month, day, hour and minute), and the
    timestamp is rendered back to the name exactly when the name is in the
    exact format [YYYY-MM-DD_HH-MM] with a year of four significant
    digits. *)
Theorem list_backups_names cfg env b :
  In b (list_backups cfg env) ->
  (exists e, In e (scandir env (backup_root b)) /\
             d_name e = backup_name b /\ d_is_dir e = Some true) /\
  parse_backup_ts (backup_name b) = Some (backup_ts b) /\
  dt_valid (backup_ts b) = true /\
  (strftime name_format (backup_ts b) = backup_name b
   <-> exact_format (backup_name b) = true /\ (1000 <= year (backup_ts b))%Z).
Proof.
  intros Hin. destruct (list_backups_In _ _ _ Hin) as [Hp He].
  split; [exact He|]. split; [exact Hp|].
  split; [now apply parse_backup_ts_valid in Hp|].
  now apply parse_backup_ts_roundtrip.
Qed.

Lemma list_backups_names_witness :
  In backup_scenario (list_backups cfg_twice env_scenario) /\
  parse_backup_ts (backup_name backup_scenario)
  = Some (backup_ts backup_scenario) /\
  strftime name_format (backup_ts backup_scenario)
  = backup_name backup_scenario.
Proof.
  assert (Hin : In backup_scenario (list_backups cfg_twice env_scenario))
    by (vm_compute; left; reflexivity).
  destruct (list_backups_names cfg_twice env_scenario backup_scenario Hin)
    as (_ & Hp & _ & Hr).
  split; [exact Hin|]. split; [exact Hp|].
  apply Hr. split; [vm_compute; reflexivity|vm_compute; discriminate].
Defined.

(** A directory [2024-1-2_9-5] is in the inventory although its name is
    not in the exact format, and its timestamp is rendered as
    [2024-01-02_09-05]. *)
Lemma list_backups_includes_unpadded_name :
  exists b,
    In b (list_backups cfg_backups env_unpadded) /\
    backup_name b = py "2024-1-2_9-5" /\
    exact_format (backup_name b) = false /\
    strftime name_format (backup_ts b) = py "2024-01-02_09-05" /\
    strftime name_format (backup_ts b) <> backup_name b.
Proof.
  exists (mkdt 2024 1 2 9 5, py "2024-1-2_9-5", py "/backups").
  split; [vm_compute; left; reflexivity|].
  split; [reflexivity|]. split; [reflexivity|].
  split; [reflexivity|]. vm_compute. discriminate.
Qed.

(** ** Walking a backup *)

Lemma zsum_app a b : zsum (a ++ b) = (zsum a + zsum b)%Z.
Proof. unfold zsum. induction a; simpl; lia. Qed.

Lemma zsum_perm a b : Permutation a b -> zsum a = zsum b.
Proof. unfold zsum. induction 1; simpl; lia. Qed.

Lemma fold_left_add {A} (h : A -> Z) l : forall total,
  fold_left (fun total x => (total + h x)%Z) l total
  = (total + zsum (map h l))%Z.
Proof.
  unfold zsum. induction l as [|x l IH]; intros total; simpl; [lia|].
  rewrite IH. lia.
Qed.

Lemma walk_files_app a b : walk_files (a ++ b) = walk_files a ++ walk_files b.
Proof. unfold walk_files. apply flat_map_app. Qed.

Lemma walk_files_all_files c : forall p,
  walk_files (walk p c) = map fst (all_files p c).
Proof.
  induction c as [| | | |es IH] using node_induction; intros p; try reflexivity.
  cbn [walk all_files]. unfold walk_files at 1. cbn [flat_map].
  fold (walk_files (flat_map
          (fun e => match snd e with
                    | Dir _ => walk (p ++ [fst e]) (snd e)
                    | _ => []
                    end) es)).
  rewrite map_app, !map_map. cbn [fst]. f_equal.
  induction IH as [|e es He Hes IHes]; [reflexivity|].
  cbn [flat_map]. rewrite walk_files_app, map_app, IHes. f_equal.
  specialize (He (p ++ [fst e])).
  destruct (snd e); try reflexivity. apply He.
Qed.

Lemma size_loop_counted t root files : forall total,
  fold_left
    (fun total name =>
       let file_path := root ++ [name] in
       if islink t file_path then total
       else
         match getsize t file_path with
         | Some n => (total + n)%Z
         | None => total
         end)
    files total
  = (total + zsum (map (fun name => counted t (root ++ [name])) files))%Z.
Proof.
  induction files as [|name files IH]; intros total.
  - unfold zsum. simpl. lia.
  - cbn [fold_left map]. rewrite IH. unfold zsum. cbn [fold_right].
    unfold counted at 2.
    destruct (islink t (root ++ [name])); [lia|].
    destruct (getsize t (root ++ [name])); lia.
Qed.

Lemma dir_size_bytes_counted t :
  dir_size_bytes t = zsum (map (counted t) (walk_files (walk [] t))).
Proof.
  unfold dir_size_bytes.
  assert (H : forall w total,
    fold_left
      (fun total '(root, _dirs, files) =>
         fold_left
           (fun total name =>
              let file_path := root ++ [name] in
              if islink t file_path then total
              else
                match getsize t file_path with
                | Some n => (total + n)%Z
                | None => total
                end)
           files total)
      w total
    = (total + zsum (map (counted t) (walk_files w)))%Z).
  { induction w as [|[[root dirs] files] w IH]; intros total.
    - unfold zsum. simpl. lia.
    - cbn [fold_left]. rewrite IH, size_loop_counted.
      unfold walk_files at 2. cbn [flat_map].
      fold (walk_files w). rewrite map_app, zsum_app, map_map.
      now rewrite Z.add_assoc. }
  rewrite H. lia.
Qed.

Lemma collect_files_listed t :
  collect_files t
  = map (fun full_path => (relpath full_path, listed t full_path))
        (walk_files (walk [] t)).
Proof.
  unfold collect_files, walk_files.
  induction (walk [] t) as [|[[root dirs] names] w IH]; [reflexivity|].
  cbn [flat_map]. rewrite map_app, IH, map_map. reflexivity.
Qed.

Lemma lookup_app t p : forall q,
  lookup t (p ++ q)
  = match lookup t p with
    | Some c => lookup c q
    | None => None
    end.
Proof.
  revert t. induction p as [|name p IH]; intros t q; [reflexivity|].
  cbn [app lookup]. destruct t as [| | |[es|]]; try reflexivity.
  destruct (find _ es) as [[? child]|]; [apply IH|reflexivity].
Qed.

Lemma find_unique es : forall e,
  nodupb (map fst es) = true -> In e es ->
  find (fun e' : str * node => str_eqb (fst e') (fst e)) es = Some e.
Proof.
  induction es as [|x es IH]; intros e Hn Hin; [contradiction|].
  cbn [map nodupb] in Hn. apply andb_true_iff in Hn as [Hx Hn].
  cbn [find]. destruct Hin as [->|Hin].
  - now rewrite str_eqb_refl.
  - destruct (str_eqb (fst x) (fst e)) eqn:E; [|now apply IH].
    apply str_eqb_eq in E. apply negb_true_iff in Hx.
    assert (mem (fst x) (map fst es) = true).
    { apply mem_In. rewrite E. now apply in_map. }
    congruence.
Qed.

Lemma lookup_entry t p es e :
  lookup t p = Some (Dir (Some es)) -> nodupb (map fst es) = true ->
  In e es -> lookup t (p ++ [fst e]) = Some (snd e).
Proof.
  intros Hl Hn Hin. rewrite lookup_app, Hl. cbn [lookup].
  rewrite (find_unique es e Hn Hin). now destruct e.
Qed.

(** In a tree with unique names, what the walk reports as a file is what
    a lookup of its path finds. *)
Lemma lookup_all_files t c : forall p,
  unique_names c = true -> lookup t p = Some c ->
  forall fp n, In (fp, n) (all_files p c) -> lookup t fp = Some n.
Proof.
  induction c as [| | | |es IH] using node_induction; intros p Hu Hl fp n Hin;
    try contradiction.
  cbn [unique_names] in Hu. apply andb_true_iff in Hu as [Hn Hall].
  cbn [all_files] in Hin. apply in_app_or in Hin as [Hin|Hin].
  - apply in_map_iff in Hin as (e & [= <- <-] & He).
    apply filter_In in He as [He _]. eapply lookup_entry; eauto.
  - apply in_flat_map in Hin as (e & He & Hin).
    rewrite Forall_forall in IH. rewrite forallb_forall in Hall.
    destruct (snd e) eqn:E; try contradiction. rewrite <- E in Hin.
    apply (IH e He (p ++ [fst e])); auto.
    eapply lookup_entry; eauto.
Qed.

Lemma zsum_filter {A} (g : A -> Z) (h : A -> bool) l :
  zsum (map g (filter h l)) = zsum (map (fun e => if h e then g e else 0%Z) l).
Proof.
  unfold zsum. induction l as [|x l IH]; [reflexivity|].
  cbn [filter map fold_right]. destruct (h x); cbn [map fold_right]; lia.
Qed.

Lemma zsum_flat_map {A B} (g : B -> Z) (k : A -> list B) l :
  zsum (map g (flat_map k l)) = zsum (map (fun e => zsum (map g (k e))) l).
Proof.
  induction l as [|x l IH]; [reflexivity|].
  cbn [flat_map map]. rewrite map_app, zsum_app, IH. reflexivity.
Qed.

Lemma zsum_map_add {A} (a b : A -> Z) l :
  (zsum (map a l) + zsum (map b l))%Z = zsum (map (fun e => (a e + b e)%Z) l).
Proof.
  unfold zsum. induction l as [|x l IH]; cbn [map fold_right]; lia.
Qed.

Lemma sum_all_files (f : node -> Z) c : forall p,
  zsum (map (fun x => f (snd x)) (all_files p c)) = dir_sum f c.
Proof.
  induction c as [| | | |es IH] using node_induction; intros p; try reflexivity.
  cbn [all_files dir_sum tree_sum]. rewrite map_app, zsum_app, map_map.
  cbn [snd]. rewrite zsum_filter, zsum_flat_map, zsum_map_add.
  fold (zsum (map (fun e => tree_sum f (snd e)) es)).
  f_equal. apply map_ext_in. intros e He.
  rewrite Forall_forall in IH. specialize (IH e He (p ++ [fst e])).
  destruct (snd e) as [st|st| |[es'|]]; cbn [is_dir_entry negb];
    try (unfold zsum; cbn [map fold_right tree_sum]; lia).
  - rewrite Z.add_0_l. exact IH.
  - reflexivity.
Qed.

Lemma tree_sum_add (f g h : node -> Z) c :
  (forall n, f n = (g n + h n)%Z) ->
  tree_sum f c = (tree_sum g c + tree_sum h c)%Z.
Proof.
  intros Hf.
  induction c as [| | | |es IH] using node_induction; cbn [tree_sum]; auto;
    try lia.
  induction IH as [|e es He Hes IHes]; cbn [map fold_right]; [lia|].
  rewrite He, IHes. lia.
Qed.

Lemma counted_lookup t fp n :
  lookup t fp = Some n -> counted t fp = regular_size n.
Proof.
  intros H. unfold counted, islink, getsize. rewrite H.
  destruct n as [[s|]|[s|]| |]; reflexivity.
Qed.

Lemma listed_lookup t fp n :
  lookup t fp = Some n -> listed t fp = listed_size n.
Proof.
  intros H. unfold listed, getsize. rewrite H.
  destruct n as [[s|]|[s|]| |]; reflexivity.
Qed.

Lemma map_all_files_ext (g : path -> Z) (f : node -> Z) t :
  unique_names t = true ->
  (forall fp n, lookup t fp = Some n -> g fp = f n) ->
  map g (map fst (all_files [] t)) = map (fun x => f (snd x)) (all_files [] t).
Proof.
  intros Hu Hg. rewrite map_map. apply map_ext_in. intros [fp n] Hin.
  cbn [fst snd]. apply Hg.
  eapply (lookup_all_files t t []); eauto.
Qed.

Lemma dir_size_bytes_sum t :
  unique_names t = true -> dir_size_bytes t = dir_sum regular_size t.
Proof.
  intros Hu.
  rewrite dir_size_bytes_counted, walk_files_all_files.
  rewrite (map_all_files_ext (counted t) regular_size t Hu (counted_lookup t)).
  apply sum_all_files.
Qed.

Lemma collect_files_sum t :
  unique_names t = true ->
  zsum (map snd (collect_files t)) = dir_sum listed_size t.
Proof.
  intros Hu.
  rewrite collect_files_listed, map_map. cbn [snd].
  rewrite walk_files_all_files.
  rewrite <- (sum_all_files listed_size t []).
  apply (f_equal zsum (map_all_files_ext (listed t) listed_size t Hu
                          (listed_lookup t))).
Qed.

Lemma lookup_nonempty_dir c name p n :
  lookup c (name :: p) = Some n ->
  exists es child,
    c = Dir (Some es) /\ In (name, child) es /\ lookup child p = Some n.
Proof.
  cbn [lookup]. destruct c as [| | |[es|]]; try discriminate.
  destruct (find _ es) as [[name' child]|] eqn:E; [|discriminate].
  intros H. apply find_some in E as [Hin Heq]. cbn [fst] in Heq.
  apply str_eqb_eq in Heq. subst name'. eauto.
Qed.

Lemma all_files_lookup p : forall c q n,
  lookup c p = Some n -> p <> [] -> is_dir_entry n = false ->
  In (q ++ p, n) (all_files q c).
Proof.
  induction p as [|name p IH]; intros c q n Hl Hp Hn; [congruence|].
  apply lookup_nonempty_dir in Hl as (es & child & -> & Hin & Hl).
  cbn [all_files]. apply in_or_app.
  destruct p as [|name' p].
  - left. cbn [lookup] in Hl. injection Hl as ->.
    apply in_map_iff. exists (name, n). split; [reflexivity|].
    apply filter_In. split; [exact Hin|]. cbn [snd]. now rewrite Hn.
  - right. apply in_flat_map. exists (name, child). split; [exact Hin|].
    cbn [fst snd].
    destruct (lookup_nonempty_dir _ _ _ _ Hl) as (es' & ? & -> & _).
    replace (q ++ name :: name' :: p) with ((q ++ [name]) ++ name' :: p)
      by (now rewrite <- app_assoc).
    apply IH; auto. discriminate.
Qed.

Lemma backup_files_perm t : Permutation (collect_files t) (backup_files t).
Proof. apply sort_asc_perm. Qed.

Lemma backup_files_sorted t :
  StronglySorted (fun a b => str_leb (fst a) (fst b) = true) (backup_files t).
Proof.
  unfold backup_files.
  apply (sort_asc_sorted fst str_leb str_leb_total str_leb_trans).
Qed.

Lemma dir_sum_add (f g h : node -> Z) c :
  (forall n, f n = (g n + h n)%Z) ->
  dir_sum f c = (dir_sum g c + dir_sum h c)%Z.
Proof.
  intros H. destruct c; cbn [dir_sum]; try lia. now apply tree_sum_add.
Qed.

(** C9: in a tree whose directories have entries of different names,
    [dir_size_bytes] is the sum of the sizes of the files that are neither
    directories nor symbolic links; a link adds nothing, whatever the size
    of its target, and a file whose size cannot be read adds 0. *)
Theorem dir_size_bytes_regular_files t :
  unique_names t = true ->
  dir_size_bytes t = dir_sum regular_size t /\
  dir_size_bytes t = zsum (map (counted t) (walk_files (walk [] t))) /\
  (forall p st, lookup t p = Some (LinkFile st) -> counted t p = 0%Z) /\
  (forall p, lookup t p = Some (File None) -> counted t p = 0%Z).
Proof.
  intros Hu. split; [now apply dir_size_bytes_sum|].
  split; [apply dir_size_bytes_counted|].
  split; intros; erewrite counted_lookup; eauto; reflexivity.
Qed.

Lemma dir_size_bytes_regular_files_witness :
  unique_names tree_with_link = true /\
  lookup tree_with_link [py "a"; py "big"] = Some (LinkFile (Some 1000000%Z)) /\
  dir_size_bytes tree_with_link = 15%Z.
Proof.
  assert (Hu : unique_names tree_with_link = true) by reflexivity.
  destruct (dir_size_bytes_regular_files tree_with_link Hu) as [H _].
  split; [exact Hu|]. split; [reflexivity|].
  rewrite H. reflexivity.
Defined.

(** C10: a symbolic link to a file is an entry of the manifest, with the
    size of its target (0 when that cannot be read), while
    [dir_size_bytes] leaves links out: the sizes of the manifest add up
    to [dir_size_bytes] plus the sizes of the targets of the links. *)
Theorem backup_files_lists_links t p st :
  lookup t p = Some (LinkFile st) -> p <> [] ->
  In (relpath p, match st with Some n => n | None => 0%Z end) (backup_files t)
  /\
  (unique_names t = true ->
   zsum (map snd (backup_files t))
   = (dir_size_bytes t + dir_sum link_target_size t)%Z).
Proof.
  intros Hl Hp. split.
  - apply (Permutation_in _ (backup_files_perm t)).
    rewrite collect_files_listed, walk_files_all_files.
    apply in_map_iff. exists p. split.
    + f_equal. unfold listed, getsize. now rewrite Hl.
    + apply in_map_iff. exists (p, LinkFile st). split; [reflexivity|].
      now apply (all_files_lookup p t [] (LinkFile st)).
  - intros Hu.
    rewrite <- (zsum_perm _ _ (Permutation_map snd (backup_files_perm t))).
    rewrite collect_files_sum, dir_size_bytes_sum by exact Hu.
    apply dir_sum_add. intros [[s|]|[s|]| |]; cbn; lia.
Qed.

Lemma backup_files_lists_links_witness :
  lookup tree_with_link [py "a"; py "big"] = Some (LinkFile (Some 1000000%Z)) /\
  In (py "a/big", 1000000%Z) (backup_files tree_with_link) /\
  zsum (map snd (backup_files tree_with_link)) = 1000015%Z /\
  (dir_size_bytes tree_with_link < zsum (map snd (backup_files tree_with_link)))%Z.
Proof.
  assert (Hl : lookup tree_with_link [py "a"; py "big"]
               = Some (LinkFile (Some 1000000%Z))) by reflexivity.
  assert (Hp : [py "a"; py "big"] <> []) by discriminate.
  destruct (backup_files_lists_links tree_with_link _ _ Hl Hp) as [Hin Hsum].
  split; [exact Hl|]. split; [exact Hin|].
  rewrite (Hsum eq_refl). split; vm_compute; reflexivity.
Defined.

(** ** Container names *)

Lemma startswith_app s p : startswith s p = true -> s = p ++ skipn (length p) s.
Proof.
  revert s. induction p as [|a p IH]; intros s; [reflexivity|].
  destruct s as [|b s]; [discriminate|]. cbn [startswith length skipn app].
  intros H. apply andb_true_iff in H as [H1 H2]. apply N.eqb_eq in H1.
  subst. f_equal. now apply IH.
Qed.

Lemma find_from_spec sub : forall s i j,
  find_from i s sub = j -> j <> (-1)%Z -> (0 <= i)%Z ->
  exists before,
    s = before ++ sub ++ skipn (length before + length sub) s /\
    j = (i + Z.of_nat (length before))%Z.
Proof.
  induction s as [|c s IH]; intros i j.
  - cbn [find_from]. destruct (startswith [] sub) eqn:E.
    + intros <- _ _. exists []. split; [|simpl; lia].
      now apply startswith_app in E.
    + intros <- H. congruence.
  - cbn [find_from]. destruct (startswith (c :: s) sub) eqn:E.
    + intros <- _ _. exists []. split; [|simpl; lia].
      now apply startswith_app in E.
    + intros Hj Hn Hi.
      destruct (IH _ _ Hj Hn ltac:(lia)) as (before & Hs & Hidx).
      exists (c :: before). split.
      * cbn [app length Nat.add skipn]. f_equal. exact Hs.
      * cbn [length]. lia.
Qed.

Lemma tail_after_marker path marker :
  str_find path marker <> (-1)%Z ->
  exists before,
    path = before ++ marker
           ++ skipn (Z.to_nat (str_find path marker + Z.of_nat (length marker)))
                    path.
Proof.
  intros Hn.
  destruct (find_from_spec marker path 0%Z _ eq_refl Hn ltac:(lia))
    as (before & Hs & Hidx).
  exists before. unfold str_find in *. rewrite Hidx.
  replace (Z.to_nat (0 + Z.of_nat (length before) + Z.of_nat (length marker)))
    with (length before + length marker) by lia.
  exact Hs.
Qed.

Lemma break_at_spec c s : forall p r,
  break_at c s = (p, r) ->
  ~ In c p /\
  match r with
  | None => s = p
  | Some r' => s = p ++ c :: r'
  end.
Proof.
  induction s as [|x s IH]; intros p r; cbn [break_at].
  - intros [= <- <-]. auto.
  - destruct (N.eqb_spec x c) as [->|Hne].
    + intros [= <- <-]. auto.
    + destruct (break_at c s) as [p' r'] eqn:E. intros [= <- <-].
      destruct (IH _ _ eq_refl) as [Hnotin Hs]. split.
      * intros [H|H]; auto.
      * destruct r'; cbn [app]; now f_equal.
Qed.

Lemma split_char_1_hd c s : hd [] (split_char c 1 s) = fst (break_at c s).
Proof.
  cbn [split_char]. now destruct (break_at c s) as [p [r|]].
Qed.

(** The identifier is the tail up to the next ['/'] or ['.']. *)
Lemma truncate_tail tail :
  let cid := hd [] (split_char dot 1 (hd [] (split_char slash 1 tail))) in
  exists rest,
    tail = cid ++ rest /\ ~ In slash cid /\ ~ In dot cid /\
    (rest = [] \/ exists c r, rest = c :: r /\ (c = slash \/ c = dot)).
Proof.
  cbn zeta. rewrite !split_char_1_hd.
  destruct (break_at slash tail) as [a r1] eqn:E1.
  destruct (break_at_spec _ _ _ _ E1) as [Ha Htail].
  cbn [fst]. destruct (break_at dot a) as [cid r2] eqn:E2.
  destruct (break_at_spec _ _ _ _ E2) as [Hc Hcid]. cbn [fst].
  assert (Hs : ~ In slash cid).
  { intros H. apply Ha. destruct r2; subst a; auto using in_or_app. }
  destruct r2 as [r2|]; destruct r1 as [r1|]; subst.
  - exists (dot :: r2 ++ slash :: r1). rewrite <- app_assoc.
    repeat split; auto. right. eauto.
  - exists (dot :: r2). repeat split; auto. right. eauto.
  - exists (slash :: r1). repeat split; auto. right. eauto.
  - exists []. rewrite app_nil_r. repeat split; auto.
Qed.

Lemma scan_markers_spec path ms cid :
  scan_markers path ms = Some cid ->
  12 <= length cid /\
  exists before marker rest,
    In marker ms /\ path = before ++ marker ++ cid ++ rest /\
    ~ In slash cid /\ ~ In dot cid /\
    (rest = [] \/ exists c r, rest = c :: r /\ (c = slash \/ c = dot)).
Proof.
  induction ms as [|marker ms IH]; cbn [scan_markers]; [discriminate|].
  destruct (Z.eqb_spec (str_find path marker) (-1)) as [E|E].
  - intros H. destruct (IH H) as (Hl & b & m & r & Hin & Hrest).
    split; [exact Hl|]. exists b, m, r. split; [now right|exact Hrest].
  - set (tail := skipn _ path).
    destruct (12 <=? length _) eqn:El.
    + intros [= <-]. apply Nat.leb_le in El. split; [exact El|].
      destruct (tail_after_marker path marker E) as (before & Hp).
      fold tail in Hp.
      destruct (truncate_tail tail) as (rest & Ht & Hs & Hd & Hr).
      exists before, marker, rest. split; [now left|].
      split; [|auto]. etransitivity; [exact Hp|]. do 2 f_equal. exact Ht.
    + intros H. destruct (IH H) as (Hl & b & m & r & Hin & Hrest).
      split; [exact Hl|]. exists b, m, r. split; [now right|exact Hrest].
Qed.

Lemma split_char_2_spec line x y path :
  split_char colon 2 line = [x; y; path] ->
  line = x ++ colon :: y ++ colon :: path /\ ~ In colon x /\ ~ In colon y.
Proof.
  cbn [split_char].
  destruct (break_at colon line) as [p [r|]] eqn:E1; [|discriminate].
  destruct (break_at colon r) as [q [r'|]] eqn:E2; [|discriminate].
  intros [= <- <- <-].
  destruct (break_at_spec _ _ _ _ E1) as [H1 ->].
  destruct (break_at_spec _ _ _ _ E2) as [H2 ->]. auto.
Qed.

Lemma line_id_spec line cid :
  line_id line = Some cid -> 12 <= length cid /\ id_in_line line cid.
Proof.
  unfold line_id.
  destruct (split_char colon 2 line) as [|x [|y [|path [|? ?]]]] eqn:E;
    try discriminate.
  intros H. apply scan_markers_spec in H
    as (Hl & before & marker & rest & Hin & Hp & Hs & Hd & Hr).
  split; [exact Hl|].
  apply split_char_2_spec in E as (-> & Hx & Hy).
  exists x, y, before, marker, rest. subst path. repeat split; auto.
Qed.

Lemma scan_cgroups_line_id line rest :
  scan_cgroups (line :: rest)
  = match line_id line with
    | Some cid => Some cid
    | None => scan_cgroups rest
    end.
Proof.
  cbn [scan_cgroups]. unfold line_id.
  destruct (split_char colon 2 line) as [|x [|y [|path [|? ?]]]]; reflexivity.
Qed.

(** The scan ends at the first line that gives an identifier. *)
Lemma scan_cgroups_first pre : forall line post cid,
  (forall l, In l pre -> line_id l = None) ->
  line_id line = Some cid ->
  scan_cgroups (pre ++ line :: post) = Some cid.
Proof.
  induction pre as [|l pre IH]; intros line post cid Hpre Hline.
  - cbn [app]. now rewrite scan_cgroups_line_id, Hline.
  - cbn [app]. rewrite scan_cgroups_line_id, (Hpre l (or_introl eq_refl)).
    apply IH; auto. intros l' Hl'. apply Hpre. now right.
Qed.

Lemma scan_cgroups_none lns :
  (forall l, In l lns -> line_id l = None) -> scan_cgroups lns = None.
Proof.
  induction lns as [|l lns IH]; intros H; [reflexivity|].
  rewrite scan_cgroups_line_id, (H l (or_introl eq_refl)).
  apply IH. intros l' Hl'. apply H. now right.
Qed.

Lemma lstrip_char_spec c s :
  exists k, s = repeat c k ++ lstrip_char c s /\
            startswith (lstrip_char c s) [c] = false.
Proof.
  induction s as [|x s (k & Hs & Hn)]; cbn [lstrip_char].
  - exists 0. auto.
  - destruct (N.eqb_spec x c) as [->|Hne].
    + exists (S k). cbn [repeat app]. split; [now f_equal|exact Hn].
    + exists 0. split; [reflexivity|]. cbn [startswith].
      apply andb_false_iff. left. apply N.eqb_neq. congruence.
Qed.

(** C3, as the program has it: the result is [None] when the cgroup file
    cannot be read, when no line gives an identifier, and when the
    inspection fails or prints nothing; the scan ends at the first line
    that gives an identifier, which has at least 12 characters and is
    the text after a marker up to the next ['/'] or ['.']; the name is
    returned without any of its leading ['/'] characters. *)
Theorem docker_name_by_pid_result os pid :
  (read_cgroup os pid = None -> docker_name_by_pid os pid = None) /\
  (forall text,
      read_cgroup os pid = Some text ->
      (forall l, In l (splitlines text) -> line_id l = None) ->
      docker_name_by_pid os pid = None) /\
  (forall text pre line post cid,
      read_cgroup os pid = Some text ->
      splitlines text = pre ++ line :: post ->
      (forall l, In l pre -> line_id l = None) ->
      line_id line = Some cid ->
      12 <= length cid /\ id_in_line line cid /\
      (forall e, docker_inspect os cid = Raised e ->
                 docker_name_by_pid os pid = None) /\
      (forall raw, docker_inspect os cid = Output raw ->
         (strip raw = [] \/ startswith (strip raw) (py "ERR") = true ->
          docker_name_by_pid os pid = None) /\
         (strip raw <> [] -> startswith (strip raw) (py "ERR") = false ->
          exists k name,
            strip raw = repeat slash k ++ name /\
            startswith name [slash] = false /\
            docker_name_by_pid os pid = Some name))).
Proof.
  unfold docker_name_by_pid. split; [intros ->; reflexivity|]. split.
  - intros text -> H. now rewrite scan_cgroups_none.
  - intros text pre line post cid -> Hs Hpre Hline.
    destruct (line_id_spec _ _ Hline) as [Hl Hid].
    rewrite Hs, (scan_cgroups_first pre line post cid Hpre Hline).
    split; [exact Hl|]. split; [exact Hid|]. split.
    + intros e ->. reflexivity.
    + intros raw ->. cbn [sh]. split.
      * intros [E|E]; rewrite E; [reflexivity|].
        destruct (startswith (py "") (py "ERR")); reflexivity.
      * intros Hne Herr. rewrite Herr.
        destruct (strip raw) as [|c s] eqn:E; [congruence|].
        cbn [orb]. destruct (lstrip_char_spec slash (c :: s)) as (k & Hk & Hn).
        exists k, (lstrip_char slash (c :: s)). auto.
Qed.

Lemma docker_name_by_pid_result_witness :
  docker_name_by_pid os_two_slashes (py "1") = Some (py "web") /\
  exists k, py "//web" = repeat slash k ++ py "web".
Proof.
  destruct (docker_name_by_pid_result os_two_slashes (py "1")) as (_ & _ & H).
  destruct (H (py "12:memory:/docker/0123456789abcdef0123.scope") []
              (py "12:memory:/docker/0123456789abcdef0123.scope") []
              (py "0123456789abcdef0123")
              eq_refl eq_refl
              (fun l (F : In l []) => match F with end) eq_refl)
    as (_ & _ & _ & Hout).
  destruct (Hout (py "//web") eq_refl) as [_ Hname].
  destruct (Hname ltac:(discriminate) eq_refl) as (k & name & Hk & Hn & Hres).
  assert (E : Some name = Some (py "web")) by (rewrite <- Hres; reflexivity).
  injection E as E. subst name. split; [exact Hres|]. exists k. exact Hk.
Defined.

(** A name that is reported as [//web] comes back as [web]: both
    slashes are removed, not one. *)
Lemma docker_name_strips_every_slash :
  sh (docker_inspect os_two_slashes (py "0123456789abcdef0123")) = py "//web" /\
  docker_name_by_pid os_two_slashes (py "1") = Some (py "web") /\
  docker_name_by_pid os_two_slashes (py "1")
  <> Some (strip_one_slash (py "//web")).
Proof.
  split; [reflexivity|]. split; [reflexivity|]. vm_compute. discriminate.
Qed.

(** ** The process ranker *)

Lemma lstrip_ws_head s c r : lstrip_ws s = c :: r -> isspace c = false.
Proof.
  induction s as [|x s IH]; cbn [lstrip_ws]; [discriminate|].
  destruct (isspace x) eqn:E; [exact IH|]. now intros [= <- <-].
Qed.

Lemma count_fields_lstrip s : num_fields s = num_fields (lstrip_ws s).
Proof.
  unfold num_fields. induction s as [|x s IH]; [reflexivity|].
  cbn [lstrip_ws count_fields]. destruct (isspace x) eqn:E; [exact IH|].
  cbn [count_fields]. now rewrite E.
Qed.

Lemma count_fields_take_word s : forall w r,
  take_word s = (w, r) -> count_fields true s = num_fields r.
Proof.
  unfold num_fields. induction s as [|x s IH]; intros w r; cbn [take_word].
  - intros [= <- <-]. reflexivity.
  - cbn [count_fields]. destruct (isspace x) eqn:E.
    + intros [= <- <-]. cbn [count_fields]. now rewrite E.
    + destruct (take_word s) as [w' r'] eqn:Et. intros [= <- <-].
      cbn [Nat.add]. now apply (IH w').
Qed.

Lemma length_split_ws k : forall s,
  length (split_ws k s) = Nat.min (S k) (num_fields s).
Proof.
  induction k as [|k IH]; intros s; cbn [split_ws];
    rewrite (count_fields_lstrip s);
    destruct (lstrip_ws s) as [|c r] eqn:E; try reflexivity;
    pose proof (lstrip_ws_head _ _ _ E) as Hc;
    unfold num_fields; cbn [count_fields]; rewrite Hc.
  - cbn [length]. lia.
  - cbn [take_word]. rewrite Hc.
    destruct (take_word r) as [w r'] eqn:Et. cbn [length].
    rewrite IH, (count_fields_take_word _ _ _ Et). lia.
Qed.

Lemma collect_rows_acc os lns : forall rows,
  collect_rows os lns rows = rows ++ collect_rows os lns [].
Proof.
  induction lns as [|ln lns IH]; intros rows; cbn [collect_rows].
  - now rewrite app_nil_r.
  - destruct (length (split_ws 3 ln) <? 4); [apply IH|].
    destruct (format_row os (split_ws 3 ln)); [|apply IH].
    cbn [app]. rewrite IH, (IH [_]). now rewrite <- app_assoc.
Qed.

Lemma format_row_four os parts :
  length parts = 4 -> exists row, format_row os parts = Some row.
Proof.
  destruct parts as [|a [|b [|c [|d [|? ?]]]]]; try discriminate.
  intros _. cbn [format_row]. eauto.
Qed.

(** One row for each line with four fields or more, in their order; the
    other lines give nothing. *)
Lemma collect_rows_surviving os lns :
  Forall2 (fun ln row => length (split_ws 3 ln) = 4 /\
                         format_row os (split_ws 3 ln) = Some row)
          (surviving lns) (collect_rows os lns []).
Proof.
  induction lns as [|ln lns IH]; cbn [collect_rows surviving filter].
  - constructor.
  - pose proof (length_split_ws 3 ln) as Hl.
    destruct (4 <=? num_fields ln) eqn:E.
    + apply Nat.leb_le in E.
      assert (Hl4 : length (split_ws 3 ln) = 4) by lia.
      rewrite Hl4. cbn [Nat.ltb Nat.leb].
      destruct (format_row_four os _ Hl4) as (row & Hrow).
      rewrite Hrow, collect_rows_acc. cbn [app].
      constructor; [auto|exact IH].
    + apply Nat.leb_gt in E.
      replace (length (split_ws 3 ln) <? 4) with true
        by (symmetry; apply Nat.ltb_lt; lia).
      exact IH.
Qed.

Lemma format_row_row_of os parts row :
  format_row os parts = Some row ->
  exists pid pcpu pmem comm,
    parts = [pid; pcpu; pmem; comm] /\
    row = row_of (docker_name_by_pid os) pid pcpu pmem comm.
Proof.
  destruct parts as [|pid [|pcpu [|pmem [|comm [|? ?]]]]]; try discriminate.
  cbn [format_row]. intros [= <-]. exists pid, pcpu, pmem, comm.
  split; [reflexivity|]. unfold row_of.
  destruct (str_eqb comm (py "apache2")); [|reflexivity].
  now destruct (docker_name_by_pid os pid) as [[|c name]|].
Qed.

(** C8: fewer than two lines give ["n/a"]; otherwise the first line, the
    header, is left out, every other line with fewer than four
    whitespace-separated fields is skipped, each of the remaining lines
    gives one row, in order, and the result is ["n/a"] when no row is
    left.  The row of a line is made of its four fields, the fourth being
    the rest of the line, with the whole name of the container behind the
    command [apache2]. *)
Theorem top5_processes_rows os sort :
  let order := if str_eqb sort (py "cpu") then py "-pcpu" else py "-pmem" in
  let lns := splitlines (sh (ps os order)) in
  (length lns < 2 -> top5_processes os sort = py "n/a") /\
  exists rows,
    Forall2 (fun ln row => length (split_ws 3 ln) = 4 /\
                           format_row os (split_ws 3 ln) = Some row /\
                           exists pid pcpu pmem comm,
                             split_ws 3 ln = [pid; pcpu; pmem; comm] /\
                             row = row_of (docker_name_by_pid os)
                                          pid pcpu pmem comm)
            (surviving (tl lns)) rows /\
    (2 <= length lns ->
     top5_processes os sort
     = match rows with
       | [] => py "n/a"
       | _ => join [nl] rows
       end).
Proof.
  intros order lns. unfold top5_processes. fold order. fold lns. split.
  - intros H. apply Nat.ltb_lt in H. now rewrite H.
  - exists (collect_rows os (tl lns) []).
    split.
    + eapply Forall2_impl; [|apply collect_rows_surviving].
      intros ln row [H4 Hrow]. split; [exact H4|]. split; [exact Hrow|].
      now apply (format_row_row_of os).
    + intros H. apply Nat.ltb_ge in H. rewrite H.
      now destruct (collect_rows os (tl lns) []).
Qed.

Lemma top5_processes_rows_witness :
  2 <= length (splitlines (sh (ps os_listing (py "-pcpu")))) /\
  surviving (tl (splitlines (sh (ps os_listing (py "-pcpu")))))
  = [py "    1  0.5  1.0 systemd"; py "   22  3.0  4.5 my prog"] /\
  top5_processes os_listing (py "cpu")
  = py "    1    0.5%    1.0%  systemd" ++ [nl]
      ++ py "   22    3.0%    4.5%  my prog" /\
  docker_name_by_pid os_apache (py "310") = Some (py "web") /\
  top5_processes os_apache (py "ram")
  = py "  310    1.5%    2.0%  apache2 (docker: web)" ++ [nl]
      ++ py "  311    0.1%    0.2%  nginx".
Proof.
  destruct (top5_processes_rows os_apache (py "ram")) as (_ & rows' & HF' & H').
  destruct (top5_processes_rows os_listing (py "cpu")) as (_ & rows & HF & H).
  assert (Hlen : 2 <= length (splitlines (sh (ps os_listing (py "-pcpu")))))
    by (vm_compute; lia).
  assert (Hlen' : 2 <= length (splitlines (sh (ps os_apache (py "-pmem")))))
    by (vm_compute; lia).
  split; [exact Hlen|]. split; [reflexivity|]. split; [|split].
  - rewrite (H Hlen). clear H.
    change (surviving _) with
      [py "    1  0.5  1.0 systemd"; py "   22  3.0  4.5 my prog"] in HF.
    inversion HF as [|? r1 ? rs1 (_ & H1 & _) HF1]; subst.
    inversion HF1 as [|? r2 ? rs2 (_ & H2 & _) HF2]; subst.
    inversion HF2; subst.
    vm_compute in H1, H2. injection H1 as <-. injection H2 as <-.
    reflexivity.
  - vm_compute. reflexivity.
  - rewrite (H' Hlen'). clear H'.
    change (surviving _) with
      [py "  310  1.5  2.0 apache2"; py "  311  0.1  0.2 nginx"] in HF'.
    inversion HF' as [|? r1 ? rs1 (_ & _ & p1 & c1 & m1 & n1 & E1 & R1) HF1];
      subst.
    inversion HF1 as [|? r2 ? rs2 (_ & _ & p2 & c2 & m2 & n2 & E2 & R2) HF2];
      subst.
    inversion HF2; subst.
    vm_compute in E1, E2. injection E1 as <- <- <- <-.
    injection E2 as <- <- <- <-.
    vm_compute. reflexivity.
Defined.

(** ** Rounding to binary64 *)

Section Rounding.
Local Open Scope Q_scope.

Lemma pow2_pos z : (0 < 2 ^ z)%Z \/ (z < 0)%Z.
Proof.
  destruct (Z.lt_ge_cases z 0); [now right|left].
  apply Z.pow_pos_nonneg; lia.
Qed.

Lemma inject_Z_pos z : (0 < z)%Z -> 0 < inject_Z z.
Proof. intros H. unfold Qlt, inject_Z. simpl. lia. Qed.

Lemma scale_down_mono x y e : x <= y -> scale_down x e <= scale_down y e.
Proof.
  intros H. unfold scale_down. destruct (Z.leb_spec e 0).
  - apply Qmult_le_compat_r; [exact H|].
    apply Qlt_le_weak, inject_Z_pos, Z.pow_pos_nonneg; lia.
  - unfold Qdiv. apply Qmult_le_compat_r; [exact H|].
    apply Qlt_le_weak, Qinv_lt_0_compat, inject_Z_pos, Z.pow_pos_nonneg; lia.
Qed.

Lemma scale_down_nonneg x e : 0 <= x -> 0 <= scale_down x e.
Proof.
  intros H. unfold scale_down. destruct (Z.leb_spec e 0).
  - apply Qmult_le_0_compat; [exact H|].
    apply Qlt_le_weak, inject_Z_pos, Z.pow_pos_nonneg; lia.
  - unfold Qdiv. apply Qmult_le_0_compat; [exact H|].
    apply Qlt_le_weak, Qinv_lt_0_compat, inject_Z_pos, Z.pow_pos_nonneg; lia.
Qed.

Lemma scale_up_mono m n e : (m <= n)%Z -> scale_up m e <= scale_up n e.
Proof.
  intros H. unfold scale_up. destruct (Z.leb_spec e 0).
  - unfold Qle. simpl. apply Z.mul_le_mono_nonneg_r; lia.
  - rewrite <- Zle_Qle. apply Z.mul_le_mono_nonneg_r; [|exact H].
    apply Z.lt_le_incl, Z.pow_pos_nonneg; lia.
Qed.

Lemma scale_up_nonneg m e : (0 <= m)%Z -> 0 <= scale_up m e.
Proof.
  intros H. unfold scale_up. destruct (Z.leb_spec e 0).
  - unfold Qle. simpl. lia.
  - change 0 with (inject_Z 0). rewrite <- Zle_Qle.
    apply Z.mul_nonneg_nonneg; [exact H|].
    apply Z.lt_le_incl, Z.pow_pos_nonneg; lia.
Qed.

Lemma scale_up_down y n e : scale_down y e == inject_Z n -> scale_up n e == y.
Proof.
  unfold scale_down, scale_up. destruct (Z.leb_spec e 0) as [He|He]; intros H.
  - assert (Hp : (0 < 2 ^ (- e))%Z) by (apply Z.pow_pos_nonneg; lia).
    rewrite (Qmake_Qdiv n (Z.to_pos (2 ^ (- e)))), Z2Pos.id by exact Hp.
    rewrite <- H. field.
    intros E. apply inject_Z_pos in Hp. rewrite E in Hp. now apply Qlt_irrefl in Hp.
  - assert (Hp : (0 < 2 ^ e)%Z) by (apply Z.pow_pos_nonneg; lia).
    rewrite inject_Z_mult, <- H. field.
    intros E. apply inject_Z_pos in Hp. rewrite E in Hp. now apply Qlt_irrefl in Hp.
Qed.

Lemma round_half_even_nonneg y : 0 <= y -> (0 <= round_half_even y)%Z.
Proof.
  intros H. unfold round_half_even.
  assert (Hf : (0 <= Qfloor y)%Z).
  { change 0%Z with (Qfloor 0). now apply Qfloor_resp_le. }
  destruct (Qcompare _ _); [destruct (Z.even _)| |]; lia.
Qed.

Lemma round_half_even_le y n : y <= inject_Z n -> (round_half_even y <= n)%Z.
Proof.
  intros H. unfold round_half_even.
  assert (Hf : (Qfloor y <= n)%Z).
  { rewrite <- (Qfloor_Z n). now apply Qfloor_resp_le. }
  destruct (Z.eq_dec (Qfloor y) n) as [E|E].
  - assert (Hy : y <= inject_Z (Qfloor y)) by (now rewrite E).
    destruct (Qcompare (y - inject_Z (Qfloor y)) (1 # 2)) eqn:C.
    + apply Qeq_alt in C. lra.
    + lia.
    + apply Qgt_alt in C. lra.
  - destruct (Qcompare _ _); [destruct (Z.even _)| |]; lia.
Qed.

(** The exponent of the last place of [x]. *)
Lemma round_pos_nonneg x : 0 <= x -> 0 <= round_pos x.
Proof.
  intros H. unfold round_pos.
  apply scale_up_nonneg, round_half_even_nonneg, scale_down_nonneg, H.
Qed.

Lemma round_pos_le x c :
  x <= c ->
  (exists n, scale_down c (Z.max (ilog2 x - 52) (-1074)) == inject_Z n) ->
  round_pos x <= c.
Proof.
  intros H (n & Hn). unfold round_pos.
  set (e := Z.max (ilog2 x - 52) (-1074)) in *.
  rewrite <- (scale_up_down c n e Hn).
  apply scale_up_mono, round_half_even_le.
  rewrite <- Hn. now apply scale_down_mono.
Qed.

Lemma ilog2_upper x k :
  0 < x -> (0 <= k)%Z -> x <= inject_Z (2 ^ k) -> (ilog2 x <= k)%Z.
Proof.
  intros Hx Hk H. unfold ilog2.
  assert (He : (Z.log2 (Qnum x) - Z.log2 (Z.pos (Qden x)) <= k)%Z).
  { destruct x as [n d]. unfold Qle, Qlt in *.
    cbn [Qnum Qden inject_Z] in *. rewrite Z.mul_1_r in *.
    rewrite Z.mul_comm in H.
    apply Z.log2_le_mono in H.
    rewrite Z.log2_mul_pow2 in H by lia. lia. }
  destruct (Qle_bool _ _); lia.
Qed.

Lemma scale_down_int c e :
  (e <= 0)%Z -> scale_down (inject_Z c) e == inject_Z (c * 2 ^ (- e)).
Proof.
  intros H. unfold scale_down.
  destruct (Z.leb_spec e 0); [|lia]. now rewrite inject_Z_mult.
Qed.

(** Rounding keeps a value between 0 and an integer below [2^53]. *)
Lemma round_binary64_bounds x c :
  (0 <= c <= 2 ^ 52)%Z -> 0 <= x -> x <= inject_Z c ->
  0 <= round_binary64 x /\ round_binary64 x <= inject_Z c.
Proof.
  intros Hc H0 Hx. unfold round_binary64.
  destruct (Qcompare x 0) eqn:E.
  - split; [apply Qle_refl|]. change 0 with (inject_Z 0).
    rewrite <- Zle_Qle. lia.
  - apply Qlt_alt in E. exfalso. apply (Qlt_irrefl x).
    now apply Qlt_le_trans with 0.
  - apply Qgt_alt in E. split; [now apply round_pos_nonneg|].
    apply round_pos_le; [exact Hx|].
    assert (Hi : (ilog2 x <= 52)%Z).
    { apply ilog2_upper; [exact E|lia|].
      apply Qle_trans with (inject_Z c); [exact Hx|].
      rewrite <- Zle_Qle. lia. }
    exists (c * 2 ^ (- Z.max (ilog2 x - 52) (-1074)))%Z.
    apply scale_down_int. lia.
Qed.

Lemma is_finite_small r :
  0 <= r -> r <= inject_Z (2 ^ 52) -> is_finite r = true.
Proof.
  intros H0 H. unfold is_finite. apply negb_true_iff.
  destruct (Qle_bool _ _) eqn:E; [|reflexivity].
  apply Qle_bool_iff in E. rewrite Qabs_pos in E by exact H0.
  exfalso. apply (Qlt_irrefl r).
  eapply Qle_lt_trans; [exact H|]. eapply Qlt_le_trans; [|exact E].
  rewrite <- Zlt_Qlt. apply Z.pow_lt_mono_r; lia.
Qed.

Lemma round_finite x c :
  (0 <= c <= 2 ^ 52)%Z -> 0 <= x -> x <= inject_Z c ->
  is_finite (round_binary64 x) = true.
Proof.
  intros Hc H0 Hx. destruct (round_binary64_bounds x c Hc H0 Hx) as [Hl Hu].
  apply is_finite_small; [exact Hl|].
  apply Qle_trans with (inject_Z c); [exact Hu|]. rewrite <- Zle_Qle. lia.
Qed.

Lemma format_0f_nonneg x :
  0 <= x -> format_0f x = str_of_Z (round_half_even x).
Proof.
  intros H. unfold format_0f.
  destruct (Qle_bool x 0) eqn:E.
  - apply Qle_bool_iff in E.
    assert (Hx : x == 0) by (now apply Qle_antisym).
    apply Qeq_bool_iff in Hx. rewrite Hx. cbn [negb].
    now rewrite andb_false_r.
  - now rewrite andb_false_r.
Qed.

Lemma ratio_bounds di dt :
  (0 < dt)%Z -> (0 <= di <= dt)%Z ->
  0 <= Qmake di 1 / Qmake dt 1 /\ Qmake di 1 / Qmake dt 1 <= inject_Z 1.
Proof.
  intros Hdt Hdi.
  assert (Hd : 0 < Qmake dt 1) by (unfold Qlt; simpl; lia).
  split.
  - apply Qle_shift_div_l; [exact Hd|]. rewrite Qmult_0_l.
    unfold Qle. cbn [Qnum Qden]. lia.
  - apply Qle_shift_div_r; [exact Hd|]. rewrite Qmult_1_l.
    unfold Qle. cbn [Qnum Qden]. lia.
Qed.

Lemma scale_down_pow2 k e :
  (0 <= e <= k)%Z ->
  scale_down (inject_Z (2 ^ k)) e == inject_Z (2 ^ (k - e)).
Proof.
  intros H. unfold scale_down. destruct (Z.leb_spec e 0) as [He|He].
  - replace e with 0%Z by lia. rewrite Z.sub_0_r. cbn [Z.opp Z.pow]. ring.
  - assert (Hp : (0 < 2 ^ e)%Z) by (apply Z.pow_pos_nonneg; lia).
    replace (2 ^ k)%Z with (2 ^ (k - e) * 2 ^ e)%Z
      by (rewrite <- Z.pow_add_r by lia; f_equal; lia).
    rewrite inject_Z_mult. field.
    intros E. apply inject_Z_pos in Hp. rewrite E in Hp. now apply Qlt_irrefl in Hp.
Qed.

(** [float(n)] exists for every size up to [2^1023]. *)
Lemma float_of_int_total n :
  (0 <= n <= 2 ^ 1023)%Z -> exists x, float_of_int n = Some x.
Proof.
  intros Hn. unfold float_of_int.
  assert (H0 : 0 <= inject_Z n) by (change 0 with (inject_Z 0); rewrite <- Zle_Qle; lia).
  assert (Hu : inject_Z n <= inject_Z (2 ^ 1023)) by (rewrite <- Zle_Qle; lia).
  assert (Hr : 0 <= round_binary64 (inject_Z n)
               /\ round_binary64 (inject_Z n) <= inject_Z (2 ^ 1023)).
  { unfold round_binary64. destruct (Qcompare (inject_Z n) 0) eqn:E.
    - split; [apply Qle_refl|]. change 0 with (inject_Z 0).
      rewrite <- Zle_Qle. apply Z.pow_nonneg. lia.
    - apply Qlt_alt in E. exfalso. apply (Qlt_irrefl (inject_Z n)).
      now apply Qlt_le_trans with 0.
    - apply Qgt_alt in E. split; [now apply round_pos_nonneg|].
      apply round_pos_le; [exact Hu|].
      assert (Hi : (ilog2 (inject_Z n) <= 1023)%Z)
        by (apply ilog2_upper; [exact E|lia|exact Hu]).
      set (e := Z.max (ilog2 (inject_Z n) - 52) (-1074)).
      destruct (Z.le_gt_cases e 0) as [He|He].
      + exists (2 ^ 1023 * 2 ^ (- e))%Z. now apply scale_down_int.
      + exists (2 ^ (1023 - e))%Z. apply scale_down_pow2. lia. }
  destruct Hr as [Hr0 Hr1].
  assert (Hf : is_finite (round_binary64 (inject_Z n)) = true).
  { unfold is_finite. apply negb_true_iff.
    destruct (Qle_bool _ _) eqn:E; [|reflexivity].
    apply Qle_bool_iff in E. rewrite Qabs_pos in E by exact Hr0.
    exfalso. apply (Qlt_irrefl (round_binary64 (inject_Z n))).
    eapply Qle_lt_trans; [exact Hr1|]. eapply Qlt_le_trans; [|exact E].
    rewrite <- Zlt_Qlt. apply Z.pow_lt_mono_r; lia. }
  rewrite Hf. eauto.
Qed.

End Rounding.

(** ** The CPU usage sampler *)

Lemma cpu_usage_str_samples v1 v2 s1 :
  read_stat v1 = Some s1 ->
  cpu_usage_str (Some v1) (Some v2) = cpu_usage_of (Some s1) (read_stat v2).
Proof. intros H. unfold cpu_usage_str. now rewrite H. Qed.

(** C6: for the samples [(t1, i1)] and [(t2, i2)] read from the two
    contents of [/proc/stat], the result is ["n/a"] when the total ticks
    did not advance, and nothing is divided; when [0 <= di <= dt] and
    [0 < dt] the result is the decimal digits of an integer from 0 to 100
    followed by ["%"]. *)
Theorem cpu_usage_str_range v1 v2 t1 i1 t2 i2 :
  read_stat v1 = Some (t1, i1) -> read_stat v2 = Some (t2, i2) ->
  ((t2 - t1 <= 0)%Z -> cpu_usage_str (Some v1) (Some v2) = py "n/a") /\
  ((0 < t2 - t1)%Z -> (0 <= i2 - i1 <= t2 - t1)%Z ->
   exists k, (0 <= k <= 100)%Z /\
     cpu_usage_str (Some v1) (Some v2) = str_of_Z k ++ py "%").
Proof.
  intros Hs1 Hs2. rewrite (cpu_usage_str_samples _ _ _ Hs1), Hs2.
  cbn [cpu_usage_of]. split.
  - intros H. apply Z.leb_le in H. now rewrite H.
  - intros Hdt Hdi.
    set (dt := (t2 - t1)%Z) in *. set (di := (i2 - i1)%Z) in *.
    replace (dt <=? 0)%Z with false by (symmetry; apply Z.leb_gt; lia).
    destruct (ratio_bounds di dt Hdt Hdi) as [Hx0 Hx1].
    assert (Hc1 : (0 <= 1 <= 2 ^ 52)%Z) by (split; [lia|vm_compute; discriminate]).
    assert (Hc100 : (0 <= 100 <= 2 ^ 52)%Z) by (split; [lia|vm_compute; discriminate]).
    unfold int_truediv.
    rewrite (round_finite _ 1 Hc1 Hx0 Hx1).
    destruct (round_binary64_bounds _ 1 Hc1 Hx0 Hx1) as [Hq0 Hq1].
    set (q := round_binary64 (Qmake di 1 / Qmake dt 1)) in *.
    change (inject_Z 1) with 1%Q in Hq1.
    assert (Hd0 : (0 <= 1 - q)%Q) by lra.
    assert (Hd1 : (1 - q <= inject_Z 1)%Q) by (change (inject_Z 1) with 1%Q; lra).
    unfold fsub. rewrite (round_finite _ 1 Hc1 Hd0 Hd1).
    destruct (round_binary64_bounds _ 1 Hc1 Hd0 Hd1) as [He0 He1].
    set (d := round_binary64 (1 - q)) in *.
    change (inject_Z 1) with 1%Q in He1.
    assert (Hu0 : (0 <= d * 100)%Q) by lra.
    assert (Hu1 : (d * 100 <= inject_Z 100)%Q)
      by (change (inject_Z 100) with 100%Q; lra).
    unfold fmul. rewrite (round_finite _ 100 Hc100 Hu0 Hu1).
    destruct (round_binary64_bounds _ 100 Hc100 Hu0 Hu1) as [Hv0 Hv1].
    set (usage := round_binary64 (d * 100)) in *.
    exists (round_half_even usage). split.
    + split; [now apply round_half_even_nonneg|now apply round_half_even_le].
    + now rewrite format_0f_nonneg.
Qed.

Lemma cpu_usage_str_range_witness :
  read_stat [10; 0; 5; 80; 5]%Z = Some (100, 85)%Z /\
  read_stat [60; 0; 5; 120; 15]%Z = Some (200, 135)%Z /\
  (exists k, (0 <= k <= 100)%Z /\
     cpu_usage_str (Some [10; 0; 5; 80; 5]%Z) (Some [60; 0; 5; 120; 15]%Z)
     = str_of_Z k ++ py "%") /\
  cpu_usage_str (Some [10; 0; 5; 80; 5]%Z) (Some [60; 0; 5; 120; 15]%Z)
  = py "50%" /\
  cpu_usage_str (Some [10; 0; 5; 80; 5]%Z) (Some [10; 0; 5; 80; 5]%Z)
  = py "n/a".
Proof.
  assert (H1 : read_stat [10; 0; 5; 80; 5]%Z = Some (100, 85)%Z) by reflexivity.
  assert (H2 : read_stat [60; 0; 5; 120; 15]%Z = Some (200, 135)%Z)
    by reflexivity.
  destruct (cpu_usage_str_range _ _ _ _ _ _ H1 H2) as [_ H].
  destruct (cpu_usage_str_range _ _ _ _ _ _ H1 H1) as [H0 _].
  split; [exact H1|]. split; [exact H2|].
  split; [apply H; lia|]. split; [reflexivity|].
  apply H0. lia.
Defined.

(** ** The manifest report *)

Lemma human_size_total n :
  (0 <= n <= 2 ^ 1023)%Z -> exists h, human_size n = Some h.
Proof.
  intros H. unfold human_size.
  destruct (float_of_int_total n H) as (x & ->). eauto.
Qed.

(** One candidate line for each file, in the order of the files. *)
Lemma file_lines_spec files : forall candidates,
  file_lines files = Some candidates ->
  Forall2 (fun f c => exists h, human_size (snd f) = Some h /\
                                c = fst f ++ py " (" ++ h ++ py ")")
          files candidates.
Proof.
  induction files as [|[rel_path size_bytes] files IH]; intros candidates;
    cbn [file_lines].
  - intros [= <-]. constructor.
  - destruct (human_size size_bytes) as [h|] eqn:Eh; [|discriminate].
    destruct (file_lines files) as [ls|]; [|discriminate].
    intros [= <-]. constructor; [|now apply IH].
    exists h. auto.
Qed.

Lemma file_lines_total files :
  Forall (fun f => (0 <= snd f <= 2 ^ 1023)%Z) files ->
  exists candidates, file_lines files = Some candidates.
Proof.
  induction 1 as [|[rel_path size_bytes] files Hf _ (ls & IH)];
    cbn [file_lines]; [eauto|].
  cbn [snd] in Hf. destruct (human_size_total _ Hf) as (h & ->).
  rewrite IH. eauto.
Qed.

(** C7, as the program has it: an empty inventory gives the message of
    the empty list for every index; in an inventory of [n >= 1] backups
    an index below 1 or above [n] gives the message of the wrong number
    with the range [1..n]; a selected backup whose directory is not there
    gives the message that it was not found; otherwise the files are
    sorted by their relative path, a backup without files gives a message
    of its own, and the report has one candidate line for each file in
    that order. *)
Theorem backup_files_text_cases cfg env index :
  let backups := list_backups cfg env in
  let n := length backups in
  (backups = [] -> backup_files_text cfg env index = Some msg_empty) /\
  (backups <> [] -> (index < 1 \/ Z.of_nat n < index)%Z ->
   backup_files_text cfg env index = Some (msg_bad_index index n)) /\
  ((1 <= index <= Z.of_nat n)%Z ->
   exists ts folder base_dir,
     nth_error backups (Z.to_nat (index - 1)) = Some (ts, folder, base_dir) /\
     (isdir env (path_join base_dir folder) = false ->
      backup_files_text cfg env index = Some (msg_not_on_disk index)) /\
     (isdir env (path_join base_dir folder) = true ->
      let files := backup_files (tree env (path_join base_dir folder)) in
      StronglySorted (fun a b => str_leb (fst a) (fst b) = true) files /\
      Permutation (collect_files (tree env (path_join base_dir folder))) files /\
      (files = [] ->
       backup_files_text cfg env index = Some (msg_no_files index ts)) /\
      (files <> [] ->
       (file_lines files = None -> backup_files_text cfg env index = None) /\
       (Forall (fun f => (0 <= snd f <= 2 ^ 1023)%Z) files ->
        exists candidates,
          Forall2 (fun f c => exists h, human_size (snd f) = Some h /\
                                        c = fst f ++ py " (" ++ h ++ py ")")
                  files candidates /\
          backup_files_text cfg env index
          = Some (fenced (bounded_lines max_len [files_header index ts]
                            candidates files_trailer)))))).
Proof.
  intros backups n. unfold backup_files_text. fold backups. fold n.
  split; [intros ->; reflexivity|]. split.
  - intros Hne Hidx. destruct backups as [|b bs] eqn:Eb; [congruence|].
    replace ((index <? 1)%Z || (Z.of_nat n <? index)%Z) with true; [reflexivity|].
    symmetry. apply orb_true_iff. rewrite !Z.ltb_lt. exact Hidx.
  - intros Hidx.
    assert (Hlt : Z.to_nat (index - 1) < length backups) by (fold n; lia).
    destruct (nth_error backups (Z.to_nat (index - 1)))
      as [[[ts folder] base_dir]|] eqn:En;
      [|apply nth_error_None in En; lia].
    exists ts, folder, base_dir. split; [reflexivity|].
    assert (Hne : backups <> []).
    { intros E. rewrite E in Hlt. simpl in Hlt. lia. }
    destruct backups as [|b bs] eqn:Eb; [congruence|].
    replace ((index <? 1)%Z || (Z.of_nat n <? index)%Z) with false
      by (symmetry; apply orb_false_iff; rewrite !Z.ltb_ge; lia).
    split.
    + intros ->. reflexivity.
    + intros ->. cbn [negb]. cbn zeta.
      set (files := backup_files (tree env (path_join base_dir folder))).
      split; [apply backup_files_sorted|].
      split; [apply backup_files_perm|]. split.
      * intros ->. reflexivity.
      * intros Hf. destruct files as [|f fs] eqn:Ef; [congruence|]. split.
        -- intros ->. reflexivity.
        -- intros Hsz. destruct (file_lines_total _ Hsz) as (candidates & Hc).
           exists candidates. split; [now apply file_lines_spec|].
           now rewrite Hc.
Qed.

Lemma backup_files_text_cases_witness :
  list_backups cfg_twice env_scenario <> [] /\
  backup_files_text cfg_twice env_scenario 3
  = Some (msg_bad_index 3 (length (list_backups cfg_twice env_scenario))) /\
  backup_files_text cfg_twice env_scenario 1
  = Some (py "```" ++ [nl] ++ py "Backup #1 failai (2024-01-02 09:30):" ++ [nl]
            ++ py "a/x.txt (10 B)" ++ [nl] ++ py "b.txt (5 B)" ++ [nl]
            ++ py "```").
Proof.
  assert (Hne : list_backups cfg_twice env_scenario <> [])
    by (vm_compute; discriminate).
  destruct (backup_files_text_cases cfg_twice env_scenario 3) as (_ & H & _).
  split; [exact Hne|]. split.
  - apply H; [exact Hne|]. right. vm_compute. reflexivity.
  - vm_compute. reflexivity.
Defined.

(** With no backup at all, index 1 gives the message of the empty list,
    not the message of the wrong number with the range [1..0]. *)
Lemma backup_files_text_empty_inventory :
  list_backups cfg_backups env_no_backups = [] /\
  backup_files_text cfg_backups env_no_backups 1 = Some msg_empty /\
  backup_files_text cfg_backups env_no_backups 1
  <> Some (msg_bad_index 1 (length (list_backups cfg_backups env_no_backups))).
Proof.
  split; [reflexivity|]. split; [reflexivity|]. vm_compute. discriminate.
Qed.

(** ** The scenarios of the specification *)

Example scenario_list_backups :
  map backup_name (list_backups cfg_twice env_scenario)
  = [py "2024-01-02_09-30"; py "2024-01-01_10-00"].
Proof. reflexivity. Qed.

Example scenario_backup_files :
  backup_files (tree env_scenario (py "/backups/2024-01-02_09-30"))
  = [(py "a/x.txt", 10%Z); (py "b.txt", 5%Z)].
Proof. reflexivity. Qed.

Example scenario_human_size :
  human_size 1536 = Some (py "1.50 KiB") /\ human_size 500 = Some (py "500 B").
Proof. split; reflexivity. Qed.

Example scenario_top5_header_only :
  top5_processes
    (mkproc (fun _ => None) (fun _ => Raised [])
            (fun _ => Output (py "  PID %CPU %MEM COMMAND")))
    (py "cpu")
  = py "n/a".
Proof. reflexivity. Qed.

Example scenario_index_report :
  backups_index_text cfg_twice env_scenario
  = py "```" ++ [nl] ++ py "Backup sąrašas (naujausi viršuje):" ++ [nl]
      ++ py "  1. 2024-01-02 09:30" ++ [nl] ++ py "  2. 2024-01-01 10:00"
      ++ [nl] ++ py "```".
Proof. reflexivity. Qed.

(* ================================================================== *)
(** * Part IV: further properties of the program *)
(* ================================================================== *)

(** ** More on the bounded report *)

(** X1: at the end of the loop of a bounded report, [current_len] is the
    length accounted for the lines kept, every candidate is either among
    the lines or counted in [hidden], and the accounted length is within
    the limit whenever that of the header lines is. *)
Theorem budget_invariant limit header cands :
  let b := fold_left (add_line limit) cands (start header) in
  current_len b = accounted (lines b) /\
  hidden b + length (lines b) = length header + length cands /\
  (accounted header <= limit -> current_len b <= limit).
Proof.
  intros b. subst b.
  destruct (fold_add_line_packs limit cands (start header))
    as (kept & h & Hp & ->).
  cbn [current_len lines hidden start].
  pose proof (packs_length _ _ _ _ _ Hp) as Hl.
  repeat split.
  - fold (accounted header). now rewrite accounted_app.
  - rewrite length_app. lia.
  - intros Hh. fold (accounted header).
    apply (packs_accounted _ _ _ _ _ Hp). exact Hh.
Qed.

Lemma budget_invariant_witness :
  accounted [py "ab"] <= 10 /\
  current_len (fold_left (add_line 10) [py "cd"; py "efghijklm"; py "x"]
                 (start [py "ab"])) <= 10.
Proof.
  assert (H : accounted [py "ab"] <= 10) by (vm_compute; lia).
  split; [exact H|].
  apply (budget_invariant 10 [py "ab"] [py "cd"; py "efghijklm"; py "x"]).
  exact H.
Defined.

Lemma accounted_cons c l : accounted (c :: l) = length c + 1 + accounted l.
Proof. reflexivity. Qed.

Lemma packs_all_fit limit cands : forall cur,
  cur + accounted cands <= limit -> packs limit cur cands cands 0.
Proof.
  induction cands as [|c cands IH]; intros cur H; [constructor|].
  rewrite accounted_cons in H.
  apply packs_keep; [lia|]. apply IH. lia.
Qed.

Lemma packs_none_dropped limit cur cands kept :
  packs limit cur cands kept 0 -> cands <> [] ->
  kept = cands /\ cur + accounted cands <= limit.
Proof.
  intros H. remember 0 as h eqn:Eh. revert Eh.
  induction H as [cur|cur c cands kept h Hfit Hp IH|]; intros Eh Hne;
    [congruence| |discriminate].
  destruct cands as [|c' cands].
  - inversion Hp; subst. rewrite accounted_cons.
    change (accounted []) with 0. split; [reflexivity|lia].
  - destruct (IH Eh ltac:(discriminate)) as [-> Hle].
    split; [reflexivity|].
    rewrite accounted_cons. lia.
Qed.

Lemma bounded_lines_all_fit limit header cands trailer :
  accounted header + accounted cands <= limit ->
  bounded_lines limit header cands trailer = header ++ cands.
Proof.
  intros H.
  destruct (bounded_lines_shape limit header cands trailer)
    as (kept & h & Hp & ->).
  destruct (packs_functional _ _ _ _ _ _ _ Hp (packs_all_fit _ _ _ H))
    as [-> ->].
  cbn [trailer_lines]. now rewrite app_nil_r.
Qed.

(** X2: for a report with at least one candidate, no candidate is counted
    as hidden exactly when the header lines and all the candidates are
    together within the limit; the report is then the header followed by
    all the candidates, without a trailer line. *)
Theorem nothing_dropped_iff_all_fit limit header cands trailer :
  cands <> [] ->
  (hidden (fold_left (add_line limit) cands (start header)) = 0
   <-> accounted header + accounted cands <= limit) /\
  (accounted header + accounted cands <= limit ->
   bounded_lines limit header cands trailer = header ++ cands).
Proof.
  intros Hne.
  destruct (fold_add_line_packs limit cands (start header))
    as (kept & h & Hp & Hf).
  cbn [current_len start] in Hp. fold (accounted header) in Hp.
  assert (Hfit : accounted header + accounted cands <= limit ->
                 kept = cands /\ h = 0).
  { intros H. apply (packs_functional _ _ _ _ _ _ _ Hp).
    now apply packs_all_fit. }
  split.
  - rewrite Hf. cbn [hidden start]. split.
    + intros Hh. assert (h = 0) by lia. subst h.
      now apply packs_none_dropped in Hp.
    + intros H. destruct (Hfit H) as [_ ->]. reflexivity.
  - intros H. destruct (Hfit H) as [-> ->].
    unfold bounded_lines. rewrite Hf. unfold finish. cbn [hidden start lines].
    reflexivity.
Qed.

Lemma nothing_dropped_iff_all_fit_witness :
  [py "cd"; py "x"] <> [] /\
  accounted [py "ab"] + accounted [py "cd"; py "x"] <= 10 /\
  bounded_lines 10 [py "ab"] [py "cd"; py "x"] files_trailer
  = [py "ab"; py "cd"; py "x"].
Proof.
  assert (Hne : [py "cd"; py "x"] <> []) by discriminate.
  assert (H : accounted [py "ab"] + accounted [py "cd"; py "x"] <= 10)
    by (vm_compute; lia).
  destruct (nothing_dropped_iff_all_fit 10 [py "ab"] [py "cd"; py "x"]
              files_trailer Hne) as [_ Hall].
  split; [exact Hne|]. split; [exact H|]. exact (Hall H).
Defined.

(** *** The index report of a small inventory *)

Lemma enumerate_In {A} (l : list A) : forall s i x,
  In (i, x) (enumerate s l) -> s <= i < s + length l /\ In x l.
Proof.
  induction l as [|y l IH]; intros s i x; cbn [enumerate]; [contradiction|].
  intros [[= <- <-]|H].
  - cbn [length]. split; [lia|now left].
  - apply IH in H as [H1 H2]. cbn [length]. split; [lia|now right].
Qed.

Lemma length_enumerate {A} (l : list A) : forall s,
  length (enumerate s l) = length l.
Proof. induction l; intros s; cbn [enumerate length]; auto. Qed.

Lemma length_str_of_nat i : i < 1000 -> length (str_of_nat i) <= 3.
Proof.
  intros H.
  assert (Hall : forallb (fun i => length (str_of_nat i) <=? 3) (seq 0 1000)
                 = true) by (vm_compute; reflexivity).
  rewrite forallb_forall in Hall. apply Nat.leb_le, Hall, in_seq. lia.
Qed.

Lemma length_str_of_year y :
  (0 <= y < 10000)%Z -> length (str_of_Z y) <= 4.
Proof.
  intros H.
  apply Nat.leb_le.
  apply (below_forallb (fun y => length (str_of_Z y) <=? 4) 10000%Z);
    [vm_compute; reflexivity|exact H].
Qed.

Lemma length_rjust w s : length s <= w -> length (rjust w s) = w.
Proof.
  intros H. unfold rjust. rewrite length_app, repeat_length. lia.
Qed.

Lemma length_index_line i b :
  i < 1000 -> dt_valid (backup_ts b) = true ->
  length (index_line (i, b)) <= 21.
Proof.
  intros Hi Hv. unfold index_line. cbn [fst snd].
  unfold dt_valid, date_valid in Hv.
  repeat (apply andb_true_iff in Hv as [Hv ?]).
  repeat match goal with
         | E : (_ <=? _)%Z = true |- _ => apply Z.leb_le in E
         end.
  rewrite !length_app, (length_rjust 3) by (apply length_str_of_nat; exact Hi).
  unfold strftime, display_format. cbn [flat_map render].
  rewrite !length_app.
  pose proof (length_str_of_year (year (backup_ts b)) ltac:(lia)).
  cbn [length two_digits py utf8 map String.list_ascii_of_string]. 
  simpl length. lia.
Qed.

Lemma accounted_bound n ls :
  (forall l, In l ls -> length l <= n) -> accounted ls <= (n + 1) * length ls.
Proof.
  induction ls as [|l ls IH]; intros H; [cbn; lia|].
  rewrite accounted_cons. cbn [length].
  pose proof (H l (or_introl eq_refl)).
  specialize (IH (fun x Hx => H x (or_intror Hx))). nia.
Qed.

(** X3: with one to eighty backups in the inventory the index report
    lists all of them: the title line, then one line for each backup,
    numbered from 1 in the order of the inventory, and no trailer line. *)
Theorem index_report_lists_all cfg env :
  list_backups cfg env <> [] ->
  length (list_backups cfg env) <= 80 ->
  backups_index_text cfg env
  = fenced (py "Backup sąrašas (naujausi viršuje):"
              :: map index_line (enumerate 1 (list_backups cfg env))).
Proof.
  intros Hne Hlen. unfold backups_index_text.
  assert (Hin := fun b => list_backups_In cfg env b).
  destruct (list_backups cfg env) as [|b0 bs] eqn:E; [congruence|].
  f_equal.
  change (py "Backup sąrašas (naujausi viršuje):"
            :: map index_line (enumerate 1 (b0 :: bs)))
    with ([py "Backup sąrašas (naujausi viršuje):"]
            ++ map index_line (enumerate 1 (b0 :: bs))).
  apply bounded_lines_all_fit.
  assert (Hacc : accounted (map index_line (enumerate 1 (b0 :: bs)))
                 <= 22 * length (b0 :: bs)).
  { rewrite <- (length_enumerate (b0 :: bs) 1), <- (length_map index_line).
    apply (accounted_bound 21). intros l Hl.
    apply in_map_iff in Hl as ([i b] & <- & Hib).
    apply enumerate_In in Hib as [Hi Hb].
    apply length_index_line; [lia|].
    destruct (Hin b Hb) as [Hp _]. now apply parse_backup_ts_valid in Hp. }
  change (accounted [py "Backup sąrašas (naujausi viršuje):"]) with 35.
  unfold max_len. lia.
Qed.

Lemma index_report_lists_all_witness :
  list_backups cfg_backups (env_minutes 80) <> [] /\
  length (list_backups cfg_backups (env_minutes 80)) <= 80 /\
  length (splitlines (backups_index_text cfg_backups (env_minutes 80))) = 83.
Proof.
  assert (Hne : list_backups cfg_backups (env_minutes 80) <> [])
    by (vm_compute; discriminate).
  assert (Hlen : length (list_backups cfg_backups (env_minutes 80)) <= 80)
    by (vm_compute; lia).
  split; [exact Hne|]. split; [exact Hlen|].
  rewrite (index_report_lists_all _ _ Hne Hlen). vm_compute. reflexivity.
Defined.

(** ** More on the inventory *)

Section Stability.
Context {A K : Type} (key : A -> K) (leb : K -> K -> bool).
Hypothesis leb_trans :
  forall a b c, leb a b = true -> leb b c = true -> leb a c = true.
Variable k : K.

Let same (x : A) : bool := leb (key x) k && leb k (key x).

Lemma insert_desc_stable x l :
  filter same (insert_desc key leb x l) = filter same (x :: l).
Proof.
  induction l as [|y l IH]; [reflexivity|].
  cbn [insert_desc]. destruct (leb (key y) (key x)) eqn:E; [reflexivity|].
  cbn [filter] in *. rewrite IH.
  destruct (same x) eqn:Ex; [|reflexivity].
  destruct (same y) eqn:Ey; [|reflexivity].
  unfold same in Ex, Ey.
  apply andb_true_iff in Ex as [_ Ex]. apply andb_true_iff in Ey as [Ey _].
  rewrite (leb_trans _ _ _ Ey Ex) in E. discriminate.
Qed.

Lemma sort_desc_stable l :
  filter same (sort_desc key leb l) = filter same l.
Proof.
  induction l as [|x l IH]; [reflexivity|].
  cbn [sort_desc]. rewrite insert_desc_stable. cbn [filter]. now rewrite IH.
Qed.
End Stability.

Lemma lex_leb_antisym a : forall b,
  length a = length b -> lex_leb a b = true -> lex_leb b a = true -> a = b.
Proof.
  induction a as [|x a IH]; intros [|y b] Hl H1 H2; try discriminate;
    [reflexivity|].
  cbn [lex_leb] in H1, H2. cbn [length] in Hl.
  apply orb_true_iff in H1. apply orb_true_iff in H2.
  rewrite ?andb_true_iff, ?Z.ltb_lt, ?Z.eqb_eq in *.
  assert (x = y) by lia. subst y. f_equal.
  apply IH; [lia| |]; [destruct H1 as [H1|[_ H1]]|destruct H2 as [H2|[_ H2]]];
    auto; lia.
Qed.

Lemma dt_eqb_eq a b : dt_eqb a b = true <-> a = b.
Proof.
  unfold dt_eqb, dt_leb. rewrite andb_true_iff. split.
  - intros [H1 H2].
    assert (E : dt_key a = dt_key b) by (apply lex_leb_antisym; auto).
    destruct a, b. unfold dt_key in E. cbn in E. now inversion E.
  - intros ->.
    assert (H : forall l, lex_leb l l = true).
    { induction l as [|x l IH]; [reflexivity|]. cbn [lex_leb].
      now rewrite Z.eqb_refl, IH, orb_true_r. }
    now rewrite H.
Qed.

(** X4: the backups of one and the same timestamp stand in the inventory
    in the order in which the scan of the roots found them: the sort by
    descending timestamp is stable. *)
Theorem list_backups_ties_keep_scan_order cfg env ts :
  filter (fun b => dt_eqb (backup_ts b) ts) (list_backups cfg env)
  = filter (fun b => dt_eqb (backup_ts b) ts) (backups_of (scan_roots cfg env)).
Proof.
  unfold list_backups.
  apply (sort_desc_stable backup_ts dt_leb dt_leb_trans ts).
Qed.

Lemma scan_entries_complete base pre e post ts :
  (forall x, In x pre -> d_is_dir x <> None) ->
  d_is_dir e = Some true -> parse_backup_ts (d_name e) = Some ts ->
  In (ts, d_name e, base) (scan_entries base (pre ++ e :: post) []).
Proof.
  intros Hpre He Hp. induction pre as [|x pre IH]; cbn [app scan_entries].
  - rewrite He, Hp, scan_entries_acc. now left.
  - assert (Hx := Hpre x (or_introl eq_refl)).
    specialize (IH (fun y Hy => Hpre y (or_intror Hy))).
    destruct (d_is_dir x) as [[|]|]; [|exact IH|congruence].
    destruct (parse_backup_ts (d_name x)); [|exact IH].
    rewrite scan_entries_acc. apply in_or_app. now right.
Qed.

Lemma scan_root_keeps env st r :
  (forall b, In b (backups_of st) -> In b (backups_of (scan_root env st r))) /\
  (forall d, In d (seen_dirs st) -> In d (seen_dirs (scan_root env st r))) /\
  (r <> [] -> In (abspath env r) (seen_dirs (scan_root env st r))).
Proof.
  unfold scan_root. destruct r as [|c r]; [repeat split; auto; congruence|].
  set (d := abspath env (c :: r)).
  destruct (mem d (seen_dirs st)) eqn:Em.
  - apply mem_In in Em. repeat split; auto.
  - destruct (isdir env d); cbn [negb backups_of seen_dirs].
    + repeat split; intros; [|now right|now left].
      rewrite scan_entries_acc. apply in_or_app. now left.
    + repeat split; intros; [assumption|now right|now left].
Qed.

Lemma scan_root_scanned env st r :
  (forall d, In d (seen_dirs st) -> isdir env d = true ->
             incl (scan_entries d (scandir env d) []) (backups_of st)) ->
  forall d, In d (seen_dirs (scan_root env st r)) -> isdir env d = true ->
            incl (scan_entries d (scandir env d) [])
                 (backups_of (scan_root env st r)).
Proof.
  intros J d Hd Hi b Hb.
  destruct (scan_root_keeps env st r) as (Hk & _ & _).
  unfold scan_root in *. destruct r as [|c r]; [now apply (J d)|].
  set (d0 := abspath env (c :: r)) in *.
  destruct (mem d0 (seen_dirs st)) eqn:Em; [now apply (J d)|].
  destruct (isdir env d0) eqn:Ei; cbn [negb backups_of seen_dirs] in *.
  - destruct Hd as [<-|Hd].
    + rewrite scan_entries_acc. apply in_or_app. now right.
    + apply Hk. now apply (J d).
  - destruct Hd as [<-|Hd]; [congruence|]. now apply (J d).
Qed.

(** X5: for a configured root that is not empty and is a directory on
    disk, an entry of its listing that is a directory and whose name is
    accepted as a timestamp is in the inventory, with the absolute path of
    the root, provided that no entry before it in the listing made
    [is_dir] raise. *)
Theorem list_backups_complete cfg env root pre e post ts :
  In root [BACKUP_BASE_DIR cfg; BACKUP_FALLBACK_DIR cfg] ->
  root <> [] ->
  isdir env (abspath env root) = true ->
  scandir env (abspath env root) = pre ++ e :: post ->
  (forall x, In x pre -> d_is_dir x <> None) ->
  d_is_dir e = Some true ->
  parse_backup_ts (d_name e) = Some ts ->
  In (ts, d_name e, abspath env root) (list_backups cfg env).
Proof.
  intros Hroot Hne Hi Hs Hpre He Hp.
  apply (Permutation_in _ (list_backups_perm cfg env)).
  unfold scan_roots. cbn [fold_left].
  set (s0 := mkscan [] [] []).
  set (s1 := scan_root env s0 (BACKUP_BASE_DIR cfg)).
  set (s2 := scan_root env s1 (BACKUP_FALLBACK_DIR cfg)).
  assert (J0 : forall d, In d (seen_dirs s0) -> isdir env d = true ->
                 incl (scan_entries d (scandir env d) []) (backups_of s0))
    by (intros d []).
  pose proof (scan_root_scanned env s0 (BACKUP_BASE_DIR cfg) J0) as J1.
  fold s1 in J1.
  pose proof (scan_root_scanned env s1 (BACKUP_FALLBACK_DIR cfg) J1) as J2.
  fold s2 in J2.
  assert (Hseen : In (abspath env root) (seen_dirs s2)).
  { destruct Hroot as [<-|[<-|[]]].
    - destruct (scan_root_keeps env s1 (BACKUP_FALLBACK_DIR cfg))
        as (_ & Hk & _).
      apply Hk.
      destruct (scan_root_keeps env s0 (BACKUP_BASE_DIR cfg)) as (_ & _ & Hin).
      now apply Hin.
    - destruct (scan_root_keeps env s1 (BACKUP_FALLBACK_DIR cfg))
        as (_ & _ & Hin).
      now apply Hin. }
  apply (J2 _ Hseen Hi). rewrite Hs.
  now apply scan_entries_complete.
Qed.

Lemma list_backups_complete_witness :
  In (mkdt 2024 1 1 10 0, py "2024-01-01_10-00", py "/backups")
     (list_backups cfg_twice env_scenario).
Proof.
  apply (list_backups_complete cfg_twice env_scenario (py "/backups") []
           (mkent (py "2024-01-01_10-00") (Some true))
           [mkent (py "2024-01-02_09-30") (Some true);
            mkent (py "notes") (Some true)]
           (mkdt 2024 1 1 10 0)).
  - left. reflexivity.
  - discriminate.
  - reflexivity.
  - reflexivity.
  - intros x [].
  - reflexivity.
  - reflexivity.
Defined.

Lemma scan_entries_until_failure base entries : forall acc,
  scan_entries base (until_failure entries) acc = scan_entries base entries acc.
Proof.
  induction entries as [|e es IH]; intros acc; [reflexivity|].
  cbn [until_failure scan_entries].
  destruct (d_is_dir e) as [[|]|] eqn:E; cbn [scan_entries]; rewrite E;
    [|apply IH|reflexivity].
  destruct (parse_backup_ts (d_name e)); apply IH.
Qed.

Lemma scan_root_until_failure env env' st r :
  abspath env = abspath env' -> isdir env = isdir env' ->
  (forall d, until_failure (scandir env d) = until_failure (scandir env' d)) ->
  scan_root env st r = scan_root env' st r.
Proof.
  intros Ha Hi Hs. unfold scan_root. rewrite Ha, Hi.
  destruct r as [|c r]; [reflexivity|].
  destruct (mem _ _); [reflexivity|]. destruct (isdir env' _); [|reflexivity].
  cbn [negb]. f_equal.
  rewrite <- scan_entries_until_failure, Hs. apply scan_entries_until_failure.
Qed.

Lemma scan_entries_found base entries :
  scan_entries base entries [] = found_in base entries.
Proof.
  unfold found_in.
  induction entries as [|e es IH]; [reflexivity|].
  cbn [scan_entries until_failure].
  destruct (d_is_dir e) as [[|]|] eqn:E; cbn [flat_map]; rewrite E.
  - destruct (parse_backup_ts (d_name e)) as [ts|].
    + rewrite scan_entries_acc, IH. reflexivity.
    + exact IH.
  - exact IH.
  - reflexivity.
Qed.

Lemma scan_root_origin env st r b :
  In b (backups_of (scan_root env st r)) ->
  In b (backups_of st) \/
  (r <> [] /\ isdir env (abspath env r) = true /\
   In b (found_in (abspath env r) (scandir env (abspath env r)))).
Proof.
  unfold scan_root. destruct r as [|c r]; [now left|].
  set (d := abspath env (c :: r)).
  destruct (mem d (seen_dirs st)); [now left|].
  destruct (isdir env d) eqn:Ei; cbn [negb backups_of]; [|now left].
  rewrite scan_entries_acc, scan_entries_found. intros H.
  apply in_app_or in H as [H|H]; [now left|right].
  split; [discriminate|]. now split.
Qed.

Lemma scan_roots_found cfg env root :
  In root [BACKUP_BASE_DIR cfg; BACKUP_FALLBACK_DIR cfg] ->
  root <> [] ->
  isdir env (abspath env root) = true ->
  incl (found_in (abspath env root) (scandir env (abspath env root)))
       (backups_of (scan_roots cfg env)).
Proof.
  intros Hroot Hne Hi. unfold scan_roots. cbn [fold_left].
  set (s0 := mkscan [] [] []).
  set (s1 := scan_root env s0 (BACKUP_BASE_DIR cfg)).
  set (s2 := scan_root env s1 (BACKUP_FALLBACK_DIR cfg)).
  assert (J0 : forall d, In d (seen_dirs s0) -> isdir env d = true ->
                 incl (scan_entries d (scandir env d) []) (backups_of s0))
    by (intros d []).
  pose proof (scan_root_scanned env s0 (BACKUP_BASE_DIR cfg) J0) as J1.
  fold s1 in J1.
  pose proof (scan_root_scanned env s1 (BACKUP_FALLBACK_DIR cfg) J1) as J2.
  fold s2 in J2.
  assert (Hseen : In (abspath env root) (seen_dirs s2)).
  { destruct Hroot as [<-|[<-|[]]].
    - destruct (scan_root_keeps env s1 (BACKUP_FALLBACK_DIR cfg))
        as (_ & Hk & _).
      apply Hk.
      destruct (scan_root_keeps env s0 (BACKUP_BASE_DIR cfg)) as (_ & _ & Hin).
      now apply Hin.
    - destruct (scan_root_keeps env s1 (BACKUP_FALLBACK_DIR cfg))
        as (_ & _ & Hin).
      now apply Hin. }
  rewrite <- scan_entries_found. exact (J2 _ Hseen Hi).
Qed.

(** X6: the inventory depends on the listing of a directory only up to
    the first entry on which [is_dir] raises: two systems that agree on
    paths, on directories and on the listings up to that entry have the
    same inventory.  What was found before that entry is kept: the
    backups of the inventory are exactly the directories with an accepted
    name among the entries read, up to that entry, in the configured roots
    that are not empty and are directories on disk. *)
Theorem list_backups_ignores_entries_after_failure cfg env env' :
  abspath env = abspath env' -> isdir env = isdir env' ->
  (forall d, until_failure (scandir env d) = until_failure (scandir env' d)) ->
  list_backups cfg env = list_backups cfg env' /\
  forall b,
    In b (list_backups cfg env) <->
    exists root,
      In root [BACKUP_BASE_DIR cfg; BACKUP_FALLBACK_DIR cfg] /\
      root <> [] /\
      isdir env (abspath env root) = true /\
      In b (found_in (abspath env root) (scandir env (abspath env root))).
Proof.
  intros Ha Hi Hs. split.
  - unfold list_backups, scan_roots. cbn [fold_left].
    now rewrite !(scan_root_until_failure env env' _ _ Ha Hi Hs).
  - intros b. split.
    + intros H.
      apply (Permutation_in _ (Permutation_sym (list_backups_perm cfg env)))
        in H.
      unfold scan_roots in H. cbn [fold_left] in H.
      apply scan_root_origin in H as [H|(Hne & Hd & Hb)].
      * apply scan_root_origin in H as [[]|(Hne & Hd & Hb)].
        exists (BACKUP_BASE_DIR cfg). split; [now left|]. now repeat split.
      * exists (BACKUP_FALLBACK_DIR cfg).
        split; [right; now left|]. now repeat split.
    + intros (root & Hroot & Hne & Hd & Hb).
      apply (Permutation_in _ (list_backups_perm cfg env)).
      exact (scan_roots_found cfg env root Hroot Hne Hd b Hb).
Qed.

Lemma list_backups_ignores_entries_after_failure_witness :
  abspath env_failing_entry = abspath env_failing_entry_last /\
  isdir env_failing_entry = isdir env_failing_entry_last /\
  list_backups cfg_backups env_failing_entry
  = list_backups cfg_backups env_failing_entry_last /\
  In (mkdt 2024 1 1 10 0, py "2024-01-01_10-00", py "/backups")
     (list_backups cfg_backups env_failing_entry) /\
  map backup_name (list_backups cfg_backups env_failing_entry)
  = [py "2024-01-01_10-00"].
Proof.
  destruct (list_backups_ignores_entries_after_failure
              cfg_backups env_failing_entry env_failing_entry_last
              eq_refl eq_refl (fun d => eq_refl)) as [Heq Hin].
  split; [reflexivity|]. split; [reflexivity|]. split; [exact Heq|]. split.
  - apply Hin. exists (py "/backups").
    split; [now left|]. split; [discriminate|]. split; [reflexivity|].
    vm_compute. now left.
  - vm_compute. reflexivity.
Defined.

(** ** More on the names of backups *)

(** X7: the name that the format of the backup names gives for a valid
    timestamp with a year of four digits is accepted by [parse_backup_ts]
    and read back as that timestamp; it is in the exact format, and two
    such timestamps with the same name are the same. *)
Theorem strftime_then_strptime ts ts' :
  dt_valid ts = true -> (1000 <= year ts)%Z ->
  parse_backup_ts (strftime name_format ts) = Some ts /\
  exact_format (strftime name_format ts) = true /\
  (dt_valid ts' = true -> (1000 <= year ts')%Z ->
   strftime name_format ts = strftime name_format ts' -> ts = ts').
Proof.
  intros Hv Hy.
  pose proof (parse_backup_ts_strftime ts Hv Hy) as Hp.
  split; [exact Hp|]. split.
  - now apply (parse_backup_ts_roundtrip _ _ Hp).
  - intros Hv' Hy' E.
    pose proof (parse_backup_ts_strftime ts' Hv' Hy') as Hp'.
    rewrite <- E, Hp in Hp'. now injection Hp'.
Qed.

Lemma strftime_then_strptime_witness :
  dt_valid (mkdt 2024 2 29 23 59) = true /\
  parse_backup_ts (py "2024-02-29_23-59") = Some (mkdt 2024 2 29 23 59).
Proof.
  assert (Hv : dt_valid (mkdt 2024 2 29 23 59) = true) by reflexivity.
  assert (Hy : (1000 <= year (mkdt 2024 2 29 23 59))%Z)
    by (vm_compute; discriminate).
  split; [exact Hv|].
  exact (proj1 (strftime_then_strptime _ (mkdt 2024 2 29 23 59) Hv Hy)).
Defined.

(** X8: a name that [parse_backup_ts] accepts has twelve to sixteen
    characters, begins with four digits and has a dash after them. *)
Theorem accepted_name_length name ts :
  parse_backup_ts name = Some ts ->
  12 <= length name <= 16 /\
  Forall (fun c => isdigit c = true) (firstn 4 name) /\
  nth 4 name 0%N = dash.
Proof.
  intros Hp.
  destruct (parse_backup_ts_parts _ _ Hp)
    as (p & -> & HY & Hm & Hd & HH & HM & _ & _).
  destruct (group_Y _ HY) as (LY & _ & DY).
  destruct (group_m _ Hm) as (Lm & _).
  destruct (group_d _ Hd) as (Ld & _).
  destruct (group_H _ HH) as (LH & _).
  destruct (group_M _ HM) as (LM & _).
  unfold assemble.
  destruct (gY p) as [|a [|b [|c [|d [|? ?]]]]]; try discriminate.
  cbn [app firstn nth length]. rewrite !length_app. cbn [length].
  rewrite !length_app. cbn [length]. rewrite !length_app. cbn [length].
  split; [lia|]. split; [exact DY|reflexivity].
Qed.

Lemma accepted_name_length_witness :
  parse_backup_ts (py "2024-1-2_9-5") = Some (mkdt 2024 1 2 9 5) /\
  12 <= length (py "2024-1-2_9-5") <= 16.
Proof.
  assert (Hp : parse_backup_ts (py "2024-1-2_9-5") = Some (mkdt 2024 1 2 9 5))
    by reflexivity.
  split; [exact Hp|]. exact (proj1 (accepted_name_length _ _ Hp)).
Defined.

(** ** [human_size] without rounding errors *)

Section Exactness.
Local Open Scope Q_scope.

Lemma ilog2_lt x k :
  0 < x -> (1 <= k)%Z -> x < inject_Z (2 ^ k) -> (ilog2 x <= k - 1)%Z.
Proof.
  intros Hx Hk H. unfold ilog2.
  set (e0 := (Z.log2 (Qnum x) - Z.log2 (Z.pos (Qden x)))%Z).
  assert (He : (e0 <= k)%Z).
  { subst e0. apply Qlt_le_weak in H.
    destruct x as [n d]. unfold Qle, Qlt in *.
    cbn [Qnum Qden inject_Z] in *. rewrite Z.mul_1_r in *.
    rewrite Z.mul_comm in H. apply Z.log2_le_mono in H.
    rewrite Z.log2_mul_pow2 in H by lia. lia. }
  destruct (Qle_bool (scale_up 1 e0) x) eqn:E; [|lia].
  destruct (Z.eq_dec e0 k) as [->|Hne]; [|lia].
  exfalso. apply Qle_bool_iff in E. unfold scale_up in E.
  destruct (Z.leb_spec k 0); [lia|]. rewrite Z.mul_1_l in E.
  apply (Qlt_irrefl x). now apply Qlt_le_trans with (inject_Z (2 ^ k)).
Qed.

Lemma round_half_even_int y n : y == inject_Z n -> round_half_even y = n.
Proof.
  intros H. unfold round_half_even.
  assert (Hf : Qfloor y = n) by (rewrite H; apply Qfloor_Z).
  rewrite Hf.
  assert (Hlt : y - inject_Z n < 1 # 2) by (rewrite H; lra).
  destruct (Qcompare (y - inject_Z n) (1 # 2)) eqn:C.
  - apply Qeq_alt in C. lra.
  - reflexivity.
  - apply Qgt_alt in C. lra.
Qed.

Lemma round_half_even_comp x y : x == y -> round_half_even x = round_half_even y.
Proof.
  intros H. unfold round_half_even. rewrite (Qfloor_comp _ _ H).
  assert (E : Qcompare (x - inject_Z (Qfloor y)) (1 # 2)
              = Qcompare (y - inject_Z (Qfloor y)) (1 # 2))
    by (now rewrite H).
  now rewrite E.
Qed.

(** A value with at most 53 significant bits is not changed by rounding. *)
Lemma round_binary64_exact x n j :
  (0 < n < 2 ^ 53)%Z -> (0 <= j <= 52)%Z ->
  x == inject_Z n / inject_Z (2 ^ j) ->
  round_binary64 x == x.
Proof.
  intros Hn Hj Hx.
  assert (Hp : (0 < 2 ^ j)%Z) by (apply Z.pow_pos_nonneg; lia).
  assert (Hpq : 0 < inject_Z (2 ^ j)) by (now apply inject_Z_pos).
  assert (Hpos : 0 < x).
  { rewrite Hx. apply Qlt_shift_div_l; [exact Hpq|]. rewrite Qmult_0_l.
    apply inject_Z_pos. lia. }
  assert (Hlt : x < inject_Z (2 ^ (53 - j))).
  { rewrite Hx. apply Qlt_shift_div_r; [exact Hpq|].
    rewrite <- inject_Z_mult, <- Zlt_Qlt, <- Z.pow_add_r by lia.
    replace (53 - j + j)%Z with 53%Z by lia. lia. }
  pose proof (ilog2_lt x (53 - j) Hpos ltac:(lia) Hlt) as Hi.
  unfold round_binary64.
  apply Qgt_alt in Hpos as C. rewrite C. unfold round_pos.
  set (e := Z.max (ilog2 x - 52) (-1074)).
  assert (He : (e <= - j)%Z) by lia.
  apply scale_up_down.
  assert (Hs : scale_down x e == inject_Z (n * 2 ^ (- e - j))).
  { unfold scale_down. destruct (Z.leb_spec e 0); [|lia].
    rewrite Hx.
    replace (2 ^ (- e))%Z with (2 ^ (- e - j) * 2 ^ j)%Z
      by (rewrite <- Z.pow_add_r by lia; f_equal; lia).
    rewrite !inject_Z_mult. field.
    intros E. rewrite E in Hpq. now apply Qlt_irrefl in Hpq. }
  rewrite (round_half_even_int _ _ Hs). exact Hs.
Qed.

Lemma float_of_int_exact n :
  (0 <= n < 2 ^ 53)%Z ->
  exists size, float_of_int n = Some size /\ size == inject_Z n.
Proof.
  intros Hn. unfold float_of_int.
  assert (Hr : round_binary64 (inject_Z n) == inject_Z n).
  { destruct (Z.eq_dec n 0) as [->|Hne]; [reflexivity|].
    apply (round_binary64_exact _ n 0); [lia|lia|].
    change (inject_Z (2 ^ 0)) with 1. field. }
  assert (Hf : is_finite (round_binary64 (inject_Z n)) = true).
  { unfold is_finite. apply negb_true_iff.
    destruct (Qle_bool _ _) eqn:E; [|reflexivity].
    apply Qle_bool_iff in E. rewrite Hr in E.
    rewrite Qabs_pos in E
      by (change 0 with (inject_Z 0); rewrite <- Zle_Qle; lia).
    rewrite <- Zle_Qle in E.
    assert (2 ^ 53 < 2 ^ 1024)%Z by (apply Z.pow_lt_mono_r; lia). lia. }
  rewrite Hf. eauto.
Qed.

Lemma format_2f_comp x y : x == y -> format_2f x = format_2f y.
Proof.
  intros H. unfold format_2f.
  now rewrite (round_half_even_comp (x * 100) (y * 100)) by (now rewrite H).
Qed.

Lemma Qle_bool_comp x y z : x == y -> Qle_bool z x = Qle_bool z y.
Proof.
  intros H. destruct (Qle_bool z y) eqn:E.
  - apply Qle_bool_iff. apply Qle_bool_iff in E. now rewrite H.
  - destruct (Qle_bool z x) eqn:E'; [|reflexivity].
    apply Qle_bool_iff in E'. rewrite H in E'. apply Qle_bool_iff in E'.
    congruence.
Qed.

(** One round of the loop on a size that stands for [v]. *)
Lemma human_size_loop_step num_bytes size v unit rest :
  size == v -> 0 <= v ->
  human_size_loop num_bytes size (unit :: rest)
  = if negb (Qle_bool 1024 v) || match rest with [] => true | _ => false end
    then
      if str_eqb unit (py "B")
      then str_of_Z (Qfloor v) ++ [space] ++ unit
      else format_2f v ++ [space] ++ unit
    else human_size_loop num_bytes (fdiv size 1024) rest.
Proof.
  intros H Hv. cbn [human_size_loop].
  rewrite (Qle_bool_comp _ _ 1024 H).
  destruct (negb (Qle_bool 1024 v) || _); [|reflexivity].
  destruct (str_eqb unit (py "B")).
  - unfold int_of_float.
    assert (E : Qle_bool 0 size = true)
      by (apply Qle_bool_iff; now rewrite H).
    now rewrite E, (Qfloor_comp _ _ H).
  - now rewrite (format_2f_comp _ _ H).
Qed.

Lemma fdiv_exact size n j :
  (0 < n < 2 ^ 53)%Z -> (0 <= j <= 42)%Z ->
  size == inject_Z n / inject_Z (2 ^ j) ->
  fdiv size 1024 == inject_Z n / inject_Z (2 ^ (j + 10)).
Proof.
  intros Hn Hj H. unfold fdiv.
  assert (Hp : (0 < 2 ^ j)%Z) by (apply Z.pow_pos_nonneg; lia).
  assert (E : size / 1024 == inject_Z n / inject_Z (2 ^ (j + 10))).
  { rewrite H, Z.pow_add_r, inject_Z_mult by lia.
    change (inject_Z (2 ^ 10)) with 1024. field.
    intros E. apply inject_Z_pos in Hp. rewrite E in Hp.
    now apply Qlt_irrefl in Hp. }
  rewrite (round_binary64_exact _ n (j + 10) Hn ltac:(lia) E). exact E.
Qed.

End Exactness.

Section Units.
Local Open Scope Q_scope.

Lemma threshold n j :
  (0 <= j)%Z ->
  Qle_bool 1024 (inject_Z n / inject_Z (2 ^ j)) = (2 ^ (j + 10) <=? n)%Z.
Proof.
  intros Hj.
  assert (Hp : (0 < 2 ^ j)%Z) by (apply Z.pow_pos_nonneg; lia).
  assert (Hpq : 0 < inject_Z (2 ^ j)) by (now apply inject_Z_pos).
  assert (E : (2 ^ (j + 10) = 1024 * 2 ^ j)%Z)
    by (rewrite Z.pow_add_r by lia; change (2 ^ 10)%Z with 1024%Z; lia).
  rewrite E.
  destruct (Z.leb_spec (1024 * 2 ^ j) n) as [H|H].
  - apply Qle_bool_iff. apply Qle_shift_div_l; [exact Hpq|].
    change 1024 with (inject_Z 1024).
    now rewrite <- inject_Z_mult, <- Zle_Qle.
  - destruct (Qle_bool _ _) eqn:C; [|reflexivity].
    apply Qle_bool_iff in C. exfalso.
    assert (C' : 1024 * inject_Z (2 ^ j) <= inject_Z n).
    { apply Qle_trans
        with (inject_Z n / inject_Z (2 ^ j) * inject_Z (2 ^ j)).
      - apply Qmult_le_compat_r; [exact C|now apply Qlt_le_weak].
      - apply Qle_lteq. right. field.
        intros E0. rewrite E0 in Hpq. now apply Qlt_irrefl in Hpq. }
    change 1024 with (inject_Z 1024) in C'.
    rewrite <- inject_Z_mult, <- Zle_Qle in C'. lia.
Qed.

Lemma exact_nonneg n j : (0 <= n)%Z -> 0 <= inject_Z n / inject_Z (2 ^ j).
Proof.
  intros Hn. destruct (Z.le_gt_cases 0 j) as [Hj|Hj].
  - apply Qle_shift_div_l.
    + apply inject_Z_pos. apply Z.pow_pos_nonneg; lia.
    + rewrite Qmult_0_l. change 0 with (inject_Z 0). now rewrite <- Zle_Qle.
  - rewrite Z.pow_neg_r by lia. unfold Qdiv. change (/ inject_Z 0) with 0.
    rewrite Qmult_0_r. apply Qle_refl.
Qed.

End Units.

Lemma human_size_exact_spec n :
  (0 <= n < 2 ^ 53)%Z -> human_size n = Some (human_size_exact n).
Proof.
  intros Hn. unfold human_size.
  destruct (float_of_int_exact n Hn) as (s0 & -> & H0). f_equal.
  cbn [map].
  assert (H0' : (s0 == inject_Z n / inject_Z (2 ^ 0))%Q).
  { rewrite H0. change (inject_Z (2 ^ 0)) with 1%Q. field. }
  unfold human_size_exact.
  rewrite (human_size_loop_step n s0 _ _ _ H0' (exact_nonneg n 0 ltac:(lia))).
  rewrite threshold by lia. cbn [orb negb Z.add].
  change (str_eqb (py "B") (py "B")) with true. cbv iota.
  change (2 ^ 10)%Z with 1024%Z.
  destruct (Z.leb_spec 1024 n) as [H1|H1].
  2:{ replace (n <? 1024)%Z with true by (symmetry; apply Z.ltb_lt; lia).
      cbn [negb orb].
      replace (Qfloor (inject_Z n / inject_Z (2 ^ 0))) with n.
      - reflexivity.
      - symmetry. rewrite <- (Qfloor_Z n) at 2. apply Qfloor_comp.
        change (inject_Z (2 ^ 0)) with 1%Q. field. }
  replace (n <? 1024)%Z with false by (symmetry; apply Z.ltb_ge; lia).
  cbn [negb orb].
  assert (Hp : (0 < n < 2 ^ 53)%Z) by lia.
  pose proof (fdiv_exact s0 n 0 Hp ltac:(lia) H0') as E1.
  set (s1 := fdiv s0 1024) in *. cbn [Z.add] in E1.
  rewrite (human_size_loop_step n s1 _ _ _ E1 (exact_nonneg n 10 ltac:(lia))).
  rewrite threshold by lia.
  change (str_eqb (py "KiB") (py "B")) with false. cbv iota.
  change (2 ^ (10 + 10))%Z with (1024 ^ 2)%Z.
  change (2 ^ 10)%Z with 1024%Z.
  destruct (Z.leb_spec (1024 ^ 2) n) as [H2|H2].
  2:{ replace (n <? 1024 ^ 2)%Z with true by (symmetry; apply Z.ltb_lt; lia).
      reflexivity. }
  replace (n <? 1024 ^ 2)%Z with false by (symmetry; apply Z.ltb_ge; lia).
  cbn [negb orb].
  pose proof (fdiv_exact s1 n 10 Hp ltac:(lia) E1) as E2.
  set (s2 := fdiv s1 1024) in *.
  rewrite (human_size_loop_step n s2 _ _ _ E2 (exact_nonneg n _ ltac:(lia))).
  rewrite threshold by lia.
  change (str_eqb (py "MiB") (py "B")) with false. cbv iota.
  change (2 ^ (10 + 10 + 10))%Z with (1024 ^ 3)%Z.
  change (2 ^ (10 + 10))%Z with (1024 ^ 2)%Z.
  destruct (Z.leb_spec (1024 ^ 3) n) as [H3|H3].
  2:{ replace (n <? 1024 ^ 3)%Z with true by (symmetry; apply Z.ltb_lt; lia).
      reflexivity. }
  replace (n <? 1024 ^ 3)%Z with false by (symmetry; apply Z.ltb_ge; lia).
  cbn [negb orb].
  pose proof (fdiv_exact s2 n (10 + 10) Hp ltac:(lia) E2) as E3.
  set (s3 := fdiv s2 1024) in *.
  rewrite (human_size_loop_step n s3 _ _ _ E3 (exact_nonneg n _ ltac:(lia))).
  rewrite threshold by lia.
  change (str_eqb (py "GiB") (py "B")) with false. cbv iota.
  change (2 ^ (10 + 10 + 10 + 10))%Z with (1024 ^ 4)%Z.
  change (2 ^ (10 + 10 + 10))%Z with (1024 ^ 3)%Z.
  destruct (Z.leb_spec (1024 ^ 4) n) as [H4|H4].
  2:{ replace (n <? 1024 ^ 4)%Z with true by (symmetry; apply Z.ltb_lt; lia).
      reflexivity. }
  replace (n <? 1024 ^ 4)%Z with false by (symmetry; apply Z.ltb_ge; lia).
  cbn [negb orb].
  pose proof (fdiv_exact s3 n (10 + 10 + 10) Hp ltac:(lia) E3) as E4.
  set (s4 := fdiv s3 1024) in *.
  rewrite (human_size_loop_step n s4 _ _ _ E4 (exact_nonneg n _ ltac:(lia))).
  change (str_eqb (py "TiB") (py "B")) with false.
  rewrite orb_true_r. cbv iota.
  change (2 ^ (10 + 10 + 10 + 10))%Z with (1024 ^ 4)%Z.
  reflexivity.
Qed.

(** X9: for a size below [2^53] bytes no float operation of [human_size]
    rounds.  The result is the number of bytes when it is below 1024;
    otherwise it is the exact quotient by 1024, 1024^2, 1024^3 or 1024^4,
    the first of them under which the quotient is below 1024 and the last
    one otherwise, printed with two decimals and the unit KiB, MiB, GiB or
    TiB. *)
Theorem human_size_no_rounding_error n :
  (0 <= n < 2 ^ 53)%Z -> human_size n = Some (human_size_exact n).
Proof. exact (human_size_exact_spec n). Qed.

Lemma human_size_no_rounding_error_witness :
  (0 <= 3221225472 < 2 ^ 53)%Z /\
  human_size 3221225472 = Some (human_size_exact 3221225472).
Proof.
  split; [lia|]. apply (human_size_no_rounding_error 3221225472). lia.
Defined.

(** ** Who may ask *)

Lemma uint_chars_inj u : forall v, uint_chars u = uint_chars v -> u = v.
Proof.
  induction u; intros v H; destruct v; cbn [uint_chars] in H;
    try discriminate; try reflexivity;
    injection H as H; f_equal; now apply IHu.
Qed.

Lemma uint_chars_digits u : Forall (fun c => (48 <= c <= 57)%N) (uint_chars u).
Proof.
  induction u; cbn [uint_chars]; constructor; try assumption; lia.
Qed.

Lemma str_of_N_inj a b : str_of_N a = str_of_N b -> a = b.
Proof.
  unfold str_of_N. intros H. apply uint_chars_inj in H.
  now apply DecimalN.Unsigned.to_uint_inj.
Qed.

(** [str] of an [int] is one-to-one. *)
Lemma str_of_Z_inj a b : str_of_Z a = str_of_Z b -> a = b.
Proof.
  assert (Hd : forall n r, str_of_N n <> dash :: r).
  { intros n r H. pose proof (uint_chars_digits (N.to_uint n)) as F.
    unfold str_of_N in H. rewrite H in F. inversion F. unfold dash in *. lia. }
  destruct a as [|p|p], b as [|q|q]; cbn [str_of_Z]; intros H;
    try reflexivity;
    try (apply str_of_N_inj in H; lia);
    try (exfalso; eapply Hd; exact H);
    try (exfalso; eapply Hd; symmetry; exact H).
  injection H as H. apply str_of_N_inj in H. congruence.
Qed.

Lemma str_of_Z_not_None z : str_of_Z z <> py "None".
Proof.
  intros H.
  assert (F : Forall (fun c => (48 <= c <= 57)%N \/ c = dash) (str_of_Z z)).
  { assert (G : forall n,
              Forall (fun c => (48 <= c <= 57)%N \/ c = dash) (str_of_N n)).
    { intros n. unfold str_of_N.
      eapply Forall_impl; [|apply uint_chars_digits]. intros; now left. }
    destruct z; unfold str_of_Z;
      [apply G|apply G|constructor; [now right|apply G]]. }
  rewrite H in F. inversion F as [|? ? [Hc|Hc] _]; [lia|discriminate].
Qed.

Lemma str_of_int_Some z s : str_of_int z = Some s -> s = str_of_Z z.
Proof.
  unfold str_of_int. destruct (Z.abs z <? _)%Z; [|discriminate].
  now intros [= <-].
Qed.

Lemma str_of_id_inj a b s :
  str_of_id a = Some s -> str_of_id b = Some s -> a = b.
Proof.
  destruct a as [x|], b as [y|]; cbn [str_of_id]; intros Ha Hb.
  - apply str_of_int_Some in Ha, Hb. f_equal. apply str_of_Z_inj. congruence.
  - apply str_of_int_Some in Ha. injection Hb as <-.
    symmetry in Ha. now apply str_of_Z_not_None in Ha.
  - apply str_of_int_Some in Hb. injection Ha as <-.
    symmetry in Hb. now apply str_of_Z_not_None in Hb.
  - reflexivity.
Qed.

(** X10: in a guild, when a channel is configured, [allowed_where] allows
    at most one channel id. *)
Theorem allowed_where_one_channel bot a b :
  ALLOWED_CHANNEL_ID bot <> [] ->
  allowed_where bot (mkint true a) = true ->
  allowed_where bot (mkint true b) = true ->
  a = b.
Proof.
  unfold allowed_where. cbn [in_guild channel_id negb].
  destruct (ALLOWED_CHANNEL_ID bot) as [|c r]; [congruence|].
  intros _ Ha Hb.
  destruct (str_of_id a) as [sa|] eqn:Ea; [|discriminate].
  destruct (str_of_id b) as [sb|] eqn:Eb; [|discriminate].
  apply str_eqb_eq in Ha, Hb. subst sa sb.
  now apply (str_of_id_inj a b (c :: r)).
Qed.

Lemma allowed_where_one_channel_witness :
  ALLOWED_CHANNEL_ID (mkbot true (py "1234567890")) <> [] /\
  allowed_where (mkbot true (py "1234567890")) (mkint true (Some 1234567890%Z))
    = true /\
  Some 1234567890%Z = Some 1234567890%Z.
Proof.
  split; [discriminate|]. split; [vm_compute; reflexivity|].
  apply (allowed_where_one_channel (mkbot true (py "1234567890")));
    [discriminate|vm_compute; reflexivity|vm_compute; reflexivity].
Defined.

(** X11: [on_message] sends a report exactly when the author is not a
    bot, the stripped and lowered text is [stats] or [list], and
    [allowed_where] allows an interaction in the same guild and channel;
    [stats] gets the statistics and [list] the summary of the backups. *)
Theorem on_message_follows_allowed_where lower bot m r :
  on_message lower bot m = Some r <->
  author_bot m = false /\
  allowed_where bot (mkint (msg_in_guild m) (Some (msg_channel m))) = true /\
  ((lower (strip (content m)) = py "stats" /\ r = StatsReport) \/
   (lower (strip (content m)) = py "list" /\ r = SummaryReport)).
Proof.
  unfold on_message, allowed_where.
  cbn [in_guild channel_id str_of_id].
  destruct (author_bot m); [split; [discriminate|intros [? _]; discriminate]|].
  set (text := lower (strip (content m))).
  destruct (str_eqb text (py "stats")) eqn:Es;
    [|destruct (str_eqb text (py "list")) eqn:El]; cbn [orb].
  - apply str_eqb_eq in Es.
    destruct (msg_in_guild m); cbn [negb].
    + destruct (ALLOWED_CHANNEL_ID bot) as [|c a].
      * split.
        -- intros [= <-]. auto.
        -- intros (_ & _ & [[_ ->]|[E _]]); [reflexivity|].
           rewrite Es in E. discriminate.
      * destruct (str_of_int (msg_channel m)) as [s|];
          [|split; [discriminate|intros (_ & ? & _); discriminate]].
        destruct (str_eqb s (c :: a)); cbn [negb].
        -- split.
           ++ intros [= <-]. auto.
           ++ intros (_ & _ & [[_ ->]|[E _]]); [reflexivity|].
              rewrite Es in E. discriminate.
        -- split; [discriminate|]. intros (_ & ? & _). discriminate.
    + destruct (ALLOW_DMS bot); cbn [negb].
      * split.
        -- intros [= <-]. auto.
        -- intros (_ & _ & [[_ ->]|[E _]]); [reflexivity|].
           rewrite Es in E. discriminate.
      * split; [discriminate|]. intros (_ & ? & _). discriminate.
  - apply str_eqb_eq in El.
    destruct (msg_in_guild m); cbn [negb].
    + destruct (ALLOWED_CHANNEL_ID bot) as [|c a].
      * split.
        -- intros [= <-]. auto.
        -- intros (_ & _ & [[E _]|[_ ->]]); [|reflexivity].
           rewrite El in E. discriminate.
      * destruct (str_of_int (msg_channel m)) as [s|];
          [|split; [discriminate|intros (_ & ? & _); discriminate]].
        destruct (str_eqb s (c :: a)); cbn [negb].
        -- split.
           ++ intros [= <-]. auto.
           ++ intros (_ & _ & [[E _]|[_ ->]]); [|reflexivity].
              rewrite El in E. discriminate.
        -- split; [discriminate|]. intros (_ & ? & _). discriminate.
    + destruct (ALLOW_DMS bot); cbn [negb].
      * split.
        -- intros [= <-]. auto.
        -- intros (_ & _ & [[E _]|[_ ->]]); [|reflexivity].
           rewrite El in E. discriminate.
      * split; [discriminate|]. intros (_ & ? & _). discriminate.
  - split; [discriminate|].
    intros (_ & _ & [[E _]|[E _]]).
    + apply str_eqb_eq in E. congruence.
    + apply str_eqb_eq in E. congruence.
Qed.

(** ** The readers of the host state *)

Lemma take_word_spec s : forall w r,
  take_word s = (w, r) ->
  Forall (fun c => isspace c = false) w /\ length r <= length s.
Proof.
  induction s as [|c s IH]; intros w r; cbn [take_word].
  - intros [= <- <-]. split; [constructor|apply Nat.le_refl].
  - destruct (isspace c) eqn:Ec.
    + intros [= <- <-]. split; [constructor|apply Nat.le_refl].
    + destruct (take_word s) as [w' r'] eqn:Et. intros [= <- <-].
      destruct (IH w' r' eq_refl) as [Hw Hl].
      split; [now constructor|cbn [length]; lia].
Qed.

Lemma split_ws_words k : forall s,
  length s <= k -> Forall word (split_ws k s).
Proof.
  induction k as [|k IH]; intros s Hk; cbn [split_ws];
    pose proof (length_lstrip_ws s) as Hl;
    destruct (lstrip_ws s) as [|c r] eqn:E; try constructor.
  - cbn [length] in Hl. lia.
  - exfalso. cbn [length] in Hl. lia.
  - pose proof (lstrip_ws_head _ _ _ E) as Hc.
    cbn [take_word]. rewrite Hc.
    destruct (take_word r) as [w r'] eqn:Et.
    destruct (take_word_spec _ _ _ Et) as [Hw Hr].
    cbn [length] in Hl. constructor.
    + split; [discriminate|now constructor].
    + apply IH. lia.
Qed.

Lemma split_fields_words s : Forall word (split_fields s).
Proof. apply split_ws_words, Nat.le_refl. Qed.

Lemma num_fields_le s : num_fields s <= length s.
Proof.
  unfold num_fields.
  assert (H : forall b, count_fields b s <= length s).
  { induction s as [|c s IH]; intros b; cbn [count_fields length];
      [apply Nat.le_refl|].
    destruct (isspace c).
    - specialize (IH false). lia.
    - specialize (IH true). destruct b; lia. }
  apply H.
Qed.

Lemma length_split_fields s : length (split_fields s) = num_fields s.
Proof.
  unfold split_fields. rewrite length_split_ws.
  pose proof (num_fields_le s). lia.
Qed.

(** X12: [loadavg_str] is ["n/a"] when [/proc/loadavg] cannot be read or
    has fewer than three fields; otherwise it is the first three fields,
    which are words without white space, with one blank between them. *)
Theorem loadavg_str_cases loadavg :
  (loadavg_str loadavg = py "n/a" /\
   (loadavg = None \/
    exists text, loadavg = Some text /\
                 num_fields (universal_newlines text) < 3)) \/
  (exists text a0 a1 a2 rest,
     loadavg = Some text /\
     split_fields (universal_newlines text) = a0 :: a1 :: a2 :: rest /\
     word a0 /\ word a1 /\ word a2 /\
     loadavg_str loadavg = a0 ++ [space] ++ a1 ++ [space] ++ a2).
Proof.
  destruct loadavg as [text|]; [|left; split; [reflexivity|now left]].
  unfold loadavg_str.
  pose proof (length_split_fields (universal_newlines text)) as Hn.
  pose proof (split_fields_words (universal_newlines text)) as Hw.
  destruct (split_fields (universal_newlines text))
    as [|a0 [|a1 [|a2 rest]]] eqn:E; cbn [length] in Hn.
  1-3: left; split; [reflexivity|right; exists text; split; [reflexivity|lia]].
  right. exists text, a0, a1, a2, rest.
  apply Forall_cons_iff in Hw as [W0 Hw].
  apply Forall_cons_iff in Hw as [W1 Hw].
  apply Forall_cons_iff in Hw as [W2 _].
  split; [reflexivity|]. split; [exact E|].
  split; [exact W0|]. split; [exact W1|]. split; [exact W2|]. reflexivity.
Qed.

(** X13: [disk_root_str] is the pair of ["n/a"] when the output of [df]
    has fewer than two lines or its second line fewer than five fields;
    otherwise the pair is made of the second to fifth field of that line,
    which are words without white space: used, size and percentage in the
    first component, the available space in the second. *)
Theorem disk_root_str_cases df :
  let lns := splitlines (sh df) in
  (disk_root_str df = (py "n/a", py "n/a") /\
   (length lns < 2 \/ num_fields (nth 1 lns []) < 5)) \/
  (exists dev size used avail usep rest,
     2 <= length lns /\
     split_fields (nth 1 lns []) = dev :: size :: used :: avail :: usep :: rest /\
     word size /\ word used /\ word avail /\ word usep /\
     disk_root_str df
     = (used ++ py "/" ++ size ++ py " (" ++ usep ++ py ")", avail)).
Proof.
  intros lns. unfold disk_root_str. fold lns.
  destruct (Nat.ltb_spec (length lns) 2) as [Hl|Hl];
    [left; split; [reflexivity|now left]|].
  pose proof (length_split_fields (nth 1 lns [])) as Hn.
  pose proof (split_fields_words (nth 1 lns [])) as Hw.
  destruct (split_fields (nth 1 lns []))
    as [|dev [|size [|used [|avail [|usep rest]]]]] eqn:E;
    cbn [length] in Hn.
  1-5: left; split; [reflexivity|right; lia].
  right. exists dev, size, used, avail, usep, rest.
  apply Forall_cons_iff in Hw as [_ Hw].
  apply Forall_cons_iff in Hw as [W1 Hw].
  apply Forall_cons_iff in Hw as [W2 Hw].
  apply Forall_cons_iff in Hw as [W3 Hw].
  apply Forall_cons_iff in Hw as [W4 _].
  split; [exact Hl|]. split; [reflexivity|].
  split; [exact W1|]. split; [exact W2|]. split; [exact W3|].
  split; [exact W4|]. reflexivity.
Qed.

Lemma splitlines_from_one_line s : forall cur,
  Forall (fun c => islinebreak c = false) s ->
  length (splitlines_from cur s) <= 1.
Proof.
  induction s as [|c s IH]; intros cur H; cbn [splitlines_from].
  - destruct cur; cbn [length]; lia.
  - inversion H as [|? ? Hc Hs]; subst. rewrite Hc. now apply IH.
Qed.

(** X14: how a command that fails with a message of one line shows up:
    [disk_root_str] gives the pair of ["n/a"], [net_str] gives ["n/a"] for
    the address and for the gateway, and [ups_line] shows the message
    behind ["ERR: "]. *)
Theorem failed_command_display e :
  Forall (fun c => islinebreak c = false) e ->
  disk_root_str (Raised e) = (py "n/a", py "n/a") /\
  net_str (Raised e) (Raised e) = py "IP n/a, GW n/a" /\
  ups_line (Raised e) = py "ERR: " ++ e.
Proof.
  intros H. split; [|split; reflexivity].
  unfold disk_root_str.
  assert (Hl : length (splitlines (sh (Raised e))) <= 1).
  { unfold splitlines. apply splitlines_from_one_line.
    cbn [sh]. apply Forall_app. split; [|exact H].
    repeat constructor. }
  destruct (Nat.ltb_spec (length (splitlines (sh (Raised e)))) 2);
    [reflexivity|lia].
Qed.

Lemma failed_command_display_witness :
  Forall (fun c => islinebreak c = false) (py "timed out") /\
  disk_root_str (Raised (py "timed out")) = (py "n/a", py "n/a") /\
  net_str (Raised (py "timed out")) (Raised (py "timed out"))
  = py "IP n/a, GW n/a" /\
  ups_line (Raised (py "timed out")) = py "ERR: timed out".
Proof.
  assert (H : Forall (fun c => islinebreak c = false) (py "timed out"))
    by (repeat constructor).
  split; [exact H|]. exact (failed_command_display (py "timed out") H).
Defined.

(** ** [mem_str] *)

Section Memory.
Local Open Scope Q_scope.

Lemma is_finite_below r c :
  0 <= r -> r <= inject_Z c -> (c < 2 ^ 1024)%Z -> is_finite r = true.
Proof.
  intros H0 H Hc. unfold is_finite. apply negb_true_iff.
  destruct (Qle_bool _ _) eqn:E; [|reflexivity].
  apply Qle_bool_iff in E. rewrite Qabs_pos in E by exact H0.
  assert (C : inject_Z (2 ^ 1024) <= inject_Z c) by (now apply Qle_trans with r).
  rewrite <- Zle_Qle in C. lia.
Qed.

(** The quotient of a number of at most 53 bits by a power of two is a
    [float]. *)
Lemma int_truediv_pow2 n j :
  (0 <= n < 2 ^ 53)%Z -> (0 <= j <= 52)%Z ->
  exists r, int_truediv n (2 ^ j) = Some r /\
            r == inject_Z n / inject_Z (2 ^ j) /\ 0 <= r.
Proof.
  intros Hn Hj. unfold int_truediv.
  change (Qmake n 1) with (inject_Z n).
  change (Qmake (2 ^ j) 1) with (inject_Z (2 ^ j)).
  set (x := inject_Z n / inject_Z (2 ^ j)).
  assert (Hp : (0 < 2 ^ j)%Z) by (apply Z.pow_pos_nonneg; lia).
  assert (Hpq : 0 < inject_Z (2 ^ j)) by (now apply inject_Z_pos).
  assert (Hx0 : 0 <= x).
  { apply Qle_shift_div_l; [exact Hpq|]. rewrite Qmult_0_l.
    change 0 with (inject_Z 0). rewrite <- Zle_Qle. lia. }
  assert (Hx1 : x <= inject_Z n).
  { apply Qle_shift_div_r; [exact Hpq|].
    rewrite <- inject_Z_mult, <- Zle_Qle. nia. }
  assert (Hr : round_binary64 x == x).
  { destruct (Z.eq_dec n 0) as [->|Hne].
    - unfold round_binary64.
      assert (E : x == 0) by (unfold x; change (inject_Z 0) with 0;
                              unfold Qdiv; apply Qmult_0_l).
      apply Qeq_alt in E as C. rewrite C. now rewrite E.
    - apply (round_binary64_exact x n j); [lia|exact Hj|reflexivity]. }
  assert (Hf : is_finite (round_binary64 x) = true).
  { apply (is_finite_below _ n).
    - now rewrite Hr.
    - now rewrite Hr.
    - assert (2 ^ 53 < 2 ^ 1024)%Z by (apply Z.pow_lt_mono_r; lia). lia. }
  rewrite Hf. exists (round_binary64 x). split; [reflexivity|].
  split; [exact Hr|now rewrite Hr].
Qed.

Lemma format_0f_mib n :
  (0 <= n < 2 ^ 53)%Z ->
  exists r, int_truediv n 1024 = Some r /\
            format_0f r = str_of_Z (round_half_even (Qmake n 1024)).
Proof.
  intros Hn.
  destruct (int_truediv_pow2 n 10 Hn ltac:(lia)) as (r & Hr & E & H0).
  change (2 ^ 10)%Z with 1024%Z in *.
  exists r. split; [exact Hr|].
  rewrite (format_0f_nonneg r H0). f_equal. apply round_half_even_comp.
  rewrite E. unfold Qeq, Qdiv, Qmult, Qinv, inject_Z.
  cbn [Qnum Qden Pos.mul]. lia.
Qed.

Lemma used_pct_str_range used total :
  (0 <= used <= total)%Z ->
  exists k, (0 <= k <= 100)%Z /\ used_pct_str used total = Some (str_of_Z k).
Proof.
  intros H. unfold used_pct_str.
  destruct (Z.eqb_spec total 0) as [E|E];
    [exists 0%Z; split; [lia|reflexivity]|].
  assert (Ht : (0 < total)%Z) by lia.
  destruct (ratio_bounds used total Ht H) as [Hx0 Hx1].
  assert (Hc1 : (0 <= 1 <= 2 ^ 52)%Z) by (split; [lia|vm_compute; discriminate]).
  assert (Hc100 : (0 <= 100 <= 2 ^ 52)%Z)
    by (split; [lia|vm_compute; discriminate]).
  unfold int_truediv. rewrite (round_finite _ 1 Hc1 Hx0 Hx1).
  destruct (round_binary64_bounds _ 1 Hc1 Hx0 Hx1) as [Hq0 Hq1].
  set (q := round_binary64 (Qmake used 1 / Qmake total 1)) in *.
  change (inject_Z 1) with 1 in Hq1.
  assert (Hu0 : 0 <= q * 100) by lra.
  assert (Hu1 : q * 100 <= inject_Z 100)
    by (change (inject_Z 100) with 100; lra).
  destruct (Qeq_bool q 0);
    [exists 0%Z; split; [lia|];
     replace (used <? 0)%Z with false by (symmetry; apply Z.ltb_ge; lia);
     replace (total <? 0)%Z with false by (symmetry; apply Z.ltb_ge; lia);
     reflexivity|].
  unfold fmul. rewrite (round_finite _ 100 Hc100 Hu0 Hu1).
  destruct (round_binary64_bounds _ 100 Hc100 Hu0 Hu1) as [Hv0 Hv1].
  exists (round_half_even (round_binary64 (q * 100))). split.
  - split; [now apply round_half_even_nonneg|now apply round_half_even_le].
  - now rewrite format_0f_nonneg.
Qed.

End Memory.

(** X15: when [/proc/meminfo] gives a total and an available amount with
    [0 <= available <= total < 2^53] (in kB), [mem_str] gives the used and
    the total amount in MiB, each the exact quotient by 1024 rounded to the
    nearest integer (ties to even), and a percentage that is an integer
    from 0 to 100. *)
Theorem mem_str_range text total avail :
  mem_scan (file_iter [] (universal_newlines text)) None None
  = Some (Some total, Some avail) ->
  (0 <= avail <= total)%Z -> (total < 2 ^ 53)%Z ->
  exists k, (0 <= k <= 100)%Z /\
    mem_str (Some text)
    = (str_of_Z (round_half_even (Qmake (total - avail) 1024)) ++ py " MiB",
       str_of_Z (round_half_even (Qmake total 1024)) ++ py " MiB",
       str_of_Z k ++ py "%").
Proof.
  intros Hs Ha Ht. unfold mem_str. rewrite Hs.
  destruct (used_pct_str_range (total - avail) total ltac:(lia))
    as (k & Hk & ->).
  destruct (format_0f_mib (total - avail) ltac:(lia)) as (u & -> & ->).
  destruct (format_0f_mib total ltac:(lia)) as (t & -> & ->).
  exists k. split; [exact Hk|reflexivity].
Qed.

Lemma mem_scan_keeps_available lns : forall t a t' a',
  Forall (fun line => startswith line (py "MemAvailable:") = false) lns ->
  mem_scan lns t a = Some (t', a') -> a' = a.
Proof.
  induction lns as [|line rest IH]; intros t a t' a' H; cbn [mem_scan].
  - now intros [= _ <-].
  - inversion H as [|? ? Hl Hr]; subst. rewrite Hl.
    destruct (startswith line (py "MemTotal:")).
    + destruct (second_int line); [|discriminate]. now apply IH.
    + now apply IH.
Qed.

Lemma mem_scan_keeps_total lns : forall t a t' a',
  Forall (fun line => startswith line (py "MemTotal:") = false) lns ->
  mem_scan lns t a = Some (t', a') -> t' = t.
Proof.
  induction lns as [|line rest IH]; intros t a t' a' H; cbn [mem_scan].
  - now intros [= <- _].
  - inversion H as [|? ? Hl Hr]; subst. rewrite Hl.
    destruct (startswith line (py "MemAvailable:")).
    + destruct (second_int line); [|discriminate]. now apply IH.
    + now apply IH.
Qed.

(** X16: when no line of [/proc/meminfo] starts with [MemTotal:], or none
    with [MemAvailable:], [mem_str] is the triple of ["n/a"]. *)
Theorem mem_str_missing_key text key :
  key = py "MemTotal:" \/ key = py "MemAvailable:" ->
  Forall (fun line => startswith line key = false)
         (file_iter [] (universal_newlines text)) ->
  mem_str (Some text) = (py "n/a", py "n/a", py "n/a").
Proof.
  intros Hk H. unfold mem_str.
  destruct (mem_scan _ None None) as [[t a]|] eqn:E; [|reflexivity].
  destruct Hk as [-> | ->].
  - apply (mem_scan_keeps_total _ _ _ _ _ H) in E. now subst t.
  - apply (mem_scan_keeps_available _ _ _ _ _ H) in E. subst a.
    now destruct t.
Qed.

Lemma mem_str_range_witness :
  mem_scan (file_iter [] (universal_newlines meminfo_sample)) None None
  = Some (Some 8000000%Z, Some 6000000%Z) /\
  (exists k, (0 <= k <= 100)%Z /\
     mem_str (Some meminfo_sample)
     = (str_of_Z (round_half_even (Qmake (8000000 - 6000000) 1024))
          ++ py " MiB",
        str_of_Z (round_half_even (Qmake 8000000 1024)) ++ py " MiB",
        str_of_Z k ++ py "%")) /\
  mem_str (Some meminfo_sample) = (py "1953 MiB", py "7812 MiB", py "25%").
Proof.
  assert (H : mem_scan (file_iter [] (universal_newlines meminfo_sample))
                None None = Some (Some 8000000%Z, Some 6000000%Z))
    by (vm_compute; reflexivity).
  split; [exact H|]. split.
  - apply (mem_str_range meminfo_sample 8000000 6000000 H); lia.
  - vm_compute. reflexivity.
Defined.

Lemma mem_str_missing_key_witness :
  Forall (fun line => startswith line (py "MemAvailable:") = false)
         (file_iter [] (universal_newlines meminfo_old_kernel)) /\
  mem_str (Some meminfo_old_kernel) = (py "n/a", py "n/a", py "n/a").
Proof.
  assert (H : Forall (fun line => startswith line (py "MemAvailable:") = false)
                (file_iter [] (universal_newlines meminfo_old_kernel)))
    by (vm_compute; repeat constructor).
  split; [exact H|].
  apply (mem_str_missing_key meminfo_old_kernel (py "MemAvailable:"));
    [now right|exact H].
Defined.

(** ** Reading [/proc/stat] *)

Lemma length_map_int toks : forall vals,
  map_int toks = Some vals -> length vals = length toks.
Proof.
  induction toks as [|tok rest IH]; intros vals; cbn [map_int].
  - now intros [= <-].
  - destruct (py_int tok); [|discriminate].
    destruct (map_int rest) as [vs|]; [|discriminate].
    intros [= <-]. cbn [length]. f_equal. now apply IH.
Qed.

Lemma stat_counters_short contents :
  num_fields (readline contents) < 5 ->
  match stat_counters contents with
  | Some vals => read_stat vals = None
  | None => True
  end.
Proof.
  intros H. unfold stat_counters.
  destruct (map_int _) as [vals|] eqn:E; [|exact I].
  apply length_map_int in E.
  rewrite length_tl, length_split_fields in E.
  unfold read_stat.
  destruct (nth_error vals 3) eqn:En; [|reflexivity].
  assert (Hn : nth_error vals 3 <> None) by congruence.
  apply nth_error_Some in Hn. lia.
Qed.

(** X17: when the first line of [/proc/stat] has fewer than five fields
    (a label and four counters) at one of the two reads, [cpu_usage_str]
    on these contents is ["n/a"]. *)
Theorem cpu_usage_text_short_line stat1 stat2 :
  num_fields (readline stat1) < 5 \/ num_fields (readline stat2) < 5 ->
  cpu_usage_text (Some stat1) (Some stat2) = py "n/a".
Proof.
  intros H. unfold cpu_usage_text, cpu_usage_str.
  destruct (stat_counters stat1) as [v1|] eqn:E1; [|reflexivity].
  destruct (read_stat v1) as [[t1 i1]|] eqn:R1; [|reflexivity].
  destruct H as [H|H].
  - apply stat_counters_short in H. rewrite E1 in H. congruence.
  - apply stat_counters_short in H.
    destruct (stat_counters stat2) as [v2|]; [|reflexivity].
    now rewrite H.
Qed.

Lemma cpu_usage_text_short_line_witness :
  (num_fields (readline stat_sample) < 5 \/
   num_fields (readline stat_short) < 5) /\
  cpu_usage_text (Some stat_sample) (Some stat_short) = py "n/a" /\
  cpu_usage_text (Some stat_sample) (Some stat_later) = py "50%".
Proof.
  assert (H : num_fields (readline stat_sample) < 5 \/
              num_fields (readline stat_short) < 5)
    by (right; vm_compute; lia).
  split; [exact H|]. split.
  - exact (cpu_usage_text_short_line stat_sample stat_short H).
  - vm_compute. reflexivity.
Defined.

(** ** The summary report *)

Section SizeLength.
Local Open Scope Q_scope.

Lemma length_format_2f x :
  0 <= x -> x * 100 <= inject_Z 999999 -> (length (format_2f x) <= 7)%nat.
Proof.
  intros H0 H1. unfold format_2f.
  assert (Hk0 : (0 <= round_half_even (x * 100))%Z)
    by (apply round_half_even_nonneg; lra).
  pose proof (round_half_even_le _ _ H1) as Hk1.
  set (k := round_half_even (x * 100)) in *.
  rewrite !length_app.
  assert (Hq : (0 <= k / 100 < 10000)%Z).
  { split; [apply Z.div_pos; lia|apply Z.div_lt_upper_bound; lia]. }
  pose proof (length_str_of_year _ Hq). cbn [length two_digits]. lia.
Qed.

Lemma length_quotient n d :
  (0 < d)%Z -> (0 <= n < 8192 * d)%Z ->
  (length (format_2f (inject_Z n / inject_Z d)) <= 7)%nat.
Proof.
  intros Hd Hn.
  assert (Hdq : 0 < inject_Z d) by (now apply inject_Z_pos).
  apply length_format_2f.
  - apply Qle_shift_div_l; [exact Hdq|]. rewrite Qmult_0_l.
    change 0 with (inject_Z 0). rewrite <- Zle_Qle. lia.
  - assert (E : inject_Z n / inject_Z d * 100
                == inject_Z (n * 100) / inject_Z d).
    { rewrite inject_Z_mult. change (inject_Z 100) with 100. field.
      intros E. rewrite E in Hdq. now apply Qlt_irrefl in Hdq. }
    rewrite E. apply Qle_shift_div_r; [exact Hdq|].
    rewrite <- inject_Z_mult, <- Zle_Qle. lia.
Qed.

End SizeLength.

Lemma length_human_size_exact n :
  (0 <= n < 2 ^ 53)%Z -> length (human_size_exact n) <= 11.
Proof.
  intros Hn. unfold human_size_exact.
  assert (E53 : (2 ^ 53 = 8192 * 1024 ^ 4)%Z) by reflexivity.
  destruct (Z.ltb_spec n 1024) as [H1|H1].
  { rewrite length_app.
    pose proof (length_str_of_year n ltac:(lia)).
    change (length (py " B")) with 2. lia. }
  destruct (Z.ltb_spec n (1024 ^ 2)) as [H2|H2].
  { rewrite length_app. change (length (py " KiB")) with 4.
    pose proof (length_quotient n 1024 ltac:(lia) ltac:(lia)). lia. }
  destruct (Z.ltb_spec n (1024 ^ 3)) as [H3|H3].
  { rewrite length_app. change (length (py " MiB")) with 4.
    pose proof (length_quotient n (1024 ^ 2) ltac:(lia) ltac:(lia)). lia. }
  destruct (Z.ltb_spec n (1024 ^ 4)) as [H4|H4].
  { rewrite length_app. change (length (py " GiB")) with 4.
    pose proof (length_quotient n (1024 ^ 3) ltac:(lia) ltac:(lia)). lia. }
  rewrite length_app. change (length (py " TiB")) with 4.
  pose proof (length_quotient n (1024 ^ 4) ltac:(lia) ltac:(lia)). lia.
Qed.

Lemma accounted_summary_header count size :
  count < 1000 -> length size <= 11 ->
  accounted (summary_header count size) <= 80.
Proof.
  intros Hc Hs. unfold summary_header.
  rewrite !accounted_cons. change (accounted []) with 0.
  rewrite !length_app.
  pose proof (length_str_of_nat count Hc).
  change (length (py "Backup kopijų skaičius: ")) with 24.
  change (length (py "Bendras backup dydis: ")) with 22.
  change (length (py "Naujausi backup:")) with 16.
  cbn [length]. lia.
Qed.

(** X18: with at most 78 backups in the inventory and a total size from 0
    to below [2^53] bytes, the summary report is the four header lines,
    with the number of backups and the exact total size in its unit, then
    the line ["nėra"] for an empty inventory and otherwise one line for
    each backup, numbered from 1 in the order of the inventory, with no
    trailer line. *)
Theorem summary_report_lists_all cfg env :
  let backups := list_backups cfg env in
  let total_bytes := total_backup_bytes env backups in
  length backups <= 78 -> (0 <= total_bytes < 2 ^ 53)%Z ->
  backups_summary_text cfg env
  = Some (fenced (summary_header (length backups) (human_size_exact total_bytes)
                    ++ match backups with
                       | [] => [py "nėra"]
                       | _ => map index_line (enumerate 1 backups)
                       end)).
Proof.
  intros backups total_bytes Hlen Htot. unfold backups_summary_text.
  fold backups. fold total_bytes.
  rewrite (human_size_exact_spec total_bytes Htot). f_equal. f_equal.
  assert (Hin : forall b, In b backups -> dt_valid (backup_ts b) = true).
  { intros b Hb. destruct (list_backups_In cfg env b Hb) as [Hp _].
    now apply parse_backup_ts_valid in Hp. }
  destruct backups as [|b0 bs]; [reflexivity|].
  apply bounded_lines_all_fit.
  assert (Hacc : accounted (map index_line (enumerate 1 (b0 :: bs)))
                 <= 22 * length (b0 :: bs)).
  { rewrite <- (length_enumerate (b0 :: bs) 1), <- (length_map index_line).
    apply (accounted_bound 21). intros l Hl.
    apply in_map_iff in Hl as ([i b] & <- & Hib).
    apply enumerate_In in Hib as [Hi Hb].
    apply length_index_line; [lia|now apply Hin]. }
  pose proof (accounted_summary_header (length (b0 :: bs))
                (human_size_exact total_bytes) ltac:(lia)
                (length_human_size_exact _ Htot)).
  unfold max_len. lia.
Qed.

Lemma summary_report_lists_all_witness :
  length (list_backups cfg_twice env_scenario) <= 78 /\
  (0 <= total_backup_bytes env_scenario (list_backups cfg_twice env_scenario)
   < 2 ^ 53)%Z /\
  backups_summary_text cfg_twice env_scenario
  = Some (fenced [py "Backup kopijų skaičius: 2";
                  py "Bendras backup dydis: 30 B";
                  [];
                  py "Naujausi backup:";
                  py "  1. 2024-01-02 09:30";
                  py "  2. 2024-01-01 10:00"]).
Proof.
  assert (Hlen : length (list_backups cfg_twice env_scenario) <= 78)
    by (vm_compute; lia).
  assert (Htot : (0 <= total_backup_bytes env_scenario
                         (list_backups cfg_twice env_scenario) < 2 ^ 53)%Z)
    by (vm_compute; split; [discriminate|reflexivity]).
  split; [exact Hlen|]. split; [exact Htot|].
  rewrite (summary_report_lists_all _ _ Hlen Htot). vm_compute. reflexivity.
Defined.
